(** * Merlin: the epoch controller of swarmpool, embedded in Rocq

    A shallow embedding of the [merlin] package (crypto.py, schemas.py,
    config.py, publisher.py, watcher.py, epoch.py) together with the
    properties its specification states about it.

    Conventions of the embedding:
    - a Python [str] is the Rocq [string] of its UTF-8 bytes (so
      [s.encode("utf-8")] is the list of bytes of the string, and the
      code-point order used by [sorted] is the byte-wise order); strings
      with lone surrogates, which have no UTF-8 form, are not represented;
    - Python [bytes] are [list byte];
    - a Python [float] is a primitive binary64 float;
    - a Python [int] is a [Z];
    - a Python [dict] is an insertion-ordered association list, a Python
      [set] of strings is a [gset string];
    - code that may raise returns a [Result]. *)

From Stdlib Require Import ZArith NArith Lia List Bool Ascii String.
From Stdlib.Strings Require Import Byte.
From Stdlib Require Import DecimalString Uint63.
From Stdlib Require DecimalFacts DecimalZ.
From Stdlib Require Import Permutation Sorted QArith Qabs.
From Stdlib Require Import Floats.
From stdpp Require Import base gmap strings sorting.
Import ListNotations.

Local Open Scope string_scope.
Local Open Scope list_scope.

(** ** Results of code that may raise *)

Inductive Exn : Type :=
| ValueError
| TypeError
| AttributeError
| OverflowError
| IndexError
| KeyError
| PyException
| IOError.

Inductive Result (A : Type) : Type :=
| Ok (a : A)
| Raise (e : Exn).
Arguments Ok {A} a.
Arguments Raise {A} e.

Definition rbind {A B} (r : Result A) (k : A -> Result B) : Result B :=
  match r with
  | Ok a => k a
  | Raise e => Raise e
  end.

Notation "'try!' x ':=' r 'in' k" := (rbind r (fun x => k))
  (at level 10, x name, r at level 100, k at level 200).

Definition returns {A} (r : Result A) : Prop := exists a, r = Ok a.
Definition raises {A} (r : Result A) : Prop := exists e, r = Raise e.

(** ** Bytes and hexadecimal *)

Module Hex.

Definition digit (n : N) : ascii :=
  ascii_of_N (if (n <? 10)%N then 48 + n else 87 + n)%N.

(** [b.hex()]: two lower-case digits per byte. *)
Fixpoint hex (bs : list byte) : string :=
  match bs with
  | [] => EmptyString
  | b :: bs' =>
      let n := Byte.to_N b in
      String (digit (n / 16)) (String (digit (n mod 16)) (hex bs'))
  end.

(** Value of a hexadecimal digit, either case. *)
Definition digit_value (c : ascii) : option N :=
  let n := N_of_ascii c in
  if ((48 <=? n) && (n <=? 57))%N then Some (n - 48)%N
  else if ((97 <=? n) && (n <=? 102))%N then Some (n - 87)%N
  else if ((65 <=? n) && (n <=? 70))%N then Some (n - 55)%N
  else None.

(** ASCII white space, which [bytes.fromhex] skips between bytes. *)
Definition is_space (c : ascii) : bool :=
  let n := N_of_ascii c in
  ((n =? 32) || ((9 <=? n) && (n <=? 13)))%N.

Definition byte_of_N (n : N) : byte :=
  match Byte.of_N n with
  | Some b => b
  | None => x00
  end.

(** [bytes.fromhex(s)]: pairs of hexadecimal digits, white space allowed
    between the pairs; anything else raises [ValueError]. *)
Fixpoint fromhex (s : string) : option (list byte) :=
  match s with
  | EmptyString => Some []
  | String c s' =>
      if is_space c then fromhex s'
      else
        match digit_value c, s' with
        | Some hi, String d s'' =>
            match digit_value d, fromhex s'' with
            | Some lo, Some bs => Some (byte_of_N (16 * hi + lo) :: bs)
            | _, _ => None
            end
        | _, _ => None
        end
  end.

(** An even number of hexadecimal digits and nothing else. *)
Fixpoint is_even_hex (s : string) : bool :=
  match s with
  | EmptyString => true
  | String a (String b s') =>
      match digit_value a, digit_value b with
      | Some _, Some _ => is_even_hex s'
      | _, _ => false
      end
  | String _ EmptyString => false
  end.

End Hex.

(** ** Keccak-256 ([eth_utils.keccak]) *)

Module Keccak.

Local Open Scope N_scope.

Definition mask64 : N := 18446744073709551615.

Definition rotl (x : N) (n : N) : N :=
  N.land (N.lor (N.shiftl x n) (N.shiftr x (64 - n))) mask64.

Definition lane (st : list N) (i : nat) : N := nth i st 0.

Definition round_constants : list N :=
  [ 0x0000000000000001; 0x0000000000008082; 0x800000000000808A;
    0x8000000080008000; 0x000000000000808B; 0x0000000080000001;
    0x8000000080008081; 0x8000000000008009; 0x000000000000008A;
    0x0000000000000088; 0x0000000080008009; 0x000000008000000A;
    0x000000008000808B; 0x800000000000008B; 0x8000000000008089;
    0x8000000000008003; 0x8000000000008002; 0x8000000000000080;
    0x000000000000800A; 0x800000008000000A; 0x8000000080008081;
    0x8000000000008080; 0x0000000080000001; 0x8000000080008008 ].

(** Rotation offsets, indexed by [x + 5 * y]. *)
Definition rotation_offsets : list N :=
  [ 0; 1; 62; 28; 27;
    36; 44; 6; 55; 20;
    3; 10; 43; 25; 39;
    41; 45; 15; 21; 8;
    18; 2; 61; 56; 14 ].

Definition indices : list nat := seq 0 25.

Definition theta (a : list N) : list N :=
  let c := map (fun x =>
    N.lxor (lane a x) (N.lxor (lane a (x + 5)) (N.lxor (lane a (x + 10))
      (N.lxor (lane a (x + 15)) (lane a (x + 20)))))) (seq 0 5) in
  let d := map (fun x =>
    N.lxor (lane c ((x + 4) mod 5)) (rotl (lane c ((x + 1) mod 5)) 1))
    (seq 0 5) in
  map (fun i => N.lxor (lane a i) (lane d (i mod 5))) indices.

(** rho and pi together: [B[y, 2x+3y] = rot(A[x, y], r[x, y])]; written
    by destination: the lane at [(X, Y)] comes from [x = (X + 3Y) mod 5],
    [y = X]. *)
Definition rho_pi (a : list N) : list N :=
  map (fun i =>
    let X := (i mod 5)%nat in
    let Y := (i / 5)%nat in
    let x := ((X + 3 * Y) mod 5)%nat in
    let y := X in
    let j := (x + 5 * y)%nat in
    rotl (lane a j) (nth j rotation_offsets 0)) indices.

Definition chi (b : list N) : list N :=
  map (fun i =>
    let x := (i mod 5)%nat in
    let y := (i / 5)%nat in
    let b1 := lane b (((x + 1) mod 5) + 5 * y) in
    let b2 := lane b (((x + 2) mod 5) + 5 * y) in
    N.lxor (lane b i) (N.land (N.lxor b1 mask64) b2)) indices.

Definition iota (rc : N) (a : list N) : list N :=
  match a with
  | [] => []
  | a0 :: a' => N.lxor a0 rc :: a'
  end.

Definition round (a : list N) (rc : N) : list N :=
  iota rc (chi (rho_pi (theta a))).

Definition keccak_f (a : list N) : list N :=
  fold_left round round_constants a.

(** Little-endian lanes. *)
Fixpoint lane_of_bytes (bs : list N) : N :=
  match bs with
  | [] => 0
  | b :: bs' => b + 256 * lane_of_bytes bs'
  end.

Fixpoint bytes_of_lane (n : nat) (x : N) : list N :=
  match n with
  | O => []
  | S n' => (x mod 256) :: bytes_of_lane n' (x / 256)
  end.

Fixpoint lanes_of_block (n : nat) (bs : list N) : list N :=
  match n with
  | O => []
  | S n' => lane_of_bytes (firstn 8 bs) :: lanes_of_block n' (skipn 8 bs)
  end.

Definition rate : nat := 136.

(** XOR a block of [rate] bytes into the state and permute. *)
Definition absorb_block (st : list N) (block : list N) : list N :=
  let ls := lanes_of_block 17 block in
  keccak_f (map (fun i => N.lxor (lane st i) (lane ls i)) indices).

(** pad10*1 with the original Keccak domain byte [0x01]. *)
Definition pad (tail : list N) : list N :=
  let n := length tail in
  if Nat.eqb n (rate - 1) then tail ++ [0x81]
  else tail ++ [0x01] ++ repeat 0 (rate - 2 - n) ++ [0x80].

Fixpoint absorb (fuel : nat) (st : list N) (msg : list N) : list N :=
  match fuel with
  | O => st
  | S fuel' =>
      if Nat.ltb (length msg) rate
      then absorb_block st (pad msg)
      else absorb fuel' (absorb_block st (firstn rate msg)) (skipn rate msg)
  end.

Definition keccak256_N (msg : list N) : list N :=
  let st := absorb (S (length msg)) (repeat 0 25) msg in
  flat_map (bytes_of_lane 8) (firstn 4 st).

End Keccak.

(** [keccak(data)]: the 32-byte Keccak-256 digest. *)
Definition keccak (data : list byte) : list byte :=
  map Hex.byte_of_N (Keccak.keccak256_N (map Byte.to_N data)).

Definition encode_utf8 (s : string) : list byte := list_byte_of_string s.

(** ** Strings as Python uses them *)

(** [s.startswith(p)] *)
Definition startswith (p s : string) : bool := String.prefix p s.

(** [s[n:]] *)
Fixpoint str_drop (n : nat) (s : string) : string :=
  match n, s with
  | O, _ => s
  | S n', String _ s' => str_drop n' s'
  | S _, EmptyString => EmptyString
  end.

(** [s.endswith(p)] *)
Definition endswith (p s : string) : bool :=
  String.eqb (str_drop (String.length s - String.length p) s) p
  && Nat.leb (String.length p) (String.length s).

(** The order of [str]: lexicographic on code points. *)
Definition str_le (a b : string) : Prop := String.leb a b = true.

(** [sorted(l)]: a stable sort; [le] is the order of the elements. *)
Section PySorted.
Context {A : Type} (le : A -> A -> bool).

Fixpoint insert_sorted (x : A) (l : list A) : list A :=
  match l with
  | [] => [x]
  | y :: l' => if le x y then x :: l else y :: insert_sorted x l'
  end.

Definition py_sorted (l : list A) : list A := fold_right insert_sorted [] l.

End PySorted.

(** [sorted(items)] for a list of strings. *)
Definition sorted (items : list string) : list string :=
  py_sorted String.leb items.

(** ** Python floats and integers as text *)

(** [str(n)] for an [int]. *)
Definition Z_to_string (n : Z) : string :=
  DecimalString.NilZero.string_of_int (Z.to_int n).

Fixpoint zeros (n : nat) : string :=
  match n with
  | O => EmptyString
  | S n' => String "0" (zeros n')
  end.

(** [s.rjust(width, "0")] *)
Definition zfill (width : nat) (s : string) : string :=
  zeros (width - String.length s) +:+ s.

(** [f"{n:04d}"]: at least four characters, the sign first. *)
Definition format_04d (n : Z) : string :=
  if (n <? 0)%Z then "-" +:+ zfill 3 (Z_to_string (- n))
  else zfill 4 (Z_to_string n).

Module PyFloat.

(** The exact value of a finite float. *)
Definition val (f : float) : option Q :=
  match Prim2SF f with
  | S754_zero _ => Some 0%Q
  | S754_finite s m e =>
      Some (Qmult (Qmake (if s then Z.neg m else Z.pos m) 1) (Qpower (Qmake 2 1) e))
  | S754_infinity _ | S754_nan => None
  end.

(** The binary64 float nearest to the positive rational [n / d], ties to
    even; overflow gives infinity. *)
Definition round_pos (n d : Z) : float :=
  let t := (Z.log2 n - Z.log2 d)%Z in
  let ge_pow := if (0 <=? t)%Z then (d * 2 ^ t <=? n)%Z
                else (d <=? n * 2 ^ (- t))%Z in
  let L := if ge_pow then t else (t - 1)%Z in
  let e := Z.max (L - 52) (-1074) in
  let num := if (0 <=? e)%Z then n else (n * 2 ^ (- e))%Z in
  let den := if (0 <=? e)%Z then (d * 2 ^ e)%Z else d in
  let q := (num / den)%Z in
  let r := (num mod den)%Z in
  let m := if (2 * r <? den)%Z then q
           else if (den <? 2 * r)%Z then (q + 1)%Z
           else if Z.even q then q else (q + 1)%Z in
  Z.ldexp (PrimFloat.of_uint63 (Uint63.of_Z m)) e.

(** [float(n)] for an [int]. *)
Definition of_int (n : Z) : Result float :=
  if (n =? 0)%Z then Ok 0%float
  else
    let f := round_pos (Z.abs n) 1 in
    if PrimFloat.is_infinity f then Raise OverflowError
    else Ok (if (n <? 0)%Z then PrimFloat.opp f else f).

(** *** [float(s)] for a [str] *)

Definition is_digit (c : ascii) : bool :=
  let n := N_of_ascii c in ((48 <=? n) && (n <=? 57))%N.

Definition is_strip_space (c : ascii) : bool :=
  let n := N_of_ascii c in
  ((n =? 32) || ((9 <=? n) && (n <=? 13)))%N.

Definition lower (c : ascii) : ascii :=
  let n := N_of_ascii c in
  if ((65 <=? n) && (n <=? 90))%N then ascii_of_N (n + 32) else c.

Fixpoint lstrip (s : list ascii) : list ascii :=
  match s with
  | c :: s' => if is_strip_space c then lstrip s' else s
  | [] => []
  end.

Definition strip (s : list ascii) : list ascii :=
  rev (lstrip (rev (lstrip s))).

(** A run of digits with single underscores between digits; returns the
    value so far, the number of digits read and the rest. *)
Fixpoint digit_run (s : list ascii) (acc : Z) (count : Z) : Z * Z * list ascii :=
  match s with
  | c :: s' =>
      if is_digit c
      then digit_run s' (10 * acc + Z.of_N (N_of_ascii c) - 48)%Z (count + 1)%Z
      else
        match c, s' with
        | "_"%char, d :: _ =>
            if (is_digit d && (0 <? count)%Z)%bool
            then digit_run s' acc count
            else (acc, count, s)
        | _, _ => (acc, count, s)
        end
  | [] => (acc, count, [])
  end.

Definition parse_exponent (s : list ascii) : option Z :=
  match s with
  | [] => Some 0%Z
  | c :: s' =>
      if Ascii.eqb (lower c) "e" then
        let '(neg, s'') :=
          match s' with
          | "-"%char :: r => (true, r)
          | "+"%char :: r => (false, r)
          | _ => (false, s')
          end in
        match digit_run s'' 0 0 with
        | (v, n, []) => if (0 <? n)%Z then Some (if neg then (- v)%Z else v) else None
        | _ => None
        end
      else None
  end.

Definition parse_unsigned (s : list ascii) : option float :=
  let name := string_of_list_ascii (map lower s) in
  if String.eqb name "inf" || String.eqb name "infinity" then Some PrimFloat.infinity
  else if String.eqb name "nan" then Some PrimFloat.nan
  else
    let '(ip, ni, s1) := digit_run s 0 0 in
    let '(fp, nf, s2) :=
      match s1 with
      | "."%char :: r => digit_run r ip 0
      | _ => (ip, 0%Z, s1)
      end in
    if ((ni + nf =? 0)%Z) then None
    else
      match parse_exponent s2 with
      | None => None
      | Some ex =>
          if (fp =? 0)%Z then Some 0%float
          else
            let p := (ex - nf)%Z in
            Some (if (0 <=? p)%Z then round_pos (fp * 10 ^ p) 1
                  else round_pos fp (10 ^ (- p)))
      end.

(** [float(s)]: [None] stands for [ValueError].  Digits and white space
    outside ASCII, which Python also accepts, are not modelled. *)
Definition of_str (s : string) : option float :=
  match strip (list_ascii_of_string s) with
  | "-"%char :: r => option_map PrimFloat.opp (parse_unsigned r)
  | "+"%char :: r => parse_unsigned r
  | r => parse_unsigned r
  end.

(** *** Floats as text *)

(** Round [n / d] (both positive) to the nearest integer, ties to even. *)
Definition round_half_even (n d : Z) : Z :=
  let q := (n / d)%Z in
  let r := (n mod d)%Z in
  if (2 * r <? d)%Z then q
  else if (d <? 2 * r)%Z then (q + 1)%Z
  else if Z.even q then q else (q + 1)%Z.

(** [f"{x:.2f}"] *)
Definition format_2f (x : float) : string :=
  match Prim2SF x with
  | S754_nan => "nan"
  | S754_infinity s => if s then "-inf" else "inf"
  | S754_zero s => if s then "-0.00" else "0.00"
  | S754_finite s m e =>
      let n := if (0 <=? e)%Z then (100 * Z.pos m * 2 ^ e)%Z else (100 * Z.pos m)%Z in
      let d := if (0 <=? e)%Z then 1%Z else (2 ^ (- e))%Z in
      let k := round_half_even n d in
      (if s then "-" else "") +:+ Z_to_string (k / 100) +:+ "." +:+
      zfill 2 (Z_to_string (k mod 100))
  end.

(** [n * 10^p <= a / b], for positive [b]. *)
Definition dec_le_rat (n p a b : Z) : bool :=
  if (0 <=? p)%Z then (n * 10 ^ p * b <=? a)%Z else (n * b <=? a * 10 ^ (- p))%Z.

Definition rat_le_dec (a b n p : Z) : bool :=
  if (0 <=? p)%Z then (a <=? n * 10 ^ p * b)%Z else (a * 10 ^ (- p) <=? n * b)%Z.

(** [floor(log10(a / b))], searched from an estimate. *)
Fixpoint log10_from (fuel : nat) (a b k : Z) : Z :=
  match fuel with
  | O => k
  | S fuel' =>
      if negb (dec_le_rat 1 k a b) then log10_from fuel' a b (k - 1)%Z
      else if dec_le_rat 1 (k + 1) a b then log10_from fuel' a b (k + 1)%Z
      else k
  end.

Fixpoint strip_zeros (fuel : nat) (c p : Z) : Z * Z :=
  match fuel with
  | O => (c, p)
  | S fuel' =>
      if ((c mod 10 =? 0) && negb (c =? 0))%Z
      then strip_zeros fuel' (c / 10)%Z (p + 1)%Z
      else (c, p)
  end.

(** The shortest decimal [c * 10^p] that rounds to the positive float
    [m * 2^e], and among those the closest: try 1, 2, ... digits. *)
Fixpoint shortest_from (fuel : nat) (ndig : Z)
    (x lo hi den k : Z) (incl : bool) : Z * Z :=
  let p := (k - ndig + 1)%Z in
  let inside c :=
    if incl then dec_le_rat c p hi den && rat_le_dec lo den c p
    else negb (rat_le_dec hi den c p) && negb (dec_le_rat c p lo den) in
  let c0 := if (0 <=? p)%Z then (x / (den * 10 ^ p))%Z
            else (x * 10 ^ (- p) / den)%Z in
  let c1 := (c0 + 1)%Z in
  (* twice the distances to x, over the common denominator *)
  let closer0 :=
    if (0 <=? p)%Z
    then (2 * x <=? (c0 + c1) * 10 ^ p * den)%Z
    else (2 * x * 10 ^ (- p) <=? (c0 + c1) * den)%Z in
  let pick :=
    match inside c0, inside c1 with
    | true, true => Some (if closer0 then c0 else c1)
    | true, false => Some c0
    | false, true => Some c1
    | false, false => None
    end in
  match pick, fuel with
  | Some c, _ => (c, p)
  | None, S fuel' => shortest_from fuel' (ndig + 1)%Z x lo hi den k incl
  | None, O => (c0, p)
  end.

(** Digits and decimal point position of the shortest round-trip form. *)
Definition shortest (m : positive) (e : Z) : string * Z :=
  let boundary := ((Z.pos m =? 2 ^ 52) && (-1074 <? e))%Z in
  let sc := if (0 <=? e - 2)%Z then (2 ^ (e - 2))%Z else 1%Z in
  let den := if (0 <=? e - 2)%Z then 1%Z else (2 ^ (2 - e))%Z in
  let x := (4 * Z.pos m * sc)%Z in
  let hi := ((4 * Z.pos m + 2) * sc)%Z in
  let lo := ((4 * Z.pos m - (if boundary then 1 else 2)) * sc)%Z in
  let k0 := ((Z.log2 x - Z.log2 den) * 30103 / 100000)%Z in
  let k := log10_from 8 x den k0 in
  let '(c, p) := shortest_from 17 1 x lo hi den k (Z.even (Z.pos m)) in
  let '(c', p') := strip_zeros 400 c p in
  let ds := Z_to_string c' in
  (ds, (Z.of_nat (String.length ds) + p')%Z).

Definition str_take (n : nat) (s : string) : string := String.substring 0 n s.

(** [repr(x)] for a finite non-zero magnitude. *)
Definition repr_pos (m : positive) (e : Z) : string :=
  let '(ds, decpt) := shortest m e in
  let n := Z.of_nat (String.length ds) in
  if ((-4 <? decpt) && (decpt <=? 16))%Z then
    if (decpt <=? 0)%Z then "0." +:+ zeros (Z.to_nat (- decpt)) +:+ ds
    else if (n <=? decpt)%Z then ds +:+ zeros (Z.to_nat (decpt - n)) +:+ ".0"
    else str_take (Z.to_nat decpt) ds +:+ "." +:+ str_drop (Z.to_nat decpt) ds
  else
    let ex := (decpt - 1)%Z in
    str_take 1 ds +:+ (if (1 <? n)%Z then "." +:+ str_drop 1 ds else "") +:+
    "e" +:+ (if (ex <? 0)%Z then "-" else "+") +:+ zfill 2 (Z_to_string (Z.abs ex)).

(** [repr(x)] *)
Definition repr (x : float) : string :=
  match Prim2SF x with
  | S754_nan => "nan"
  | S754_infinity s => if s then "-inf" else "inf"
  | S754_zero s => if s then "-0.0" else "0.0"
  | S754_finite s m e => (if s then "-" else "") +:+ repr_pos m e
  end.

End PyFloat.

(** ** JSON documents (Python values built from [dict], [list], [str],
    [int], [float], [bool] and [None]) *)

#[local] Set Warnings "-register-all".
Inductive json : Type :=
| JNull
| JBool (b : bool)
| JInt (n : Z)
| JFloat (f : float)
| JStr (s : string)
| JList (l : list json)
| JDict (d : list (string * json)).

(** A [dict] with string keys, in insertion order. *)
Abbreviation dict := (list (string * json)).

Fixpoint dict_lookup (k : string) (d : dict) : option json :=
  match d with
  | [] => None
  | (k', v) :: d' => if String.eqb k k' then Some v else dict_lookup k d'
  end.

(** [k in d] *)
Definition dict_has (k : string) (d : dict) : bool :=
  match dict_lookup k d with Some _ => true | None => false end.

(** [d.get(k)] *)
Definition dict_get (k : string) (d : dict) : json :=
  match dict_lookup k d with Some v => v | None => JNull end.

(** [d.get(k, default)] *)
Definition dict_get_default (k : string) (default : json) (d : dict) : json :=
  match dict_lookup k d with Some v => v | None => default end.

(** [d[k] = v]: an existing key keeps its position, a new key goes last. *)
Fixpoint dict_set (k : string) (v : json) (d : dict) : dict :=
  match d with
  | [] => [(k, v)]
  | (k', v') :: d' =>
      if String.eqb k k' then (k, v) :: d' else (k', v') :: dict_set k v d'
  end.

(** [del d[k]], and [{k': v for k', v in d.items() if k' != k}] *)
Definition dict_remove (k : string) (d : dict) : dict :=
  List.filter (fun kv => negb (String.eqb (fst kv) k)) d.

(** [{**d, k1: v1, ..., kn: vn}] *)
Definition dict_update (d : dict) (kvs : dict) : dict :=
  fold_left (fun acc kv => dict_set (fst kv) (snd kv) acc) kvs d.

(** Truth value of a Python object, as tested by [if x] and [not x]. *)
Definition truthy (v : json) : bool :=
  match v with
  | JNull => false
  | JBool b => b
  | JInt n => negb (Z.eqb n 0)
  | JFloat f => negb (PrimFloat.eqb f 0%float)
  | JStr s => negb (String.eqb s "")
  | JList l => match l with [] => false | _ => true end
  | JDict d => match d with [] => false | _ => true end
  end.

(** [v == s] for a string [s] *)
Definition json_eqb_str (v : json) (s : string) : bool :=
  match v with JStr s' => String.eqb s' s | _ => false end.

Definition is_str (v : json) : bool :=
  match v with JStr _ => true | _ => false end.

Definition is_dict (v : json) : bool :=
  match v with JDict _ => true | _ => false end.

(** [isinstance(v, (int, float))]; [bool] is a subclass of [int]. *)
Definition is_number (v : json) : bool :=
  match v with JInt _ | JFloat _ | JBool _ => true | _ => false end.

(** ** Merkle root over identifiers ([crypto.compute_merkle_root]) *)

Definition zero_root : string :=
  "0x" +:+ "0000000000000000000000000000000000000000000000000000000000000000".

(** One iteration of the loop that turns items into leaf digests:
    [bytes.fromhex(item[2:])] for a [0x] item, else the Keccak digest of
    the UTF-8 bytes. *)
Definition leaf (item : string) : Result (list byte) :=
  if startswith "0x" item then
    match Hex.fromhex (str_drop 2 item) with
    | Some bs => Ok bs
    | None => Raise ValueError
    end
  else Ok (keccak (encode_utf8 item)).

Fixpoint leaves (items : list string) : Result (list (list byte)) :=
  match items with
  | [] => Ok []
  | item :: rest =>
      try! h := leaf item in
      try! hs := leaves rest in
      Ok (h :: hs)
  end.

(** [if len(hashes) % 2 == 1: hashes.append(hashes[-1])] *)
Definition pad_level (hashes : list (list byte)) : list (list byte) :=
  if Nat.odd (length hashes) then hashes ++ [List.last hashes []] else hashes.

(** [for i in range(0, len(hashes), 2): keccak(hashes[i] + hashes[i + 1])];
    the level has even length when this runs ([pad_level_even]). *)
Fixpoint pair_level (hashes : list (list byte)) : list (list byte) :=
  match hashes with
  | a :: b :: rest => keccak (a ++ b) :: pair_level rest
  | _ => []
  end.

(** [while len(hashes) > 1: ...]; [fuel] bounds the number of iterations,
    and [length hashes] iterations are always enough
    ([build_tree_enough_fuel]). *)
Fixpoint build_tree (fuel : nat) (hashes : list (list byte)) : list (list byte) :=
  match fuel with
  | O => hashes
  | S fuel' =>
      if Nat.ltb 1 (length hashes)
      then build_tree fuel' (pair_level (pad_level hashes))
      else hashes
  end.

Definition compute_merkle_root (items : list string) : Result string :=
  match items with
  | [] => Ok zero_root
  | _ =>
      let sorted_items := sorted items in
      try! hashes := leaves sorted_items in
      match build_tree (length hashes) hashes with
      | root :: _ => Ok ("0x" +:+ Hex.hex root)
      | [] => Raise IndexError
      end
  end.

(** ** JSON text ([json.dumps]) *)

Definition dquote : string := String (ascii_of_N 34) EmptyString.
Definition backslash : string := String (ascii_of_N 92) EmptyString.

Definition hex4 (n : N) : string :=
  String (Hex.digit (n / 4096 mod 16))
    (String (Hex.digit (n / 256 mod 16))
      (String (Hex.digit (n / 16 mod 16))
        (String (Hex.digit (n mod 16)) EmptyString))).

(** [\uXXXX], as a surrogate pair above the basic plane. *)
Definition escape_code_point (cp : N) : string :=
  if (cp <? 65536)%N then backslash +:+ "u" +:+ hex4 cp
  else
    let v := (cp - 65536)%N in
    backslash +:+ "u" +:+ hex4 (55296 + v / 1024) +:+
    backslash +:+ "u" +:+ hex4 (56320 + v mod 1024).

Definition escape_ascii (b : N) : string :=
  if (b =? 34)%N then backslash +:+ dquote
  else if (b =? 92)%N then backslash +:+ backslash
  else if (b =? 10)%N then backslash +:+ "n"
  else if (b =? 13)%N then backslash +:+ "r"
  else if (b =? 9)%N then backslash +:+ "t"
  else if (b =? 8)%N then backslash +:+ "b"
  else if (b =? 12)%N then backslash +:+ "f"
  else if ((b <? 32) || (b =? 127))%N then escape_code_point b
  else String (ascii_of_N b) EmptyString.

(** The body of [py_encode_basestring_ascii], over the UTF-8 bytes of the
    string: printable ASCII is kept, everything else is escaped by code
    point. *)
Fixpoint escape_bytes (bs : list N) : string :=
  match bs with
  | [] => EmptyString
  | b :: r =>
      if (b <? 128)%N then escape_ascii b +:+ escape_bytes r
      else
        match r with
        | b1 :: r1 =>
            if (b <? 224)%N then
              escape_code_point ((b mod 32) * 64 + b1 mod 64) +:+ escape_bytes r1
            else
              match r1 with
              | b2 :: r2 =>
                  if (b <? 240)%N then
                    escape_code_point ((b mod 16) * 4096 + (b1 mod 64) * 64 + b2 mod 64)
                    +:+ escape_bytes r2
                  else
                    match r2 with
                    | b3 :: r3 =>
                        escape_code_point
                          ((b mod 8) * 262144 + (b1 mod 64) * 4096
                           + (b2 mod 64) * 64 + b3 mod 64)
                        +:+ escape_bytes r3
                    | [] => escape_code_point b
                    end
              | [] => escape_code_point b
              end
        | [] => escape_code_point b
        end
  end.

Definition encode_basestring_ascii (s : string) : string :=
  dquote +:+ escape_bytes (map Byte.to_N (encode_utf8 s)) +:+ dquote.

(** [float.__repr__] as the JSON encoder uses it. *)
Definition floatstr (f : float) : string :=
  match Prim2SF f with
  | S754_nan => "NaN"
  | S754_infinity s => if s then "-Infinity" else "Infinity"
  | _ => PyFloat.repr f
  end.

(** The order in which [sorted(d.items())] puts the items of a [dict]:
    by key (the keys of a [dict] are distinct). *)
Definition key_le {B : Type} (a b : string * B) : bool :=
  String.leb (fst a) (fst b).

Definition render_item (kv : string * string) : string :=
  encode_basestring_ascii (fst kv) +:+ ":" +:+ snd kv.

(** [json.dumps(v, separators=(",", ":"), sort_keys=True)].  The items of
    a [dict] are rendered and then put in key order, which is the same as
    putting them in key order and then rendering them
    ([dumps_dict_sorted_first]). *)
Fixpoint dumps (v : json) : string :=
  match v with
  | JNull => "null"
  | JBool true => "true"
  | JBool false => "false"
  | JInt n => Z_to_string n
  | JFloat f => floatstr f
  | JStr s => encode_basestring_ascii s
  | JList l => "[" +:+ String.concat "," (map dumps l) +:+ "]"
  | JDict d =>
      "{" +:+
      String.concat ","
        (map render_item
           (py_sorted key_le (map (fun kv => (fst kv, dumps (snd kv))) d)))
      +:+ "}"
  end.

(** [crypto.sort_keys_recursive]; as in [dumps], the values are rebuilt
    first and the items put in key order afterwards. *)
Fixpoint sort_keys_recursive (obj : json) : json :=
  match obj with
  | JDict d =>
      JDict (py_sorted key_le
               (map (fun kv => (fst kv, sort_keys_recursive (snd kv))) d))
  | JList l => JList (map sort_keys_recursive l)
  | _ => obj
  end.

(** [crypto.canonical_json] *)
Definition canonical_json (data : json) : string :=
  dumps (sort_keys_recursive data).

(** ** The signer ([crypto.MerlinSigner]) *)

(** [account_sign h] stands for
    [account.sign_message(encode_defunct(primitive=h)).signature], the
    65-byte EIP-191 signature of the 32-byte digest [h] under the private
    key. *)
Record MerlinSigner : Type := {
  private_key : string;
  address : string;
  account_sign : list byte -> list byte;
}.

(** The digest both [sign_snapshot] and [verify_signature] compute from a
    document: the Keccak digest of the canonical JSON of the document
    without its ["sig"]. *)
Definition snapshot_message (data : dict) : string :=
  canonical_json (JDict (dict_remove "sig" data)).

Definition snapshot_digest (data : dict) : list byte :=
  keccak (encode_utf8 (snapshot_message data)).

(** [MerlinSigner.sign_snapshot]: the signature in hexadecimal. *)
Definition sign_snapshot (signer : MerlinSigner) (data : dict) : string :=
  Hex.hex (account_sign signer (snapshot_digest data)).

(** [MerlinSigner.sign_and_add] *)
Definition sign_and_add (signer : MerlinSigner) (data : dict) : dict :=
  let sig := sign_snapshot signer data in
  dict_update data
    [("sig", JStr (if startswith "0x" sig then sig else "0x" +:+ sig))].

(** [crypto.verify_signature].  Recovering the signer of an EIP-191
    message and checksumming an address are the work of [eth_account]
    and [eth_utils]:
    [recover_message h sig] stands for
    [Account.recover_message(encode_defunct(primitive=h), signature=sig)].
    Any exception gives [False]. *)
Section Verification.

Variable recover_message : list byte -> list byte -> Result string.
Variable to_checksum_address : string -> Result string.

Definition verify_signature (data : dict) (signature : string)
    (expected_address : string) : bool :=
  let message_hash := snapshot_digest data in
  let signature :=
    if startswith "0x" signature then str_drop 2 signature else signature in
  match Hex.fromhex signature with
  | None => false
  | Some sig_bytes =>
      match recover_message message_hash sig_bytes with
      | Raise _ => false
      | Ok recovered =>
          match to_checksum_address recovered, to_checksum_address expected_address with
          | Ok a, Ok b => String.eqb a b
          | _, _ => false
          end
      end
  end.

End Verification.

(** ** The object store, as the daemon sees it ([publisher.IPFSPublisher])

    The store is an external collaborator reached over HTTP.  The daemon's
    side of every exchange is a [Request]; the store's side is an answer
    chosen by the store: an exception of the HTTP client ([None]) or a
    [Response].  The store itself is any state machine [http]. *)

Inductive Request : Type :=
| Add (filename : string) (body : string)
| FilesRm (path : string)
| FilesCp (params : list (string * string))
| PinAdd (cid : json)
| FilesLs (path : string)
| FilesRead (path : string)
| Cat (cid : json)
| PubsubPub (topic : string) (data : dict).

(** [resp_json] is the body parsed as JSON, [None] when it does not
    parse. *)
Record Response : Type := {
  resp_status : Z;
  resp_json : option json;
}.

Fixpoint assoc_lookup {B : Type} (k : string) (l : list (string * B)) : option B :=
  match l with
  | [] => None
  | (k', v) :: l' => if String.eqb k k' then Some v else assoc_lookup k l'
  end.

(** [str(v)] inside an f-string; exact for strings. *)
Definition py_format (v : json) : string :=
  match v with
  | JStr s => s
  | _ => dumps v
  end.

(** A [dict] display [{k1: v1, ..., kn: vn}] with string values: a key
    written twice keeps its last value. *)
Fixpoint dict_display (kvs : list (string * string)) : list (string * string) :=
  match kvs with
  | [] => []
  | (k, v) :: rest =>
      let d := dict_display rest in
      if existsb (fun kv => String.eqb (fst kv) k) d then d else (k, v) :: d
  end.

(** [s.replace(pat, "")] *)
Fixpoint str_remove_all (fuel : nat) (pat s : string) : string :=
  match fuel with
  | O => s
  | S fuel' =>
      match s with
      | EmptyString => EmptyString
      | String c s' =>
          if startswith pat s
          then str_remove_all fuel' pat (str_drop (String.length pat) s)
          else String c (str_remove_all fuel' pat s')
      end
  end.

Section Store.

Context {store : Type}.
Variable http : Request -> store -> option Response * store.

(** The world: the state of the store and the requests sent so far. *)
Definition World : Type := store * list Request.

Definition post (r : Request) (w : World) : option Response * World :=
  let '(resp, s') := http r (fst w) in
  (resp, (s', snd w ++ [r])).

(** What [publish_snapshot] reads in the answer to [add]: the value
    under ["Hash"] of the JSON object of a response with status 200.
    [None] covers every other answer: none at all, another status, a
    body that is not JSON or not an object, an object without ["Hash"]. *)
Definition added_cid (answer : option Response) : option json :=
  match answer with
  | None => None
  | Some resp =>
      if negb (resp_status resp =? 200)%Z then None
      else match resp_json resp with
           | Some (JDict result) => dict_lookup "Hash" result
           | _ => None
           end
  end.

(** [IPFSPublisher.publish_snapshot] *)
Definition publish_snapshot (data : dict) (directory : string) (snapshot_id : json)
    (w : World) : Result json * World :=
  (* 1. serialize *)
  let json_str := dumps (JDict data) in
  (* 2. add *)
  let '(r_add, w1) := post (Add (py_format snapshot_id +:+ ".json") json_str) w in
  match r_add with
  | None => (Raise IOError, w1)
  | Some resp =>
      if negb (resp_status resp =? 200)%Z then (Raise PyException, w1)
      else
        match resp_json resp with
        | None => (Raise ValueError, w1)
        | Some (JDict result) =>
            match dict_lookup "Hash" result with
            | None => (Raise KeyError, w1)
            | Some cid =>
                (* 3. copy to the canonical path *)
                let canonical_path :=
                  directory +:+ "/" +:+ py_format snapshot_id +:+ ".json" in
                let '(_, w2) := post (FilesRm canonical_path) w1 in
                let '(r_cp, w3) :=
                  post (FilesCp (dict_display
                          [("arg", "/ipfs/" +:+ py_format cid);
                           ("arg", canonical_path)])) w2 in
                match r_cp with
                | None => (Raise IOError, w3)
                | Some _ =>
                    (* 4. pin *)
                    let '(_, w4) := post (PinAdd cid) w3 in
                    (Ok cid, w4)
                end
            end
        | Some _ => (Raise TypeError, w1)
        end
  end.

(** [IPFSPublisher.publish_epoch] *)
Definition publish_epoch (epoch_data : dict) (w : World) : Result json * World :=
  let epoch_id := dict_get_default "epoch_id" (JStr "unknown") epoch_data in
  publish_snapshot epoch_data "/swarmledger/epochs" epoch_id w.

(** The names of a directory listing: [None] when the comprehension
    raises. *)
Fixpoint listing_names (entries : list json) : option (list string) :=
  match entries with
  | [] => Some []
  | JDict e :: rest =>
      match dict_lookup "Name" e with
      | Some (JStr name) =>
          match listing_names rest with
          | Some names =>
              Some (if endswith ".json" name
                    then str_remove_all (String.length name) ".json" name :: names
                    else names)
          | None => None
          end
      | _ => None
      end
  | _ => None
  end.

(** [IPFSPublisher.list_directory]; every exception gives the empty
    list. *)
Definition list_directory (path : string) (w : World) : list string * World :=
  let '(r, w1) := post (FilesLs path) w in
  match r with
  | Some resp =>
      if negb (resp_status resp =? 200)%Z then ([], w1)
      else
        match resp_json resp with
        | Some (JDict result) =>
            let entries := dict_get_default "Entries" (JList []) result in
            if truthy entries then
              match entries with
              | JList es =>
                  match listing_names es with
                  | Some names => (names, w1)
                  | None => ([], w1)
                  end
              | _ => ([], w1)
              end
            else ([], w1)
        | _ => ([], w1)
        end
  | None => ([], w1)
  end.

(** The common body of [fetch_file] and [fetch_by_cid]; [JNull] is
    Python's [None]. *)
Definition fetch (r : Request) (w : World) : json * World :=
  let '(resp, w1) := post r w in
  match resp with
  | Some resp =>
      if negb (resp_status resp =? 200)%Z then (JNull, w1)
      else
        match resp_json resp with
        | Some v => (v, w1)
        | None => (JNull, w1)
        end
  | None => (JNull, w1)
  end.

Definition fetch_file (path : string) : World -> json * World :=
  fetch (FilesRead path).

Definition fetch_by_cid (cid : json) : World -> json * World :=
  fetch (Cat cid).

(** [IPFSPublisher.pubsub_publish]: best effort. *)
Definition pubsub_publish (topic : string) (data : dict) (w : World) : World :=
  snd (post (PubsubPub topic data) w).

Definition list_proofs : World -> list string * World :=
  list_directory "/swarmpool/proofs".

Definition fetch_proof (proof_id : string) : World -> json * World :=
  fetch_file ("/swarmpool/proofs/" +:+ proof_id +:+ ".json").

Definition fetch_job (job_cid : json) : World -> json * World :=
  fetch_by_cid job_cid.

End Store.

(** ** Schema validation ([schemas.validate_proof]) *)

Definition is_alnum (c : ascii) : bool :=
  let n := N_of_ascii c in
  (((48 <=? n) && (n <=? 57)) || ((65 <=? n) && (n <=? 90))
   || ((97 <=? n) && (n <=? 122)))%N.

Definition alnum_at (n : nat) (s : string) : bool :=
  match String.get n s with
  | Some c => is_alnum c
  | None => false
  end.

(** [re.compile(r'^(bafy|Qm)[a-zA-Z0-9]+').match(value)] on a [str]. *)
Definition cid_pattern_match (value : string) : bool :=
  (startswith "bafy" value && alnum_at 4 value)
  || (startswith "Qm" value && alnum_at 2 value).

(** [conf < 0 or conf > 1] for a number. *)
Definition out_of_unit_interval (conf : json) : bool :=
  match conf with
  | JInt n => ((n <? 0) || (1 <? n))%Z
  | JFloat f => (PrimFloat.ltb f 0 || PrimFloat.ltb 1 f)%float
  | _ => false
  end.

Definition required_strings : list string :=
  ["proof_id"; "job_cid"; "output_cid"; "provider"; "proof_hash"; "sig"].

(** The loop over [required_strings]. *)
Definition required_string_errors (proof : dict) : list string :=
  flat_map (fun field =>
    if negb (truthy (dict_get field proof))
    then ["missing required field: " +:+ field]
    else if negb (is_str (dict_get field proof))
    then [field +:+ " must be a string"]
    else []) required_strings.

Definition metrics_errors (proof : dict) : list string :=
  match dict_get "metrics" proof with
  | JDict metrics =>
      (if negb (is_number (dict_get "inference_seconds" metrics))
       then ["metrics.inference_seconds must be a number"] else [])
      ++
      (if negb (is_number (dict_get "confidence" metrics))
       then ["metrics.confidence must be a number"]
       else if out_of_unit_interval (dict_get "confidence" metrics)
       then ["metrics.confidence must be between 0 and 1"] else [])
  | _ => ["metrics must be an object"]
  end.

(** One round of the loop over [job_cid] and [output_cid]: matching a
    pattern against a value that is not a [str] raises. *)
Definition cid_errors (field : string) (proof : dict) : Result (list string) :=
  let value := dict_get_default field (JStr "") proof in
  if truthy value then
    match value with
    | JStr v =>
        Ok (if cid_pattern_match v then []
            else [field +:+ " does not look like a valid CID"])
    | _ => Raise TypeError
    end
  else Ok [].

(** [value and not value.startswith(prefix)], resp. [endswith]: calling
    the method on a value that is not a [str] raises. *)
Definition affix_errors (test : string -> bool) (value : json) (msg : string)
    : Result (list string) :=
  if truthy value then
    match value with
    | JStr v => Ok (if test v then [] else [msg])
    | _ => Raise AttributeError
    end
  else Ok [].

Definition validate_proof (proof : dict) : Result bool :=
  let e_type :=
    if negb (json_eqb_str (dict_get "type" proof) "proof")
    then ["type must be 'proof'"] else [] in
  let e_required := required_string_errors proof in
  let e_timestamp :=
    if negb (is_number (dict_get "timestamp" proof))
    then ["timestamp must be a number"] else [] in
  let e_metrics := metrics_errors proof in
  try! e_job_cid := cid_errors "job_cid" proof in
  try! e_output_cid := cid_errors "output_cid" proof in
  try! e_hash := affix_errors (startswith "0x") (dict_get "proof_hash" proof)
                   "proof_hash must be 0x-prefixed" in
  try! e_sig := affix_errors (startswith "0x") (dict_get "sig" proof)
                  "sig must be 0x-prefixed" in
  try! e_provider := affix_errors (endswith ".eth")
                       (dict_get_default "provider" (JStr "") proof)
                       "provider must be an ENS name (ending in .eth)" in
  let errors := e_type ++ e_required ++ e_timestamp ++ e_metrics ++ e_job_cid
                ++ e_output_cid ++ e_hash ++ e_sig ++ e_provider in
  Ok (match errors with [] => true | _ => false end).

(** ** Configuration ([config.MerlinConfig], [config.get_epoch_name]) *)

Record MerlinConfig : Type := {
  identity : string;
  pool : string;
  epoch_duration_seconds : Z;
  provider_share : float;
  network_ops_share : float;
}.

(** The defaults of the dataclass. *)
Definition default_config : MerlinConfig := {|
  identity := "merlin.swarmos.eth";
  pool := "swarmpool.eth";
  epoch_duration_seconds := 3600;
  provider_share := 0.75%float;
  network_ops_share := 0.25%float;
|}.

(** [int(s)] for a decimal [str]; [None] stands for [ValueError]. *)
Definition py_int_of_str (s : string) : option Z :=
  let parse r :=
    match PyFloat.digit_run r 0 0 with
    | (v, n, []) => if (0 <? n)%Z then Some v else None
    | _ => None
    end in
  match PyFloat.strip (list_ascii_of_string s) with
  | "-"%char :: r => option_map Z.opp (parse r)
  | "+"%char :: r => parse r
  | r => parse r
  end.

(** [os.environ.get(name, default)] *)
Definition environ_get (name default : string) (environ : list (string * string)) : string :=
  match assoc_lookup name environ with
  | Some v => v
  | None => default
  end.

(** [config.load_config], for the fields the epoch manager reads. *)
Definition load_config (environ : list (string * string)) : Result MerlinConfig :=
  if String.eqb (environ_get "MERLIN_PRIVATE_KEY" "" environ) ""
  then Raise ValueError
  else
    match py_int_of_str (environ_get "EPOCH_DURATION_SECONDS" "3600" environ),
          py_int_of_str (environ_get "POLL_INTERVAL_SECONDS" "10" environ),
          PyFloat.of_str (environ_get "PROVIDER_SHARE" "0.75" environ),
          PyFloat.of_str (environ_get "NETWORK_OPS_SHARE" "0.25" environ) with
    | Some duration, Some _, Some provider, Some network =>
        Ok {| identity := environ_get "MERLIN_IDENTITY" "merlin.swarmos.eth" environ;
              pool := environ_get "SWARM_POOL" "swarmpool.eth" environ;
              epoch_duration_seconds := duration;
              provider_share := provider;
              network_ops_share := network |}
    | _, _, _, _ => Raise ValueError
    end.

Definition NATO_ALPHABET : list string :=
  [ "Alpha"; "Bravo"; "Charlie"; "Delta"; "Echo"; "Foxtrot";
    "Golf"; "Hotel"; "India"; "Juliet"; "Kilo"; "Lima";
    "Mike"; "November"; "Oscar"; "Papa"; "Quebec"; "Romeo";
    "Sierra"; "Tango"; "Uniform"; "Victor"; "Whiskey"; "X-ray";
    "Yankee"; "Zulu" ].

(** [NATO_ALPHABET[epoch_number % len(NATO_ALPHABET)]]; the index is in
    range, so the default is never used. *)
Definition get_epoch_name (epoch_number : Z) : string :=
  nth (Z.to_nat (epoch_number mod Z.of_nat (length NATO_ALPHABET)))
      NATO_ALPHABET "".

(** ** The epoch manager ([epoch.EpochManager]) *)

(** An entry of [current_proofs]:
    [{"proof": proof, "job": job, "processed_at": ...}]; [JNull] is
    [None]. *)
Record Item : Type := {
  item_proof : dict;
  item_job : json;
  processed_at : Z;
}.

Record Settlements : Type := {
  total_volume : float;
  provider_pool : float;
  network_ops : float;
  providers : list (string * float);
  provider_count : Z;
}.

Definition settlements_json (s : Settlements) : json :=
  JDict [ ("total_volume", JFloat (total_volume s));
          ("provider_pool", JFloat (provider_pool s));
          ("network_ops", JFloat (network_ops s));
          ("providers", JDict (map (fun kv => (fst kv, JFloat (snd kv))) (providers s)));
          ("provider_count", JInt (provider_count s)) ].

(** [0.10] *)
Definition default_reward : float := 0x1.999999999999ap-4%float.

(** [float(amount)]; [ValueError] and [TypeError] are the two exceptions
    the caller handles. *)
Definition py_float (amount : json) : Result float :=
  match amount with
  | JStr s =>
      match PyFloat.of_str s with
      | Some f => Ok f
      | None => Raise ValueError
      end
  | JFloat f => Ok f
  | JInt n => PyFloat.of_int n
  | JBool b => Ok (if b then 1%float else 0%float)
  | JNull | JList _ | JDict _ => Raise TypeError
  end.

(** The reward of an item:
    [[
      reward = 0.10
      if job and "payment" in job:
          try:
              reward = float(job["payment"].get("amount", "0.10"))
          except (ValueError, TypeError):
              reward = 0.10
    ]] *)
Definition reward_of (job : json) : Result float :=
  if negb (truthy job) then Ok default_reward
  else
    match job with
    | JDict d =>
        match dict_lookup "payment" d with
        | None => Ok default_reward
        | Some (JDict payment) =>
            match py_float (dict_get_default "amount" (JStr "0.10") payment) with
            | Ok f => Ok f
            | Raise ValueError | Raise TypeError => Ok default_reward
            | Raise e => Raise e
            end
        | Some _ => Raise AttributeError    (* no [get] on the payment *)
        end
    | JStr _ | JList _ => Ok default_reward  (* [job["payment"]] is a TypeError *)
    | _ => Raise TypeError                   (* ["payment" in job] on a number *)
    end.

(** The key under which an item is credited:
    [proof.get("provider", "unknown")].  [validate_proof] admits only
    proofs whose provider is a [str]; a list or a dict is not hashable
    ([TypeError]), and other keys are not modelled (reported as
    [TypeError] as well). *)
Definition provider_of (proof : dict) : Result string :=
  match dict_get_default "provider" (JStr "unknown") proof with
  | JStr s => Ok s
  | _ => Raise TypeError
  end.

(** [provider_earnings[provider] += amount] on a [defaultdict(float)]. *)
Fixpoint earnings_add (provider : string) (amount : float)
    (earnings : list (string * float)) : list (string * float) :=
  match earnings with
  | [] => [(provider, (0 + amount)%float)]
  | (p, v) :: rest =>
      if String.eqb provider p then (p, (v + amount)%float) :: rest
      else (p, v) :: earnings_add provider amount rest
  end.

(** The loop of [_compute_settlements] over [current_proofs]. *)
Fixpoint settle_loop (share : float) (items : list Item)
    (total : float) (earnings : list (string * float))
    : Result (float * list (string * float)) :=
  match items with
  | [] => Ok (total, earnings)
  | item :: rest =>
      try! reward := reward_of (item_job item) in
      let total' := (total + reward)%float in
      try! provider := provider_of (item_proof item) in
      let provider_share := (reward * share)%float in
      settle_loop share rest total' (earnings_add provider provider_share earnings)
  end.

(** [EpochManager._compute_settlements] *)
Definition _compute_settlements (config : MerlinConfig) (current_proofs : list Item)
    : Result Settlements :=
  try! r := settle_loop (provider_share config) current_proofs 0%float [] in
  let '(total, earnings) := r in
  Ok {| total_volume := total;
        provider_pool := (total * provider_share config)%float;
        network_ops := (total * network_ops_share config)%float;
        providers := earnings;
        provider_count := Z.of_nat (length earnings) |}.

Record EpochManager : Type := {
  config : MerlinConfig;
  signer : MerlinSigner;
  current_epoch : option dict;
  current_epoch_id : option string;
  epoch_started_at : option Z;
  current_proofs : list Item;
  processed_proof_ids : gset string;
  epoch_number : Z;
}.

(** [EpochManager.__init__] *)
Definition new_manager (config : MerlinConfig) (signer : MerlinSigner) : EpochManager := {|
  config := config;
  signer := signer;
  current_epoch := None;
  current_epoch_id := None;
  epoch_started_at := None;
  current_proofs := [];
  processed_proof_ids := ∅;
  epoch_number := 0;
|}.

(** Time is counted in microseconds since the Unix epoch;
    [int(now.timestamp())] is the number of whole seconds. *)
Definition timestamp_of (now : Z) : Z := Z.quot now 1000000.

(** The document [open_new_epoch] builds before signing. *)
Definition active_epoch (config : MerlinConfig) (epoch_number : Z) (timestamp : Z) : dict :=
  [ ("type", JStr "epoch");
    ("version", JStr "1.0.0");
    ("epoch_id", JStr ("epoch-" +:+ format_04d epoch_number));
    ("epoch_number", JInt epoch_number);
    ("name", JStr (get_epoch_name epoch_number));
    ("status", JStr "active");
    ("started_at", JInt timestamp);
    ("ended_at", JNull);
    ("jobs_count", JInt 0);
    ("proofs_count", JInt 0);
    ("total_volume_usdc", JStr "0.00");
    ("merkle_root", JNull);
    ("settlements", JNull);
    ("proofs", JList []);
    ("controller", JStr (identity config));
    ("timestamp", JInt timestamp) ].

(** [isinstance]-free reading of the identifier a proof carries:
    [proof.get("proof_id", default)]. *)
Definition proof_id_of (default : string) (proof : dict) : json :=
  dict_get_default "proof_id" (JStr default) proof.

(** The items handed to [compute_merkle_root].  [process_proof] admits
    only proofs whose [proof_id] is a [str]; on any other list
    [compute_merkle_root] raises ([sorted] or [startswith] fails), which
    is reported here as [TypeError]. *)
Fixpoint merkle_items (proof_cids : list json) : Result (list string) :=
  match proof_cids with
  | [] => Ok []
  | JStr s :: rest => try! ss := merkle_items rest in Ok (s :: ss)
  | _ :: _ => Raise TypeError
  end.

(** The document [seal_current_epoch] builds before signing. *)
Definition sealed_epoch_doc (epoch : dict) (timestamp : Z) (n_proofs : Z)
    (s : Settlements) (merkle_root : string) (proof_cids : list json) : dict :=
  dict_remove "sig"
    (dict_update epoch
       [ ("status", JStr "sealed");
         ("ended_at", JInt timestamp);
         ("jobs_count", JInt n_proofs);
         ("proofs_count", JInt n_proofs);
         ("total_volume_usdc", JStr (PyFloat.format_2f (total_volume s)));
         ("merkle_root", JStr merkle_root);
         ("settlements", settlements_json s);
         ("proofs", JList proof_cids);
         ("timestamp", JInt timestamp) ]).

Section Manager.

Context {store : Type}.
Variable http : Request -> store -> option Response * store.

(** [EpochManager.open_new_epoch]: the result, the manager afterwards and
    the world afterwards. *)
Definition open_new_epoch (now : Z) (m : EpochManager) (w : World)
    : Result string * EpochManager * World :=
  let n := (epoch_number m + 1)%Z in
  let m1 := {| config := config m; signer := signer m;
               current_epoch := current_epoch m;
               current_epoch_id := current_epoch_id m;
               epoch_started_at := epoch_started_at m;
               current_proofs := current_proofs m;
               processed_proof_ids := processed_proof_ids m;
               epoch_number := n |} in
  let epoch_name := get_epoch_name n in
  let epoch_id := "epoch-" +:+ format_04d n in
  let timestamp := timestamp_of now in
  let epoch := active_epoch (config m) n timestamp in
  let signed_epoch := sign_and_add (signer m) epoch in
  let '(r, w1) := publish_epoch http signed_epoch w in
  match r with
  | Raise e => (Raise e, m1, w1)
  | Ok cid =>
      let m2 := {| config := config m; signer := signer m;
                   current_epoch := Some signed_epoch;
                   current_epoch_id := Some epoch_id;
                   epoch_started_at := Some now;
                   current_proofs := [];
                   processed_proof_ids := ∅;
                   epoch_number := n |} in
      let w2 := pubsub_publish http
                  ("/" +:+ pool (config m) +:+ "/epochs/opened")
                  [ ("epoch_id", JStr epoch_id);
                    ("name", JStr epoch_name);
                    ("started_at", JInt timestamp);
                    ("cid", cid) ] w1 in
      (Ok epoch_id, m2, w2)
  end.

(** [EpochManager.ensure_active_epoch] *)
Definition ensure_active_epoch (now : Z) (m : EpochManager) (w : World)
    : Result unit * EpochManager * World :=
  match current_epoch m with
  | None =>
      let '(r, m', w') := open_new_epoch now m w in
      (try! _x := r in Ok tt, m', w')
  | Some _ => (Ok tt, m, w)
  end.

(** [EpochManager.should_seal]: the elapsed time against the configured
    duration (exact for durations below [2^32] seconds, where the float
    [total_seconds()] cannot round across a whole second). *)
Definition should_seal (now : Z) (m : EpochManager) : bool :=
  match epoch_started_at m with
  | None => false
  | Some started => (epoch_duration_seconds (config m) * 1000000 <=? now - started)%Z
  end.

(** [EpochManager.process_proof], for the document [proof] the watcher
    delivered. *)
Definition process_proof (now : Z) (proof : json) (m : EpochManager) (w : World)
    : Result bool * EpochManager * World :=
  match proof with
  | JDict p =>
      let proof_id := proof_id_of "unknown" p in
      (* skip if already processed *)
      match proof_id with
      | JList _ | JDict _ => (Raise TypeError, m, w)   (* unhashable *)
      | _ =>
          let known :=
            match proof_id with
            | JStr s => bool_decide (s ∈ processed_proof_ids m)
            | _ => false
            end in
          if known then (Ok false, m, w)
          else
            match validate_proof p with
            | Raise e => (Raise e, m, w)
            | Ok false => (Ok false, m, w)
            | Ok true =>
                if negb (truthy (dict_get "sig" p)) then (Ok false, m, w)
                else
                  let job_cid := dict_get "job_cid" p in
                  let '(job, w1) :=
                    if truthy job_cid then fetch_job http job_cid w
                    else (JNull, w) in
                  let item := {| item_proof := p; item_job := job;
                                 processed_at := timestamp_of now |} in
                  let ids :=
                    match proof_id with
                    | JStr s => {[ s ]} ∪ processed_proof_ids m
                    | _ => processed_proof_ids m
                    end in
                  (Ok true,
                   {| config := config m; signer := signer m;
                      current_epoch := current_epoch m;
                      current_epoch_id := current_epoch_id m;
                      epoch_started_at := epoch_started_at m;
                      current_proofs := current_proofs m ++ [item];
                      processed_proof_ids := ids;
                      epoch_number := epoch_number m |},
                   w1)
            end
      end
  | _ => (Raise AttributeError, m, w)                   (* no [get] *)
  end.

(** What [seal_current_epoch] computes before it signs: the settlements,
    the Merkle root and the sealed document without its signature. *)
Definition seal_document (now : Z) (m : EpochManager) (epoch : dict)
    : Result (Settlements * string * dict) :=
  let timestamp := timestamp_of now in
  try! settlements := _compute_settlements (config m) (current_proofs m) in
  let proof_cids := map (fun p => proof_id_of "" (item_proof p)) (current_proofs m) in
  try! merkle_root :=
    match proof_cids with
    | [] => Ok zero_root
    | _ => try! items := merkle_items proof_cids in compute_merkle_root items
    end in
  Ok (settlements, merkle_root,
      sealed_epoch_doc epoch timestamp (Z.of_nat (length (current_proofs m)))
        settlements merkle_root proof_cids).

(** [EpochManager.seal_current_epoch]: [Ok None] when there is no current
    epoch, else the CID of the published seal.  The manager itself is
    not modified. *)
Definition seal_current_epoch (now : Z) (m : EpochManager) (w : World)
    : Result (option json) * World :=
  match current_epoch m with
  | None | Some [] => (Ok None, w)
  | Some epoch =>
      match seal_document now m epoch with
      | Raise e => (Raise e, w)
      | Ok (settlements, merkle_root, doc) =>
          let sealed_epoch := sign_and_add (signer m) doc in
          let '(r, w1) := publish_epoch http sealed_epoch w in
          match r with
          | Raise e => (Raise e, w1)
          | Ok cid =>
              let w2 := pubsub_publish http
                          ("/" +:+ pool (config m) +:+ "/epochs/sealed")
                          [ ("epoch_id",
                             match current_epoch_id m with
                             | Some i => JStr i
                             | None => JNull
                             end);
                            ("jobs_count", JInt (Z.of_nat (length (current_proofs m))));
                            ("total_volume", JFloat (total_volume settlements));
                            ("merkle_root", JStr merkle_root);
                            ("cid", cid) ] w1 in
              (Ok (Some cid), w2)
          end
      end
  end.

End Manager.

(** ** The proof watcher ([watcher.ProofWatcher]) *)

Record ProofWatcher : Type := {
  seen_proofs : gset string;
  total_seen : Z;
  last_poll : Z;
}.

(** [ProofWatcher.__init__] *)
Definition new_watcher (now : Z) : ProofWatcher := {|
  seen_proofs := ∅;
  total_seen := 0;
  last_poll := now;
|}.

Section Watcher.

Context {store : Type}.
Variable http : Request -> store -> option Response * store.

(** The loop of [poll] over the listed identifiers; every new proof is
    kept with the identifier under which it was fetched. *)
Fixpoint poll_loop (proof_ids : list string) (seen : gset string)
    (new_proofs : list (string * json)) (w : @World store)
    : list (string * json) * gset string * @World store :=
  match proof_ids with
  | [] => (new_proofs, seen, w)
  | proof_id :: rest =>
      if bool_decide (proof_id ∈ seen) then poll_loop rest seen new_proofs w
      else
        let '(proof, w1) := fetch_proof http proof_id w in
        if truthy proof
        then poll_loop rest ({[ proof_id ]} ∪ seen)
               (new_proofs ++ [(proof_id, proof)]) w1
        else poll_loop rest seen new_proofs w1
  end.

(** A fetch succeeded when [if proof:] holds for what it returned. *)
Definition succeeded (a : string * json) : bool := truthy (snd a).

(** Every fetch the loop of [poll] performs, with what it returned (a
    record kept for the statements about the loop; the code keeps
    none). *)
Fixpoint poll_fetches (proof_ids : list string) (seen : gset string)
    (w : @World store) : list (string * json) :=
  match proof_ids with
  | [] => []
  | proof_id :: rest =>
      if bool_decide (proof_id ∈ seen) then poll_fetches rest seen w
      else
        let '(proof, w1) := fetch_proof http proof_id w in
        (proof_id, proof) ::
        (if truthy proof
         then poll_fetches rest ({[ proof_id ]} ∪ seen) w1
         else poll_fetches rest seen w1)
  end.

(** [ProofWatcher.poll], with the identifiers of the proofs it returns:
    the list Python returns is [map snd] of the first component. *)
Definition poll_with_ids (now : Z) (pw : ProofWatcher) (w : @World store)
    : list (string * json) * ProofWatcher * @World store :=
  let '(proof_ids, w1) := list_proofs http w in
  let '(new_proofs, seen, w2) := poll_loop proof_ids (seen_proofs pw) [] w1 in
  (new_proofs,
   {| seen_proofs := seen;
      total_seen := total_seen pw + Z.of_nat (length new_proofs);
      last_poll := now |},
   w2).

Definition poll (now : Z) (pw : ProofWatcher) (w : @World store)
    : list json * ProofWatcher * @World store :=
  let '(new_proofs, pw', w') := poll_with_ids now pw w in
  (map snd new_proofs, pw', w').

(** A run of the watcher: polls at the given times; before each poll the
    rest of the world (workers, the store, the epoch manager) may have
    changed the world in any way. *)
Fixpoint polls (steps : list (Z * (@World store -> @World store)))
    (pw : ProofWatcher) (w : @World store)
    : list (string * json) * ProofWatcher * @World store :=
  match steps with
  | [] => ([], pw, w)
  | (now, env) :: rest =>
      let '(d1, pw1, w1) := poll_with_ids now pw (env w) in
      let '(d2, pw2, w2) := polls rest pw1 w1 in
      (d1 ++ d2, pw2, w2)
  end.

(** The fetches of a run. *)
Fixpoint polls_fetches (steps : list (Z * (@World store -> @World store)))
    (pw : ProofWatcher) (w : @World store) : list (string * json) :=
  match steps with
  | [] => []
  | (now, env) :: rest =>
      let '(proof_ids, w0) := list_proofs http (env w) in
      let '(_, pw1, w1) := poll_with_ids now pw (env w) in
      poll_fetches proof_ids (seen_proofs pw) w0 ++ polls_fetches rest pw1 w1
  end.

End Watcher.

(** ** Runs of the epoch manager

    A run is any sequence of calls of the manager's methods, as the
    daemon's loop ([Merlin.start], [Merlin._run_loop], [Merlin.stop])
    issues them. *)

Inductive Call : Type :=
| CallEnsureActive (now : Z)
| CallOpen (now : Z)
| CallProcess (now : Z) (proof : json)
| CallSeal (now : Z).

(** What a call of [open_new_epoch] leaves behind: its result and the
    epoch counter after it. *)
Abbreviation Opened := (Result string * Z)%type.

Section Runs.

Context {store : Type}.
Variable http : Request -> store -> option Response * store.

(** One call: the openings it performed, and the state after it. *)
Definition call (c : Call) (m : EpochManager) (w : @World store)
    : list Opened * EpochManager * @World store :=
  match c with
  | CallOpen now =>
      let '(r, m', w') := open_new_epoch http now m w in
      ([(r, epoch_number m')], m', w')
  | CallEnsureActive now =>
      match current_epoch m with
      | None =>
          let '(r, m', w') := open_new_epoch http now m w in
          ([(r, epoch_number m')], m', w')
      | Some _ => ([], m, w)
      end
  | CallProcess now proof =>
      let '(_, m', w') := process_proof http now proof m w in
      ([], m', w')
  | CallSeal now =>
      let '(_, w') := seal_current_epoch http now m w in
      ([], m, w')
  end.

Fixpoint run (calls : list Call) (m : EpochManager) (w : @World store)
    : list Opened * EpochManager * @World store :=
  match calls with
  | [] => ([], m, w)
  | c :: rest =>
      let '(o1, m1, w1) := call c m w in
      let '(o2, m2, w2) := run rest m1 w1 in
      (o1 ++ o2, m2, w2)
  end.

End Runs.

(** ** The supervisor loop ([Merlin._run_loop])

    One iteration, without the heartbeat: poll, feed every new proof to
    the epoch manager, and seal and reopen when the epoch is due.  An
    exception ends the iteration (the loop logs it and backs off). *)

Section Supervisor.

Context {store : Type}.
Variable http : Request -> store -> option Response * store.

(** [for proof in new_proofs: await self.epoch_manager.process_proof(proof)] *)
Fixpoint process_all (now : Z) (new_proofs : list json) (m : EpochManager)
    (w : @World store) : Result unit * EpochManager * @World store :=
  match new_proofs with
  | [] => (Ok tt, m, w)
  | proof :: rest =>
      let '(r, m1, w1) := process_proof http now proof m w in
      match r with
      | Raise e => (Raise e, m1, w1)
      | Ok _ => process_all now rest m1 w1
      end
  end.

Definition tick (now : Z) (pw : ProofWatcher) (m : EpochManager) (w : @World store)
    : Result unit * ProofWatcher * EpochManager * @World store :=
  let '(new_proofs, pw1, w1) := poll http now pw w in
  let '(r, m1, w2) := process_all now new_proofs m w1 in
  match r with
  | Raise e => (Raise e, pw1, m1, w2)
  | Ok _ =>
      if should_seal now m1 then
        let '(r_seal, w3) := seal_current_epoch http now m1 w2 in
        match r_seal with
        | Raise e => (Raise e, pw1, m1, w3)
        | Ok _ =>
            let '(r_open, m2, w4) := open_new_epoch http now m1 w3 in
            (try! _x := r_open in Ok tt, pw1, m2, w4)
        end
      else (Ok tt, pw1, m1, w2)
  end.

(** The calls of [process_proof] the loop makes on what a poll returned:
    each proof with the identifier under which it was fetched and the
    outcome of the call (a record kept for the statements about the
    loop; the code keeps none).  The [for] loop ends at the first call
    that raises. *)
Fixpoint handed (now : Z) (new_proofs : list (string * json)) (m : EpochManager)
    (w : @World store) : list (string * json * Result bool) :=
  match new_proofs with
  | [] => []
  | (proof_id, proof) :: rest =>
      let '(r, m1, w1) := process_proof http now proof m w in
      (proof_id, proof, r) ::
      match r with
      | Raise _ => []
      | Ok _ => handed now rest m1 w1
      end
  end.

(** A run of the loop: iterations at the given times; between two
    iterations (the heartbeat, the sleep, the back-off after an
    exception) the rest of the world may have changed the world in any
    way.  With the state after the run come the proofs the polls
    returned and the calls of [process_proof] made on them. *)
Fixpoint ticks (steps : list (Z * (@World store -> @World store)))
    (pw : ProofWatcher) (m : EpochManager) (w : @World store)
    : list (string * json) * list (string * json * Result bool)
      * ProofWatcher * EpochManager * @World store :=
  match steps with
  | [] => ([], [], pw, m, w)
  | (now, env) :: rest =>
      let '(new_proofs, _, w1) := poll_with_ids http now pw (env w) in
      let '(_, pw1, m1, w2) := tick now pw m (env w) in
      let '(polled, calls, pw2, m2, w3) := ticks rest pw1 m1 w2 in
      (new_proofs ++ polled, handed now new_proofs m w1 ++ calls, pw2, m2, w3)
  end.

End Supervisor.

(** ** A store to run examples against

    An in-memory stand-in for the IPFS daemon: it answers [add] with a
    CID derived from the content, serves the proofs directory and the
    jobs it was given, and, like the IPFS API, refuses a [files/cp] that
    does not carry both a source and a destination. *)

Record ExampleStore : Type := {
  proof_files : list (string * json);   (* file name in /swarmpool/proofs *)
  job_blocks : list (string * json);    (* CID of a job, its content *)
  added : list (string * string);       (* CID, content added *)
  copied : list (string * string);      (* source, destination *)
}.

Definition ok_response (v : json) : option Response :=
  Some {| resp_status := 200; resp_json := Some v |}.

Definition error_response : option Response :=
  Some {| resp_status := 500; resp_json := Some (JDict [("Message", JStr "error")]) |}.

Definition example_cid (content : string) : string :=
  "bafy" +:+ Hex.hex (firstn 16 (keccak (encode_utf8 content))).

Definition example_http (r : Request) (s : ExampleStore) : option Response * ExampleStore :=
  match r with
  | Add filename body =>
      let cid := example_cid body in
      (ok_response (JDict [("Name", JStr filename); ("Hash", JStr cid)]),
       {| proof_files := proof_files s; job_blocks := job_blocks s;
          added := added s ++ [(cid, body)]; copied := copied s |})
  | FilesCp params =>
      match params with
      | [(_, src); (_, dst)] =>
          (ok_response (JDict []),
           {| proof_files := proof_files s; job_blocks := job_blocks s;
              added := added s; copied := copied s ++ [(src, dst)] |})
      | _ => (error_response, s)
      end
  | FilesLs path =>
      if String.eqb path "/swarmpool/proofs"
      then (ok_response (JDict [("Entries",
              JList (map (fun f => JDict [("Name", JStr (fst f)); ("Type", JInt 0)])
                         (proof_files s)))]), s)
      else (error_response, s)
  | FilesRead path =>
      if startswith "/swarmpool/proofs/" path then
        match assoc_lookup (str_drop 18 path) (proof_files s) with
        | Some v => (ok_response v, s)
        | None => (error_response, s)
        end
      else (error_response, s)
  | Cat (JStr cid) =>
      match assoc_lookup cid (job_blocks s) with
      | Some v => (ok_response v, s)
      | None => (error_response, s)
      end
  | Cat _ => (error_response, s)
  | FilesRm _ | PinAdd _ | PubsubPub _ _ => (ok_response (JDict []), s)
  end.

Definition empty_store : ExampleStore :=
  {| proof_files := []; job_blocks := []; added := []; copied := [] |}.

(** A signer for examples: every signature is the same 65 bytes; the
    properties below never look inside a signature. *)
Definition example_signer : MerlinSigner := {|
  private_key := "0x01";
  address := "0x0000000000000000000000000000000000000001";
  account_sign := fun _ => repeat x00 65;
|}.

(** The manager of the examples: a fresh manager that has opened its
    first epoch against the empty store. *)
Definition example_start : Z := 1700000000000000.

Definition example_open : Result string * EpochManager * @World ExampleStore :=
  open_new_epoch example_http example_start
    (new_manager default_config example_signer) (empty_store, []).

Definition example_manager : EpochManager := snd (fst example_open).

Definition example_world : @World ExampleStore := snd example_open.

Definition example_epoch : dict :=
  match current_epoch example_manager with
  | Some epoch => epoch
  | None => []
  end.

(** The requests a step added to the trace. *)
Definition requests_since {store : Type} (before after : @World store) : list Request :=
  skipn (length (snd before)) (snd after).

(** A proof document as a worker writes it. *)
Definition example_proof (proof_id : json) (job_cid : json) (provider : string) : json :=
  JDict [ ("type", JStr "proof");
          ("version", JStr "1.0.0");
          ("proof_id", proof_id);
          ("job_cid", job_cid);
          ("output_cid", JStr "bafyoutput1");
          ("metrics", JDict [ ("inference_seconds", JFloat 1.5);
                              ("confidence", JFloat 0.5) ]);
          ("provider", JStr provider);
          ("timestamp", JInt 1700000100);
          ("proof_hash", JStr "0xabcd");
          ("sig", JStr "0x1234") ].


(** A job document with the given payment amount. *)
Definition example_job (amount : json) : json :=
  JDict [ ("type", JStr "job"); ("payment", JDict [ ("amount", amount) ]) ].

(** ** Settlement arithmetic in exact terms

    The amounts of a settlement are binary64 floats; their exact values
    are rationals.  The following definitions say, in exact arithmetic,
    what conservation means and when a float operation did not round. *)











(** *** Rounding errors

    The rounding error of one float operation is the exact value of its
    result minus the exact result on the values of its operands (defined
    when all three are finite). *)
Definition add_error (x y : float) : option Q :=
  match PyFloat.val x, PyFloat.val y, PyFloat.val (x + y)%float with
  | Some a, Some b, Some c => Some (c - (a + b))%Q
  | _, _, _ => None
  end.

Definition mul_error (x y : float) : option Q :=
  match PyFloat.val x, PyFloat.val y, PyFloat.val (x * y)%float with
  | Some a, Some b, Some c => Some (c - a * b)%Q
  | _, _, _ => None
  end.

(** The rounding error of the addition [earnings_add] performs. *)
Fixpoint earnings_error (provider : string) (amount : float)
    (earnings : list (string * float)) : option Q :=
  match earnings with
  | [] => add_error 0 amount
  | (p, v) :: rest =>
      if String.eqb provider p then add_error v amount
      else earnings_error provider amount rest
  end.

(** The rounding errors of [settle_loop], summed, each taken through
    [size] (the identity for the signed error, [Qabs] for its
    magnitude): first those that reach the providers' earnings (each
    [reward * share] and each [provider_earnings[p] += ...]), second
    those of [total_volume += reward]. *)
Fixpoint settle_rounding (size : Q -> Q) (share : float) (items : list Item)
    (total : float) (earnings : list (string * float)) : option (Q * Q) :=
  match items with
  | [] => Some (0, 0)%Q
  | item :: rest =>
      match reward_of (item_job item), provider_of (item_proof item) with
      | Ok reward, Ok provider =>
          match add_error total reward, mul_error reward share,
                earnings_error provider (reward * share)%float earnings,
                settle_rounding size share rest (total + reward)%float
                  (earnings_add provider (reward * share)%float earnings) with
          | Some et, Some em, Some ee, Some (De, Dt) =>
              Some (size em + size ee + De, size et + Dt)%Q
          | _, _, _, _ => None
          end
      | _, _ => None
      end
  end.

(** The rounding error a settlement carries, signed: by how much
    [sum(providers.values())] exceeds [provider_pool], and by how much
    [provider_pool + network_ops] exceeds [total_volume] (the latter
    includes what the two shares lack to sum to 1). *)
Definition rounding_error (config : MerlinConfig) (current_proofs : list Item)
    : option (Q * Q) :=
  match settle_rounding (fun e => e) (provider_share config) current_proofs 0 [],
        _compute_settlements config current_proofs with
  | Some (De, Dt), Ok s =>
      match PyFloat.val (provider_share config), PyFloat.val (network_ops_share config),
            PyFloat.val (total_volume s),
            mul_error (total_volume s) (provider_share config),
            mul_error (total_volume s) (network_ops_share config) with
      | Some sp, Some sn, Some tv, Some ep, Some en =>
          Some (De - sp * Dt - ep, tv * (sp + sn - 1) + ep + en)%Q
      | _, _, _, _, _ => None
      end
  | _, _ => None
  end.

(** The same with every rounding error counted by its magnitude: a
    bound on the two differences. *)
Definition rounding_bound (config : MerlinConfig) (current_proofs : list Item)
    : option (Q * Q) :=
  match settle_rounding Qabs (provider_share config) current_proofs 0 [],
        _compute_settlements config current_proofs with
  | Some (Ae, At), Ok s =>
      match PyFloat.val (provider_share config), PyFloat.val (network_ops_share config),
            PyFloat.val (total_volume s),
            mul_error (total_volume s) (provider_share config),
            mul_error (total_volume s) (network_ops_share config) with
      | Some sp, Some sn, Some tv, Some ep, Some en =>
          Some (Ae + Qabs sp * At + Qabs ep,
                Qabs tv * Qabs (sp + sn - 1) + Qabs ep + Qabs en)%Q
      | _, _, _, _, _ => None
      end
  | _, _ => None
  end.

(** Conservation with the two sides computed in floats, as a check
    written in Python computes them: [sum] adds from left to right
    starting at 0. *)
Definition float_sum (l : list float) : float :=
  fold_left PrimFloat.add l 0%float.

Definition conserved_in_floats (s : Settlements) : bool :=
  PrimFloat.leb
    (PrimFloat.abs (float_sum (map snd (providers s)) - provider_pool s)) 1e-9
  && PrimFloat.leb
       (PrimFloat.abs (provider_pool s + network_ops s - total_volume s)) 1e-9.

(** A configuration with the shares 0.7 and 0.3. *)
Definition seventy_thirty : MerlinConfig := {|
  identity := identity default_config;
  pool := pool default_config;
  epoch_duration_seconds := epoch_duration_seconds default_config;
  provider_share := 0.7%float;
  network_ops_share := 0.3%float;
|}.

(** An accumulator entry for examples: a proof of [provider] for a job
    paying [amount]. *)
Definition example_item (proof_id provider : string) (amount : json) : Item :=
  {| item_proof :=
       match example_proof (JStr proof_id) (JStr "bafyjob1") provider with
       | JDict p => p
       | _ => []
       end;
     item_job := example_job amount;
     processed_at := 1700000100 |}.

(** The example manager after one iteration of the loop, one second into
    its first epoch, against a store that holds the given proofs and
    jobs. *)
Definition after_first_tick (proofs jobs : list (string * json))
    : Result unit * ProofWatcher * EpochManager * @World ExampleStore :=
  tick example_http (example_start + 1000000) (new_watcher example_start)
    example_manager
    ({| proof_files := proofs; job_blocks := jobs;
        added := added (fst example_world); copied := [] |},
     snd example_world).

(** Three iterations of the loop, thirty seconds apart, against a store
    whose proofs directory lists a proof with a numeric [job_cid] before
    a well-formed one. *)
Definition run_with_malformed_proof
    : list (string * json) * list (string * json * Result bool)
      * ProofWatcher * EpochManager * @World ExampleStore :=
  ticks example_http
    [((example_start + 1000000)%Z, fun w => w);
     ((example_start + 31000000)%Z, fun w => w);
     ((example_start + 61000000)%Z, fun w => w)]
    (new_watcher example_start) example_manager
    ({| proof_files :=
          [("a.json", JDict [("type", JStr "proof"); ("proof_id", JStr "a");
                             ("job_cid", JInt 5)]);
           ("b.json", example_proof (JStr "b") (JStr "bafyjob1") "bob.eth")];
        job_blocks := [("bafyjob1", example_job (JStr "0.10"))];
        added := added (fst example_world); copied := [] |},
     snd example_world).

(** What a seal at the end of the first epoch would compute from there. *)
Definition seal_after_first_tick (proofs jobs : list (string * json))
    : Result (Settlements * string * dict) :=
  let '(_, _, m, _) := after_first_tick proofs jobs in
  seal_document (example_start + 3600000000) m example_epoch.

(** ** Digests as text ([crypto.keccak256], [crypto.keccak256_str]) *)

(** [f"0x{keccak(data).hex()}"] *)
Definition keccak256 (data : list byte) : string :=
  "0x" +:+ Hex.hex (keccak data).

Definition keccak256_str (data : string) : string :=
  keccak256 (encode_utf8 data).

(** ** Job and epoch documents ([schemas.validate_job],
    [schemas.validate_epoch]) *)

Definition job_required : list string :=
  ["job_id"; "model"; "input_cid"; "client"; "timestamp"; "sig"].

(** The loops [for field in required: if not doc.get(field): ...]. *)
Definition missing_field_errors (required : list string) (doc : dict) : list string :=
  flat_map (fun field =>
    if negb (truthy (dict_get field doc))
    then ["missing required field: " +:+ field] else []) required.

(** [validate_job]: [payment.get] raises when the payment is not an
    object. *)
Definition validate_job (job : dict) : Result bool :=
  let e_type :=
    if negb (json_eqb_str (dict_get "type" job) "job")
    then ["type must be 'job'"] else [] in
  let e_required := missing_field_errors job_required job in
  match dict_get_default "payment" (JDict []) job with
  | JDict payment =>
      let e_payment :=
        if negb (truthy (dict_get "amount" payment))
        then ["payment.amount is required"] else [] in
      Ok (match e_type ++ e_required ++ e_payment with [] => true | _ => false end)
  | _ => Raise AttributeError
  end.

Definition epoch_required : list string :=
  ["epoch_id"; "name"; "started_at"; "controller"; "timestamp"; "sig"].

Definition sealed_required : list string :=
  ["ended_at"; "merkle_root"; "settlements"].

(** [v is None] *)
Definition is_none (v : json) : bool :=
  match v with JNull => true | _ => false end.

Definition validate_epoch (epoch : dict) : bool :=
  let status := dict_get "status" epoch in
  let e_type :=
    if negb (json_eqb_str (dict_get "type" epoch) "epoch")
    then ["type must be 'epoch'"] else [] in
  let e_status :=
    if negb (json_eqb_str status "active" || json_eqb_str status "sealed")
    then ["status must be 'active' or 'sealed'"] else [] in
  let e_required := missing_field_errors epoch_required epoch in
  let e_sealed :=
    if json_eqb_str status "sealed" then
      flat_map (fun field =>
        if is_none (dict_get field epoch)
        then ["sealed epoch missing: " +:+ field] else []) sealed_required
    else [] in
  match e_type ++ e_status ++ e_required ++ e_sealed with
  | [] => true
  | _ => false
  end.

(** ** Documents with the same content

    Two documents have the same content when they differ at most in the
    order in which the keys of their objects were inserted (the keys of
    an object are distinct). *)

Inductive same_content : json -> json -> Prop :=
| same_value (v : json) : same_content v v
| same_list (l1 l2 : list json) :
    Forall2 same_content l1 l2 -> same_content (JList l1) (JList l2)
| same_dict (d1 d d2 : dict) :
    NoDup (map fst d1) ->
    Forall2 (fun a b => fst a = fst b /\ same_content (snd a) (snd b)) d1 d ->
    Permutation d d2 ->
    same_content (JDict d1) (JDict d2).

(** The keys [validate_proof] reads. *)
Definition proof_fields : list string :=
  ["type"; "proof_id"; "job_cid"; "output_cid"; "provider"; "proof_hash"; "sig";
   "timestamp"; "metrics"].

(** ** The accumulator of the epoch manager

    The identifiers the accumulator holds, as [seal_current_epoch] reads
    them, and what it means for the accumulator and the set of processed
    identifiers to agree. *)

Definition accumulator_ids (m : EpochManager) : list json :=
  map (fun it => proof_id_of "" (item_proof it)) (current_proofs m).

Definition accumulator_ok (m : EpochManager) : Prop :=
  exists ids : list string,
    accumulator_ids m = map JStr ids /\
    NoDup ids /\
    processed_proof_ids m = list_to_set ids /\
    Forall (fun it => validate_proof (item_proof it) = Ok true) (current_proofs m).

(** A store that cannot be reached: every request fails in the HTTP
    client. *)
Definition offline_http (r : Request) (s : unit) : option Response * unit := (None, s).

(** [pat in s] *)
Fixpoint str_contains (pat s : string) : bool :=
  startswith pat s ||
  match s with
  | EmptyString => false
  | String _ s' => str_contains pat s'
  end.

(** ** The heartbeat ([Merlin._publish_heartbeat]) *)

(** [datetime.timestamp()] of the time [now], counted in microseconds:
    the float nearest to [now / 10**6]. *)
Definition timestamp_float (now : Z) : float :=
  if (now =? 0)%Z then 0%float
  else if (now <? 0)%Z then PrimFloat.opp (PyFloat.round_pos (- now) 1000000)
  else PyFloat.round_pos now 1000000.

(** [int(x)] for a [float]: truncation towards zero. *)
Definition py_int_of_float (x : float) : Result Z :=
  match Prim2SF x with
  | S754_zero _ => Ok 0%Z
  | S754_finite s m e =>
      let v := if (0 <=? e)%Z then (Z.pos m * 2 ^ e)%Z
               else Z.quot (Z.pos m) (2 ^ (- e)) in
      Ok (if s then (- v)%Z else v)
  | S754_infinity _ => Raise OverflowError
  | S754_nan => Raise ValueError
  end.

(** The time of the last heartbeat, [0] before the first. *)
Definition last_heartbeat_or_zero (last : option float) : float :=
  match last with Some f => f | None => 0%float end.

(** Two times are at least 30 seconds apart, as [_publish_heartbeat]
    measures it. *)
Definition spaced (earlier later : float) : Prop :=
  PrimFloat.ltb (later - earlier)%float 30%float = false.

(** The daemon: its components and its own state.  [_last_heartbeat] is
    [None] until the first call of [_publish_heartbeat] creates the
    attribute. *)
Record Merlin : Type := {
  epoch_manager : EpochManager;
  proof_watcher : ProofWatcher;
  running : bool;
  start_time : option Z;
  _last_heartbeat : option float;
}.

Definition heartbeat_topic (d : Merlin) : string :=
  "/" +:+ pool (config (epoch_manager d)) +:+ "/heartbeats".

Section Heartbeat.

Context {store : Type}.
Variable http : Request -> store -> option Response * store.

(** [Merlin._publish_heartbeat]: the heartbeat it published, if any, the
    daemon afterwards and the world afterwards. *)
Definition _publish_heartbeat (now : Z) (d : Merlin) (w : @World store)
    : Result (option dict) * Merlin * @World store :=
  let last := last_heartbeat_or_zero (_last_heartbeat d) in
  let now_f := timestamp_float now in
  let with_last f :=
    {| epoch_manager := epoch_manager d; proof_watcher := proof_watcher d;
       running := running d; start_time := start_time d;
       _last_heartbeat := Some f |} in
  if PrimFloat.ltb (now_f - last)%float 30%float then (Ok None, with_last last, w)
  else
    let d' := with_last now_f in
    let uptime :=
      match start_time d with
      | Some t => py_int_of_float (now_f - timestamp_float t)%float
      | None => Ok 0%Z
      end in
    match uptime, py_int_of_float now_f with
    | Ok up, Ok ts =>
        let heartbeat :=
          [ ("type", JStr "heartbeat");
            ("controller", JStr (identity (config (epoch_manager d))));
            ("current_epoch",
             match current_epoch_id (epoch_manager d) with
             | Some i => JStr i
             | None => JNull
             end);
            ("epoch_proofs", JInt (Z.of_nat (length (current_proofs (epoch_manager d)))));
            ("uptime_seconds", JInt up);
            ("timestamp", JInt ts) ] in
        (Ok (Some heartbeat), d', pubsub_publish http (heartbeat_topic d) heartbeat w)
    | Raise e, _ => (Raise e, d', w)
    | _, Raise e => (Raise e, d', w)
    end.

(** Calls of [_publish_heartbeat] at the given times, as the loop makes
    them (an exception ends the iteration, and the loop goes on): the
    times at which a heartbeat was due, that is, at which the call got
    past the 30-second test. *)
Fixpoint heartbeats (times : list Z) (d : Merlin) (w : @World store)
    : list Z * Merlin * @World store :=
  match times with
  | [] => ([], d, w)
  | now :: rest =>
      let '(r, d1, w1) := _publish_heartbeat now d w in
      let '(published, d2, w2) := heartbeats rest d1 w1 in
      (match r with Ok None => published | _ => now :: published end, d2, w2)
  end.

End Heartbeat.

(** The keys [seal_current_epoch] writes into the sealed document. *)
Definition sealed_keys : list string :=
  ["status"; "ended_at"; "jobs_count"; "proofs_count"; "total_volume_usdc";
   "merkle_root"; "settlements"; "proofs"; "timestamp"; "sig"].

(** * Properties *)

(** ** Keccak-256 test vectors *)

Example keccak_empty :
  Hex.hex (keccak []) =
  "c5d2460186f7233c927e7db2dcc703c0e500b653ca82273b7bfad8045d85a470".
Proof. vm_compute. reflexivity. Qed.

Example keccak_abc :
  Hex.hex (keccak (encode_utf8 "abc")) =
  "4e03657aea45a94fc7d47ba826c8d667c0d1e6e33a64a036ec44f58fa12d6c45".
Proof. vm_compute. reflexivity. Qed.

(** ** The order on strings *)

Section StrOrder.

Lemma ascii_compare_trans_ngt (a b c : ascii) :
  Ascii.compare a b <> Gt -> Ascii.compare b c <> Gt -> Ascii.compare a c <> Gt.
Proof.
  unfold Ascii.compare. rewrite !N.compare_ngt_iff. lia.
Qed.

Lemma str_compare_trans_ngt (s1 s2 s3 : string) :
  String.compare s1 s2 <> Gt -> String.compare s2 s3 <> Gt ->
  String.compare s1 s3 <> Gt.
Proof.
  revert s2 s3. induction s1 as [|a s1 IH]; intros [|b s2] [|c s3]; simpl;
    try congruence.
  destruct (Ascii.compare a b) eqn:Hab; try congruence;
  destruct (Ascii.compare b c) eqn:Hbc; try congruence; intros H12 H23.
  - apply Ascii.compare_eq_iff in Hab, Hbc. subst.
    assert (Hcc : Ascii.compare c c = Eq)
      by (unfold Ascii.compare; apply N.compare_refl).
    rewrite Hcc. eauto.
  - apply Ascii.compare_eq_iff in Hab. subst. rewrite Hbc. congruence.
  - apply Ascii.compare_eq_iff in Hbc. subst. rewrite Hab. congruence.
  - assert (Hac : Ascii.compare a c <> Gt)
      by (apply (ascii_compare_trans_ngt a b c); congruence).
    destruct (Ascii.compare a c) eqn:E; try congruence.
    apply Ascii.compare_eq_iff in E. subst.
    rewrite Ascii.compare_antisym, Hab in Hbc. discriminate.
Qed.

Lemma str_le_ngt (a b : string) : str_le a b <-> String.compare a b <> Gt.
Proof.
  unfold str_le, String.leb. destruct (String.compare a b); split; congruence.
Qed.

#[global] Instance str_le_trans : Transitive str_le.
Proof.
  intros a b c. rewrite !str_le_ngt. apply str_compare_trans_ngt.
Qed.

#[global] Instance str_le_antisym : AntiSymm (=) str_le.
Proof. intros a b. apply String.leb_antisym. Qed.

#[global] Instance str_le_total : Total str_le.
Proof. intros a b. apply String.leb_total. Qed.

End StrOrder.

(** ** Sorting *)

Section PySortedFacts.
Context {A : Type} (le : A -> A -> bool).
Let R (x y : A) : Prop := le x y = true.
Hypothesis le_total : forall x y, le x y = true \/ le y x = true.

Lemma insert_sorted_Permutation (x : A) (l : list A) :
  Permutation (insert_sorted le x l) (x :: l).
Proof.
  induction l as [|y l IH]; simpl; [reflexivity|].
  destruct (le x y); [reflexivity|].
  rewrite IH. apply perm_swap.
Qed.

Lemma py_sorted_Permutation (l : list A) : Permutation (py_sorted le l) l.
Proof.
  induction l as [|x l IH]; simpl; [reflexivity|].
  rewrite insert_sorted_Permutation. apply perm_skip, IH.
Qed.

Lemma insert_sorted_HdRel (a x : A) (l : list A) :
  R a x -> HdRel R a l -> HdRel R a (insert_sorted le x l).
Proof.
  intros Hax Hl. destruct l as [|y l]; simpl; [constructor; exact Hax|].
  destruct (le x y); constructor; [exact Hax|].
  inversion Hl; assumption.
Qed.

Lemma insert_sorted_Sorted (x : A) (l : list A) :
  Sorted R l -> Sorted R (insert_sorted le x l).
Proof.
  induction l as [|y l IH]; simpl; intros Hs.
  - repeat constructor.
  - destruct (le x y) eqn:E.
    + constructor; [exact Hs | constructor; exact E].
    + inversion Hs as [|? ? Hs' Hhd]; subst.
      constructor; [apply IH; exact Hs'|].
      apply insert_sorted_HdRel; [|exact Hhd].
      destruct (le_total x y) as [H|H]; [congruence | exact H].
Qed.

Lemma py_sorted_Sorted (l : list A) : Sorted R (py_sorted le l).
Proof.
  induction l as [|x l IH]; simpl; [constructor|].
  apply insert_sorted_Sorted, IH.
Qed.

(** Sorting what is already sorted changes nothing. *)
Lemma py_sorted_of_Sorted (l : list A) : Sorted R l -> py_sorted le l = l.
Proof.
  induction l as [|x l IH]; simpl; intros Hs; [reflexivity|].
  inversion Hs as [|? ? Hs' Hhd]; subst. rewrite (IH Hs').
  destruct l as [|y l]; simpl; [reflexivity|].
  inversion Hhd as [|? ? Hxy]; subst. unfold R in Hxy. rewrite Hxy. reflexivity.
Qed.

End PySortedFacts.

Lemma sorted_Permutation (items : list string) : Permutation (sorted items) items.
Proof. apply py_sorted_Permutation. Qed.

Lemma sorted_Sorted (items : list string) : Sorted str_le (sorted items).
Proof. apply py_sorted_Sorted, String.leb_total. Qed.

Lemma sorted_perm (l1 l2 : list string) :
  Permutation l1 l2 -> sorted l1 = sorted l2.
Proof.
  intros Hp.
  apply (Sorted_unique str_le); try apply sorted_Sorted.
  rewrite !sorted_Permutation. exact Hp.
Qed.

Lemma sorted_singleton (x : string) : sorted [x] = [x].
Proof. reflexivity. Qed.

(** ** The Merkle tree loop *)

Lemma pad_level_even (hs : list (list byte)) :
  Nat.even (length (pad_level hs)) = true.
Proof.
  unfold pad_level. destruct (Nat.odd (length hs)) eqn:E.
  - rewrite length_app. simpl. rewrite Nat.add_1_r, Nat.even_succ. exact E.
  - unfold Nat.odd in E. destruct (Nat.even (length hs)); [reflexivity | discriminate].
Qed.

Lemma pair_level_length (hs : list (list byte)) :
  length (pair_level hs) = Nat.div2 (length hs).
Proof.
  enough (H : forall n (l : list (list byte)), (length l <= n)%nat ->
             length (pair_level l) = Nat.div2 (length l)) by (apply (H (length hs)); lia).
  induction n as [|n IH]; intros [|a [|b t]] Hl; simpl in *; try reflexivity; try lia.
  rewrite IH; [reflexivity | lia].
Qed.

Lemma pad_level_length (hs : list (list byte)) :
  length (pad_level hs) = (length hs + (if Nat.odd (length hs) then 1 else 0))%nat.
Proof.
  unfold pad_level. destruct (Nat.odd (length hs)).
  - rewrite length_app. reflexivity.
  - lia.
Qed.

Lemma next_level_length (hs : list (list byte)) :
  (1 < length hs)%nat ->
  (1 <= length (pair_level (pad_level hs)) < length hs)%nat.
Proof.
  intros H. rewrite pair_level_length, pad_level_length.
  pose proof (Nat.div2_odd (length hs)) as Hd.
  destruct (Nat.odd (length hs)); simpl in Hd.
  - replace (length hs + 1)%nat with (2 * S (Nat.div2 (length hs)))%nat by lia.
    rewrite Nat.div2_double. lia.
  - rewrite Nat.add_0_r. lia.
Qed.

(** The loop terminates: [length hashes] iterations leave exactly one
    digest when the list of leaves is not empty. *)
Lemma build_tree_enough_fuel (fuel : nat) (hs : list (list byte)) :
  (1 <= length hs <= fuel)%nat -> length (build_tree fuel hs) = 1%nat.
Proof.
  revert hs. induction fuel as [|fuel IH]; intros hs H; [lia|].
  simpl. destruct (Nat.ltb 1 (length hs)) eqn:E.
  - apply Nat.ltb_lt in E. apply IH.
    pose proof (next_level_length hs E). lia.
  - apply Nat.ltb_ge in E. lia.
Qed.

Lemma leaves_length (items : list string) (hs : list (list byte)) :
  leaves items = Ok hs -> length hs = length items.
Proof.
  revert hs. induction items as [|x items IH]; simpl; intros hs H.
  - injection H as <-. reflexivity.
  - destruct (leaf x); simpl in H; [|discriminate].
    destruct (leaves items) as [hs'|]; simpl in H; [|discriminate].
    injection H as <-. simpl. f_equal. apply IH. reflexivity.
Qed.

Lemma leaf_raises_only_ValueError (x : string) (e : Exn) :
  leaf x = Raise e -> e = ValueError.
Proof.
  unfold leaf. destruct (startswith "0x" x); [|discriminate].
  destruct (Hex.fromhex (str_drop 2 x)); [discriminate|]. congruence.
Qed.

Lemma leaves_returns_iff (items : list string) :
  returns (leaves items) <-> Forall (fun x => returns (leaf x)) items.
Proof.
  induction items as [|x items IH]; simpl.
  - split; [constructor | intros _; eexists; reflexivity].
  - split.
    + intros [hs H]. destruct (leaf x) as [h|] eqn:Hx; simpl in H; [|discriminate].
      destruct (leaves items) as [hs'|] eqn:Hl; simpl in H; [|discriminate].
      constructor; [exists h; exact Hx|]. apply IH. eexists; reflexivity.
    + intros H. inversion H as [|? ? [h Hh] Hrest]; subst.
      apply IH in Hrest as [hs Hhs]. rewrite Hh, Hhs. simpl. eexists; reflexivity.
Qed.

Lemma leaves_raises_only_ValueError (items : list string) (e : Exn) :
  leaves items = Raise e -> e = ValueError.
Proof.
  induction items as [|x items IH]; simpl; [discriminate|].
  destruct (leaf x) as [h|e'] eqn:Hx; simpl.
  - destruct (leaves items) as [hs|e'']; simpl; [discriminate|].
    intros [= <-]. apply IH. reflexivity.
  - intros [= <-]. eapply leaf_raises_only_ValueError; eassumption.
Qed.

Lemma sorted_In (y : string) (items : list string) :
  In y (sorted items) <-> In y items.
Proof.
  split; apply Permutation_in;
    [| apply Permutation_sym]; apply sorted_Permutation.
Qed.

Lemma sorted_length (items : list string) : length (sorted items) = length items.
Proof. apply Permutation_length, sorted_Permutation. Qed.

Lemma build_tree_root (hs : list (list byte)) :
  (1 <= length hs)%nat ->
  exists root, build_tree (length hs) hs = [root].
Proof.
  intros H. pose proof (build_tree_enough_fuel (length hs) hs ltac:(lia)) as Hb.
  destruct (build_tree (length hs) hs) as [|r [|? ?]]; try discriminate.
  exists r. reflexivity.
Qed.

Lemma compute_merkle_root_cons (x : string) (items : list string) :
  compute_merkle_root (x :: items) =
  (try! hashes := leaves (sorted (x :: items)) in
   Ok ("0x" +:+ Hex.hex (List.hd [] (build_tree (length hashes) hashes)))).
Proof.
  unfold compute_merkle_root.
  destruct (leaves (sorted (x :: items))) as [hs|e] eqn:Hl; simpl; [|reflexivity].
  destruct (build_tree_root hs) as [r Hr].
  - rewrite (leaves_length _ _ Hl), sorted_length. simpl. lia.
  - rewrite Hr. reflexivity.
Qed.

(** [compute_merkle_root] returns a root exactly when every item yields a
    leaf digest; otherwise it raises [ValueError]. *)
Lemma compute_merkle_root_returns_iff (items : list string) :
  returns (compute_merkle_root items) <-> Forall (fun x => returns (leaf x)) items.
Proof.
  destruct items as [|x items].
  - split; [constructor | intros _; eexists; reflexivity].
  - rewrite compute_merkle_root_cons.
    assert (Hs : Forall (fun x => returns (leaf x)) (sorted (x :: items)) <->
                 Forall (fun x => returns (leaf x)) (x :: items)).
    { rewrite !List.Forall_forall. split; intros H y Hy; apply H; apply sorted_In; exact Hy. }
    rewrite <- Hs, <- leaves_returns_iff.
    destruct (leaves (sorted (x :: items))) as [hs|e]; simpl.
    + split; intros _; eexists; reflexivity.
    + split; intros [a Ha]; discriminate.
Qed.

Lemma compute_merkle_root_raises (items : list string) :
  Exists (fun x => raises (leaf x)) items ->
  compute_merkle_root items = Raise ValueError.
Proof.
  intros Hex.
  destruct items as [|x items]; [inversion Hex|].
  rewrite compute_merkle_root_cons.
  destruct (leaves (sorted (x :: items))) as [hs|e] eqn:Hl; simpl.
  - exfalso.
    assert (Hall : returns (leaves (sorted (x :: items)))) by (eexists; eassumption).
    apply leaves_returns_iff in Hall. rewrite List.Forall_forall in Hall.
    apply List.Exists_exists in Hex as [y [Hin [e He]]].
    destruct (Hall y (proj2 (sorted_In y _) Hin)) as [d Hd]. congruence.
  - f_equal. eapply leaves_raises_only_ValueError; eassumption.
Qed.

(** ** C1: the root of a single item *)

(** C1, as stated, fails: for the one-item list ["proof-001"] the root is
    the leaf digest itself, not the Keccak digest of the leaf doubled. *)
Lemma merkle_single_not_doubled :
  let x := "proof-001" in
  let d := keccak (encode_utf8 x) in
  compute_merkle_root [x] = Ok ("0x" +:+ Hex.hex d) /\
  compute_merkle_root [x] <> Ok ("0x" +:+ Hex.hex (keccak (d ++ d))).
Proof.
  split; [reflexivity|]. vm_compute. discriminate.
Qed.

(** C1 (amended): for every one-item list [x], the pairing loop does not
    run and [compute_merkle_root [x]] is ["0x"] followed by the hexadecimal
    form of the leaf digest of [x] itself (and raises when [x] has no leaf
    digest). *)
Theorem merkle_single_leaf (x : string) :
  compute_merkle_root [x] = (try! d := leaf x in Ok ("0x" +:+ Hex.hex d)).
Proof.
  unfold compute_merkle_root. rewrite sorted_singleton. simpl.
  destruct (leaf x); reflexivity.
Qed.

(** ** C4: the root does not depend on the order of the items *)

(** C4: for every list [L] and every permutation [P] of it,
    [compute_merkle_root L = compute_merkle_root P] (the same root, or the
    same exception). *)
Theorem merkle_root_permutation (L P : list string) :
  Permutation L P -> compute_merkle_root L = compute_merkle_root P.
Proof.
  intros Hp. destruct L as [|x L], P as [|y P].
  - reflexivity.
  - apply Permutation_nil in Hp. discriminate.
  - apply Permutation_sym, Permutation_nil in Hp. discriminate.
  - unfold compute_merkle_root. rewrite (sorted_perm _ _ Hp). reflexivity.
Qed.

Lemma merkle_root_permutation_witness :
  Permutation ["proof-b"; "0x01ff"; "proof-a"] ["proof-a"; "proof-b"; "0x01ff"] /\
  compute_merkle_root ["proof-b"; "0x01ff"; "proof-a"] =
  compute_merkle_root ["proof-a"; "proof-b"; "0x01ff"].
Proof.
  assert (Hp : Permutation ["proof-b"; "0x01ff"; "proof-a"]
                           ["proof-a"; "proof-b"; "0x01ff"]).
  { apply Permutation_sym. apply (Permutation_cons_app ["proof-b"; "0x01ff"] []).
    apply Permutation_refl. }
  split; [exact Hp | exact (merkle_root_permutation _ _ Hp)].
Defined.

(** ** Dictionaries *)

Lemma dict_lookup_get (k : string) (d : dict) (v : json) :
  dict_lookup k d = Some v -> dict_get k d = v.
Proof. unfold dict_get. intros ->. reflexivity. Qed.

Lemma dict_get_default_get (k : string) (d : dict) (dflt : json) :
  dict_has k d = true -> dict_get_default k dflt d = dict_get k d.
Proof.
  unfold dict_has, dict_get_default, dict_get.
  destruct (dict_lookup k d); [reflexivity | discriminate].
Qed.

Lemma dict_get_truthy_default (k : string) (d : dict) (dflt : json) :
  truthy (dict_get k d) = true -> dict_get_default k dflt d = dict_get k d.
Proof.
  unfold dict_get_default, dict_get.
  destruct (dict_lookup k d); [reflexivity | discriminate].
Qed.

Lemma truthy_str (v : json) :
  truthy v = true -> is_str v = true -> exists s, v = JStr s /\ s <> "".
Proof.
  destruct v; try discriminate. simpl. intros Ht _.
  exists s. split; [reflexivity|]. intros ->. discriminate.
Qed.

(** ** What a validated proof looks like *)

Lemma flat_map_nil {A B : Type} (f : A -> list B) (l : list A) (x : A) :
  flat_map f l = [] -> In x l -> f x = [].
Proof.
  induction l as [|y l IH]; simpl; [contradiction|].
  intros H [->|Hin]; apply app_eq_nil in H as [H1 H2]; auto.
Qed.

Lemma required_strings_ok (p : dict) (field : string) :
  required_string_errors p = [] -> In field required_strings ->
  exists s, dict_get field p = JStr s /\ s <> "".
Proof.
  intros H Hin. pose proof (flat_map_nil _ _ field H Hin) as Hf. simpl in Hf.
  destruct (truthy (dict_get field p)) eqn:Ht; simpl in Hf; [|discriminate].
  destruct (is_str (dict_get field p)) eqn:Hs; simpl in Hf; [|discriminate].
  apply truthy_str; assumption.
Qed.

Lemma affix_errors_ok (test : string -> bool) (s msg : string) :
  s <> "" -> affix_errors test (JStr s) msg = Ok [] -> test s = true.
Proof.
  intros Hs. unfold affix_errors, truthy.
  destruct (String.eqb_spec s ""); [contradiction|]. simpl.
  destruct (test s); [reflexivity | discriminate].
Qed.

(** A document [validate_proof] accepts has the shape the schema
    demands. *)
Lemma validate_proof_accepts (p : dict) :
  validate_proof p = Ok true ->
  dict_get "type" p = JStr "proof" /\
  (forall field, In field required_strings ->
     exists s, dict_get field p = JStr s /\ s <> "") /\
  is_number (dict_get "timestamp" p) = true /\
  (exists metrics, dict_get "metrics" p = JDict metrics /\
     is_number (dict_get "inference_seconds" metrics) = true /\
     is_number (dict_get "confidence" metrics) = true /\
     out_of_unit_interval (dict_get "confidence" metrics) = false) /\
  (exists s, dict_get "job_cid" p = JStr s /\ cid_pattern_match s = true) /\
  (exists s, dict_get "output_cid" p = JStr s /\ cid_pattern_match s = true) /\
  (exists s, dict_get "proof_hash" p = JStr s /\ startswith "0x" s = true) /\
  (exists s, dict_get "sig" p = JStr s /\ startswith "0x" s = true) /\
  (exists s, dict_get "provider" p = JStr s /\ endswith ".eth" s = true).
Proof.
  unfold validate_proof. intros H.
  destruct (cid_errors "job_cid" p) as [e1|] eqn:H1; simpl in H; [|discriminate].
  destruct (cid_errors "output_cid" p) as [e2|] eqn:H2; simpl in H; [|discriminate].
  destruct (affix_errors (startswith "0x") (dict_get "proof_hash" p) _)
    as [e3|] eqn:H3; simpl in H; [|discriminate].
  destruct (affix_errors (startswith "0x") (dict_get "sig" p) _)
    as [e4|] eqn:H4; simpl in H; [|discriminate].
  destruct (affix_errors (endswith ".eth") _ _) as [e5|] eqn:H5; simpl in H; [|discriminate].
  match type of H with
  | Ok (match ?l with _ => _ end) = _ => destruct l eqn:Herr; [|discriminate]
  end.
  repeat match goal with
  | Hx : _ ++ _ = [] |- _ => apply app_eq_nil in Hx as [? ?]
  end. subst.
  assert (Hreq : forall field, In field required_strings ->
            exists s, dict_get field p = JStr s /\ s <> "")
    by (intros field; apply required_strings_ok; assumption).
  assert (Hcid : forall field, In field required_strings ->
            cid_errors field p = Ok [] ->
            exists s, dict_get field p = JStr s /\ cid_pattern_match s = true).
  { intros field Hin Hc. destruct (Hreq field Hin) as (s & Hs & Hne).
    exists s. split; [exact Hs|]. unfold cid_errors in Hc.
    rewrite dict_get_truthy_default in Hc
      by (rewrite Hs; simpl; destruct (String.eqb_spec s ""); [contradiction|reflexivity]).
    rewrite Hs in Hc. simpl in Hc.
    destruct (String.eqb_spec s ""); [contradiction|]. simpl in Hc.
    destruct (cid_pattern_match s); [reflexivity | discriminate]. }
  assert (Haff : forall field test msg, In field required_strings ->
            affix_errors test (dict_get field p) msg = Ok [] ->
            exists s, dict_get field p = JStr s /\ test s = true).
  { intros field test msg Hin Ha. destruct (Hreq field Hin) as (s & Hs & Hne).
    exists s. split; [exact Hs|]. rewrite Hs in Ha.
    eapply affix_errors_ok; eassumption. }
  repeat split.
  - destruct (json_eqb_str (dict_get "type" p) "proof") eqn:Ht; [|discriminate].
    destruct (dict_get "type" p) as [| | | |s| |]; try discriminate.
    apply String.eqb_eq in Ht. congruence.
  - exact Hreq.
  - destruct (is_number (dict_get "timestamp" p)); [reflexivity | discriminate].
  - unfold metrics_errors in *. destruct (dict_get "metrics" p); try discriminate.
    eexists. split; [reflexivity|].
    match goal with Hx : _ ++ _ = [] |- _ => apply app_eq_nil in Hx as [Ha Hb] end.
    destruct (is_number (dict_get "inference_seconds" d)); [|discriminate].
    destruct (is_number (dict_get "confidence" d)); [|discriminate].
    destruct (out_of_unit_interval (dict_get "confidence" d)); [discriminate|].
    repeat split.
  - apply Hcid; [simpl; tauto | assumption].
  - apply Hcid; [simpl; tauto | assumption].
  - eapply Haff; [simpl; tauto | eassumption].
  - eapply Haff; [simpl; tauto | eassumption].
  - destruct (Hreq "provider" ltac:(simpl; tauto)) as (s & Hs & Hne).
    exists s. split; [exact Hs|].
    rewrite dict_get_truthy_default in H5
      by (rewrite Hs; simpl; destruct (String.eqb_spec s ""); [contradiction|reflexivity]).
    rewrite Hs in H5. eapply affix_errors_ok; eassumption.
Qed.

(** ** C6: epoch numbering *)

Section EpochNumbering.

Context {store : Type}.
Variable http : Request -> store -> option Response * store.

Lemma open_new_epoch_counter (now : Z) (m : EpochManager) (w : @World store) :
  epoch_number (snd (fst (open_new_epoch http now m w))) = (epoch_number m + 1)%Z.
Proof.
  unfold open_new_epoch.
  destruct (publish_epoch http _ w) as [[cid|e] w1]; reflexivity.
Qed.

Lemma validated_proof_id (p : dict) (dflt : string) :
  validate_proof p = Ok true ->
  exists s, proof_id_of dflt p = JStr s /\ dict_get "proof_id" p = JStr s /\ s <> "".
Proof.
  intros Hv. apply validate_proof_accepts in Hv as (_ & Hreq & _).
  destruct (Hreq "proof_id" ltac:(simpl; tauto)) as (s & Hs & Hne).
  exists s. repeat split; try assumption.
  unfold proof_id_of. rewrite dict_get_truthy_default; [exact Hs|].
  rewrite Hs. simpl. destruct (String.eqb_spec s ""); [contradiction | reflexivity].
Qed.

(** The two outcomes of [process_proof]: the proof is accepted, appended
    and recorded, or nothing at all changes. *)
Lemma process_proof_outcome (now : Z) (proof : json) (m : EpochManager) (w : @World store) :
  let '(r, m', w') := process_proof http now proof m w in
  (r <> Ok true /\ m' = m /\ w' = w) \/
  (r = Ok true /\
   exists p s job,
     proof = JDict p /\ dict_get "proof_id" p = JStr s /\
     (s ∉ processed_proof_ids m) /\ validate_proof p = Ok true /\
     current_proofs m' = current_proofs m ++
       [{| item_proof := p; item_job := job; processed_at := timestamp_of now |}] /\
     processed_proof_ids m' = {[ s ]} ∪ processed_proof_ids m /\
     epoch_number m' = epoch_number m /\
     current_epoch m' = current_epoch m /\
     current_epoch_id m' = current_epoch_id m /\
     epoch_started_at m' = epoch_started_at m /\
     config m' = config m /\ signer m' = signer m).
Proof.
  unfold process_proof.
  destruct proof as [| | | | |l|p]; try (left; repeat split; discriminate).
  destruct (validate_proof p) as [[|]|e] eqn:Hv.
  - destruct (validated_proof_id p "unknown" Hv) as (s & Hid & Hget & Hne).
    rewrite Hid. destruct (bool_decide (s ∈ processed_proof_ids m)) eqn:Hk.
    + left. repeat split; discriminate.
    + apply bool_decide_eq_false in Hk.
      destruct (negb (truthy (dict_get "sig" p))); [left; repeat split; discriminate|].
      destruct (if truthy (dict_get "job_cid" p)
                then fetch_job http (dict_get "job_cid" p) w
                else (JNull, w)) as [job w1].
      right. split; [reflexivity|]. exists p, s, job. repeat split; assumption.
  - destruct (proof_id_of "unknown" p); try (left; repeat split; discriminate);
      match goal with |- context [if ?b then _ else _] => destruct b end;
      left; repeat split; discriminate.
  - destruct (proof_id_of "unknown" p); try (left; repeat split; discriminate);
      match goal with |- context [if ?b then _ else _] => destruct b end;
      left; repeat split; discriminate.
Qed.

Lemma process_proof_counter (now : Z) (proof : json) (m : EpochManager) (w : @World store) :
  epoch_number (snd (fst (process_proof http now proof m w))) = epoch_number m.
Proof.
  pose proof (process_proof_outcome now proof m w) as H.
  destruct (process_proof http now proof m w) as [[r m'] w']. simpl.
  destruct H as [(_ & -> & _) | (_ & p & s & job & H)]; [reflexivity|].
  tauto.
Qed.

(** What a successful [open_new_epoch] leaves as the current epoch. *)
Lemma open_new_epoch_document (now : Z) (m : EpochManager) (w : @World store)
    (id : string) :
  fst (fst (open_new_epoch http now m w)) = Ok id ->
  let m' := snd (fst (open_new_epoch http now m w)) in
  let n := (epoch_number m + 1)%Z in
  id = "epoch-" +:+ format_04d n /\
  current_epoch_id m' = Some id /\
  current_proofs m' = [] /\
  processed_proof_ids m' = ∅ /\
  exists doc,
    current_epoch m' = Some doc /\
    dict_get "epoch_number" doc = JInt n /\
    dict_get "epoch_id" doc = JStr ("epoch-" +:+ format_04d n) /\
    dict_get "name" doc = JStr (get_epoch_name n) /\
    dict_get "status" doc = JStr "active".
Proof.
  unfold open_new_epoch.
  destruct (publish_epoch http _ w) as [[cid|e] w1]; simpl; [|discriminate].
  intros [= <-]. repeat split; try reflexivity.
  eexists. split; [reflexivity|]. repeat split; reflexivity.
Qed.

Lemma get_epoch_name_nato (n : Z) :
  nth_error NATO_ALPHABET (Z.to_nat (n mod 26)) = Some (get_epoch_name n).
Proof.
  unfold get_epoch_name.
  change (Z.of_nat (length NATO_ALPHABET)) with 26%Z.
  apply nth_error_nth'. change (length NATO_ALPHABET) with 26%nat.
  pose proof (Z.mod_pos_bound n 26 ltac:(lia)). lia.
Qed.

Lemma map_seq_shift (a : Z) (len d start : nat) :
  map (fun k => (a + Z.of_nat d + Z.of_nat k)%Z) (seq start len) =
  map (fun k => (a + Z.of_nat k)%Z) (seq (d + start) len).
Proof.
  revert start. induction len as [|len IH]; intros start; simpl; [reflexivity|].
  f_equal; [lia|]. rewrite IH. f_equal. f_equal. lia.
Qed.

Lemma call_counter (c : Call) (m : EpochManager) (w : @World store) :
  let '(o, m', _) := call http c m w in
  epoch_number m' = (epoch_number m + Z.of_nat (length o))%Z /\
  map snd o = map (fun k => (epoch_number m + Z.of_nat k)%Z) (seq 1 (length o)) /\
  Forall (fun o => forall id, fst o = Ok id -> id = "epoch-" +:+ format_04d (snd o)) o.
Proof.
  destruct c as [now|now|now proof|now]; simpl.
  - destruct (current_epoch m).
    + simpl. repeat split; [lia | constructor].
    + pose proof (open_new_epoch_counter now m w) as Hc.
      pose proof (open_new_epoch_document now m w) as Hd.
      destruct (open_new_epoch http now m w) as [[r m'] w']. simpl in *.
      rewrite Hc. repeat split.
      constructor; [|constructor]. simpl. intros id Hid.
      destruct (Hd id Hid) as [-> _]. reflexivity.
  - pose proof (open_new_epoch_counter now m w) as Hc.
    pose proof (open_new_epoch_document now m w) as Hd.
    destruct (open_new_epoch http now m w) as [[r m'] w']. simpl in *.
    rewrite Hc. repeat split.
    constructor; [|constructor]. simpl. intros id Hid.
    destruct (Hd id Hid) as [-> _]. reflexivity.
  - pose proof (process_proof_counter now proof m w) as Hc.
    destruct (process_proof http now proof m w) as [[r m'] w']. simpl in *.
    repeat split; [lia | constructor].
  - destruct (seal_current_epoch http now m w) as [r w']. simpl.
    repeat split; [lia | constructor].
Qed.

Lemma run_counter (calls : list Call) (m : EpochManager) (w : @World store) :
  let '(o, m', _) := run http calls m w in
  epoch_number m' = (epoch_number m + Z.of_nat (length o))%Z /\
  map snd o = map (fun k => (epoch_number m + Z.of_nat k)%Z) (seq 1 (length o)) /\
  Forall (fun o => forall id, fst o = Ok id -> id = "epoch-" +:+ format_04d (snd o)) o.
Proof.
  revert m w. induction calls as [|c calls IH]; intros m w; simpl.
  - repeat split; [lia | constructor].
  - pose proof (call_counter c m w) as Hc.
    destruct (call http c m w) as [[o1 m1] w1].
    specialize (IH m1 w1).
    destruct (run http calls m1 w1) as [[o2 m2] w2].
    destruct Hc as (Hn1 & Hs1 & Hf1). destruct IH as (Hn2 & Hs2 & Hf2).
    repeat split.
    + rewrite Hn2, Hn1, length_app. lia.
    + rewrite List.map_app, List.length_app, List.seq_app, List.map_app.
      rewrite <- Hs1. f_equal. rewrite Hs2, Hn1.
      replace (1 + length o1)%nat with (length o1 + 1)%nat by lia.
      apply map_seq_shift.
    + apply Forall_app. split; assumption.
Qed.

End EpochNumbering.

(** [ensure_active_epoch] is the call the runs record as
    [CallEnsureActive]. *)
Lemma ensure_active_epoch_call {store : Type}
    (http : Request -> store -> option Response * store)
    (now : Z) (m : EpochManager) (w : @World store) :
  snd (fst (ensure_active_epoch http now m w)) = snd (fst (call http (CallEnsureActive now) m w)) /\
  snd (ensure_active_epoch http now m w) = snd (call http (CallEnsureActive now) m w).
Proof.
  unfold ensure_active_epoch, call. destruct (current_epoch m); [split; reflexivity|].
  destruct (open_new_epoch http now m w) as [[r m'] w']. split; reflexivity.
Qed.

(** Below 10000 the number in an epoch identifier has exactly four
    digits. *)
Lemma format_04d_four_digits (n : Z) :
  (0 <= n < 10000)%Z -> String.length (format_04d n) = 4%nat.
Proof.
  intros Hn.
  assert (Hall : forallb (fun k => Nat.eqb (String.length (format_04d (Z.of_nat k))) 4)
                         (seq 0 (Z.to_nat 10000)) = true) by (vm_compute; reflexivity).
  rewrite forallb_forall in Hall.
  specialize (Hall (Z.to_nat n)). rewrite Z2Nat.id in Hall by lia.
  apply Nat.eqb_eq, Hall, in_seq. lia.
Qed.

(** C6: along any run that starts from a fresh manager, the i-th call of
    [open_new_epoch] leaves [epoch_number = i] (one more at each call,
    starting from 1, hence strictly increasing), and an epoch it opens
    has [epoch_id = "epoch-" + f"{epoch_number:04d}"] and
    [name = NATO_ALPHABET[epoch_number mod 26]]; the first epoch opened is
    [epoch-0001], named [Bravo]. *)
Theorem epoch_numbering {store : Type}
    (http : Request -> store -> option Response * store)
    (config : MerlinConfig) (signer : MerlinSigner) (w0 : @World store)
    (calls : list Call) :
  let '(opened, m, w) := run http calls (new_manager config signer) w0 in
  (* the counter after each call of open_new_epoch: 1, 2, 3, ... *)
  map snd opened = map Z.of_nat (seq 1 (length opened)) /\
  epoch_number m = Z.of_nat (length opened) /\
  StronglySorted Z.lt (map snd opened) /\
  (* the identifier each successful call returned *)
  Forall (fun o => forall id, fst o = Ok id -> id = "epoch-" +:+ format_04d (snd o))
         opened /\
  (* the epoch the next call opens *)
  (forall now id,
     fst (fst (open_new_epoch http now m w)) = Ok id ->
     let m' := snd (fst (open_new_epoch http now m w)) in
     epoch_number m' = (epoch_number m + 1)%Z /\
     id = "epoch-" +:+ format_04d (epoch_number m') /\
     exists doc name,
       current_epoch m' = Some doc /\
       dict_get "epoch_number" doc = JInt (epoch_number m') /\
       dict_get "epoch_id" doc = JStr id /\
       dict_get "name" doc = JStr name /\
       nth_error NATO_ALPHABET (Z.to_nat (epoch_number m' mod 26)) = Some name) /\
  (* the first epoch *)
  (forall now id,
     fst (fst (open_new_epoch http now (new_manager config signer) w0)) = Ok id ->
     id = "epoch-0001" /\
     exists doc,
       current_epoch (snd (fst (open_new_epoch http now (new_manager config signer) w0)))
         = Some doc /\
       dict_get "epoch_number" doc = JInt 1 /\
       dict_get "epoch_id" doc = JStr "epoch-0001" /\
       dict_get "name" doc = JStr "Bravo").
Proof.
  pose proof (run_counter http calls (new_manager config signer) w0) as Hrun.
  destruct (run http calls (new_manager config signer) w0) as [[opened m] w].
  destruct Hrun as (Hn & Hs & Hf). simpl in Hn, Hs.
  assert (Hs' : map snd opened = map Z.of_nat (seq 1 (length opened))).
  { rewrite Hs. apply map_ext. intros k. lia. }
  split; [exact Hs'|]. split; [lia|]. split; [|split; [exact Hf|split]].
  - rewrite Hs'. generalize 1%nat. generalize (length opened). clear.
    induction n as [|n IH]; intros k; simpl; constructor; [apply IH|].
    apply List.Forall_forall. intros x Hx. apply in_map_iff in Hx as (j & <- & Hj).
    apply in_seq in Hj. lia.
  - intros now id Hid.
    pose proof (open_new_epoch_counter http now m w) as Hc.
    destruct (open_new_epoch_document http now m w id Hid)
      as (Hid' & _ & _ & _ & doc & Hdoc & Hnum & Heid & Hname & _).
    simpl. rewrite Hc. repeat split; try assumption.
    exists doc, (get_epoch_name (epoch_number m + 1)).
    repeat split; try assumption.
    + rewrite Heid, Hid'. reflexivity.
    + apply get_epoch_name_nato.
  - intros now id Hid.
    destruct (open_new_epoch_document http now _ w0 id Hid)
      as (Hid' & _ & _ & _ & doc & Hdoc & Hnum & Heid & Hname & _).
    split; [exact Hid'|]. exists doc. repeat split; assumption.
Qed.

(** The first epoch, run against the example store. *)
Example first_epoch_is_bravo :
  let '(opened, m, _) :=
    run example_http [CallEnsureActive 1700000000000000]
      (new_manager default_config example_signer) (empty_store, []) in
  opened = [(Ok "epoch-0001", 1%Z)] /\
  option_map (dict_get "name") (current_epoch m) = Some (JStr "Bravo").
Proof. vm_compute. split; reflexivity. Qed.

(** ** What the publisher sends *)

Section PublisherFacts.

Context {store : Type}.
Variable http : Request -> store -> option Response * store.

Lemma post_trace (r : Request) (w : @World store) :
  snd (snd (post http r w)) = snd w ++ [r].
Proof. unfold post. destruct (http r (fst w)). reflexivity. Qed.

(** Every request of [publish_snapshot] comes after the [add] of the
    serialized document. *)
Lemma publish_snapshot_trace (data : dict) (directory : string) (snapshot_id : json)
    (w : @World store) :
  exists rest,
    snd (snd (publish_snapshot http data directory snapshot_id w)) =
    snd w ++ Add (py_format snapshot_id +:+ ".json") (dumps (JDict data)) :: rest.
Proof.
  unfold publish_snapshot.
  pose proof (post_trace (Add (py_format snapshot_id +:+ ".json") (dumps (JDict data))) w) as H1.
  destruct (post http (Add _ _) w) as [r_add w1]. simpl in H1.
  destruct r_add as [resp|]; [|exists []; exact H1].
  destruct (negb (resp_status resp =? 200)%Z); [exists []; exact H1|].
  destruct (resp_json resp) as [[| | | | | |result]|]; try (exists []; exact H1).
  destruct (dict_lookup "Hash" result) as [cid|]; [|exists []; exact H1].
  match goal with |- context [post http (FilesRm ?p) w1] =>
    pose proof (post_trace (FilesRm p) w1) as H2;
    destruct (post http (FilesRm p) w1) as [r_rm w2] end.
  match goal with |- context [post http (FilesCp ?p) w2] =>
    pose proof (post_trace (FilesCp p) w2) as H3;
    destruct (post http (FilesCp p) w2) as [r_cp w3] end.
  simpl in H2, H3.
  destruct r_cp as [resp_cp|].
  - pose proof (post_trace (PinAdd cid) w3) as H4.
    destruct (post http (PinAdd cid) w3) as [r_pin w4]. simpl in *.
    eexists. rewrite H4, H3, H2, H1, <- !app_assoc. reflexivity.
  - simpl. eexists. rewrite H3, H2, H1, <- !app_assoc. reflexivity.
Qed.

Lemma pubsub_publish_trace (topic : string) (data : dict) (w : @World store) :
  snd (pubsub_publish http topic data w) = snd w ++ [PubsubPub topic data].
Proof. apply post_trace. Qed.

(** When the sealed document can be computed, the first thing
    [seal_current_epoch] does to the world is to add the serialized,
    signed document. *)
Lemma seal_current_epoch_trace (now : Z) (m : EpochManager) (w : @World store)
    (epoch : dict) (s : Settlements) (root : string) (doc : dict) :
  current_epoch m = Some epoch -> epoch <> [] ->
  seal_document now m epoch = Ok (s, root, doc) ->
  let sealed := sign_and_add (signer m) doc in
  exists rest,
    snd (snd (seal_current_epoch http now m w)) =
    snd w ++
    Add (py_format (dict_get_default "epoch_id" (JStr "unknown") sealed) +:+ ".json")
        (dumps (JDict sealed)) :: rest.
Proof.
  intros Hcur Hne Hdoc. unfold seal_current_epoch. rewrite Hcur.
  destruct epoch as [|kv epoch]; [contradiction|]. rewrite Hdoc.
  unfold publish_epoch.
  match goal with |- context [publish_snapshot http ?d ?dir ?i w] =>
    destruct (publish_snapshot_trace d dir i w) as [rest Hrest];
    destruct (publish_snapshot http d dir i w) as [r w1] end.
  simpl in Hrest. destruct r as [cid|e]; simpl.
  - rewrite pubsub_publish_trace, Hrest, <- app_assoc. simpl. eexists. reflexivity.
  - eexists. exact Hrest.
Qed.

End PublisherFacts.

(** ** Updating dictionaries *)

Lemma dict_lookup_set (k k' : string) (v : json) (d : dict) :
  dict_lookup k (dict_set k' v d) =
  if String.eqb k k' then Some v else dict_lookup k d.
Proof.
  induction d as [|[k0 v0] d IH]; simpl.
  - reflexivity.
  - destruct (String.eqb_spec k' k0) as [->|Hne]; simpl.
    + destruct (String.eqb k k0); reflexivity.
    + rewrite IH. destruct (String.eqb_spec k k0) as [->|Hne'].
      * destruct (String.eqb_spec k0 k'); [congruence | reflexivity].
      * reflexivity.
Qed.

Lemma dict_lookup_remove (k k' : string) (d : dict) :
  dict_lookup k (dict_remove k' d) =
  if String.eqb k k' then None else dict_lookup k d.
Proof.
  unfold dict_remove. induction d as [|[k0 v0] d IH]; simpl.
  - destruct (String.eqb k k'); reflexivity.
  - destruct (String.eqb_spec k0 k') as [->|Hne]; simpl.
    + rewrite IH. destruct (String.eqb_spec k k'); reflexivity.
    + rewrite IH. destruct (String.eqb_spec k k0) as [->|Hne'].
      * destruct (String.eqb_spec k0 k'); [congruence | reflexivity].
      * reflexivity.
Qed.

Lemma dict_get_set (k k' : string) (v : json) (d : dict) :
  dict_get k (dict_set k' v d) = if String.eqb k k' then v else dict_get k d.
Proof.
  unfold dict_get. rewrite dict_lookup_set. destruct (String.eqb k k'); reflexivity.
Qed.

Lemma dict_get_remove (k k' : string) (d : dict) :
  dict_get k (dict_remove k' d) = if String.eqb k k' then JNull else dict_get k d.
Proof.
  unfold dict_get. rewrite dict_lookup_remove. destruct (String.eqb k k'); reflexivity.
Qed.

(** [sign_and_add] only touches ["sig"]. *)
Lemma sign_and_add_get (sg : MerlinSigner) (d : dict) (k : string) :
  k <> "sig" -> dict_get k (sign_and_add sg d) = dict_get k d.
Proof.
  intros Hk. unfold sign_and_add, dict_update. simpl. rewrite dict_get_set.
  destruct (String.eqb_spec k "sig"); [contradiction | reflexivity].
Qed.

Lemma startswith_0x_append (s : string) : startswith "0x" ("0x" +:+ s) = true.
Proof.
  unfold startswith. simpl.
  destruct (ascii_dec "0" "0"); [|congruence].
  destruct (ascii_dec "x" "x"); [|congruence].
  destruct s; reflexivity.
Qed.

Lemma sign_and_add_sig (sg : MerlinSigner) (d : dict) :
  exists sig, dict_get "sig" (sign_and_add sg d) = JStr sig /\
              startswith "0x" sig = true /\
              (sig = sign_snapshot sg d \/ sig = "0x" +:+ sign_snapshot sg d).
Proof.
  unfold sign_and_add, dict_update. simpl. rewrite dict_get_set. simpl.
  destruct (startswith "0x" (sign_snapshot sg d)) eqn:E.
  - eexists. split; [reflexivity|]. split; [exact E | left; reflexivity].
  - eexists. split; [reflexivity|].
    split; [apply startswith_0x_append | right; reflexivity].
Qed.

(** ** C9: sealing an epoch without proofs *)

Lemma example_manager_epoch : current_epoch example_manager = Some example_epoch.
Proof. vm_compute. reflexivity. Qed.

(** C9: sealing an epoch whose accumulator is empty produces, signs and
    publishes a document with [status = "sealed"], [jobs_count = 0],
    [proofs_count = 0], [total_volume_usdc = "0.00"], a [merkle_root] of
    ["0x"] and 64 zeros, an empty [proofs] list and settlements with
    [total_volume = 0] and [provider_count = 0]. *)
Theorem seal_empty_epoch {store : Type}
    (http : Request -> store -> option Response * store)
    (now : Z) (m : EpochManager) (w : @World store) (epoch : dict) :
  current_epoch m = Some epoch -> epoch <> [] -> current_proofs m = [] ->
  exists s doc,
    seal_document now m epoch = Ok (s, "0x" +:+ zeros 64, doc) /\
    total_volume s = 0%float /\ providers s = [] /\ provider_count s = 0%Z /\
    dict_get "status" doc = JStr "sealed" /\
    dict_get "jobs_count" doc = JInt 0 /\
    dict_get "proofs_count" doc = JInt 0 /\
    dict_get "total_volume_usdc" doc = JStr "0.00" /\
    dict_get "merkle_root" doc = JStr ("0x" +:+ zeros 64) /\
    dict_get "proofs" doc = JList [] /\
    dict_get "settlements" doc = settlements_json s /\
    dict_get "total_volume" (match settlements_json s with JDict d => d | _ => [] end)
      = JFloat 0 /\
    dict_get "provider_count" (match settlements_json s with JDict d => d | _ => [] end)
      = JInt 0 /\
    (* the sealed document is signed and published as it is *)
    let sealed := sign_and_add (signer m) doc in
    (forall k, k <> "sig" -> dict_get k sealed = dict_get k doc) /\
    exists rest,
      requests_since w (snd (seal_current_epoch http now m w)) =
      Add (py_format (dict_get_default "epoch_id" (JStr "unknown") sealed) +:+ ".json")
          (dumps (JDict sealed)) :: rest.
Proof.
  intros Hcur Hne Hempty.
  unfold seal_document. rewrite Hempty. simpl.
  eexists. eexists. split; [reflexivity|].
  unfold sealed_epoch_doc, dict_update. simpl fold_left.
  repeat (rewrite ?dict_get_remove, ?dict_get_set; simpl).
  repeat (split; [reflexivity|]).
  split; [intros k Hk; apply sign_and_add_get; exact Hk|].
  match goal with |- context [sign_and_add _ ?d] =>
    assert (Hdoc : seal_document now m epoch =
                   Ok ({| total_volume := 0; provider_pool := 0 * provider_share (config m);
                          network_ops := 0 * network_ops_share (config m);
                          providers := []; provider_count := 0 |}, zero_root, d))
  end.
  { unfold seal_document. rewrite Hempty. reflexivity. }
  destruct (seal_current_epoch_trace http now m w epoch _ _ _ Hcur Hne Hdoc) as [rest Hrest].
  exists rest. unfold requests_since. rewrite Hrest.
  rewrite skipn_app, skipn_all, Nat.sub_diag. reflexivity.
Qed.

Lemma seal_empty_epoch_witness :
  current_epoch example_manager = Some example_epoch /\
  example_epoch <> [] /\
  current_proofs example_manager = [] /\
  exists s doc,
    seal_document (example_start + 3600000000) example_manager example_epoch
      = Ok (s, "0x" +:+ zeros 64, doc) /\
    dict_get "status" doc = JStr "sealed" /\
    dict_get "total_volume_usdc" doc = JStr "0.00".
Proof.
  assert (H1 : current_epoch example_manager = Some example_epoch)
    by (vm_compute; reflexivity).
  assert (H2 : example_epoch <> []) by (vm_compute; discriminate).
  assert (H3 : current_proofs example_manager = []) by (vm_compute; reflexivity).
  repeat split; try assumption.
  destruct (seal_empty_epoch example_http (example_start + 3600000000)
              example_manager example_world example_epoch H1 H2 H3)
    as (s & doc & Hdoc & _ & _ & _ & Hstatus & _ & _ & Hvol & _).
  exists s, doc. repeat split; assumption.
Defined.

(** ** The two serializers agree *)

Section JsonInduction.

Variable P : json -> Prop.
Hypothesis Hnull : P JNull.
Hypothesis Hbool : forall b, P (JBool b).
Hypothesis Hint : forall n, P (JInt n).
Hypothesis Hfloat : forall f, P (JFloat f).
Hypothesis Hstr : forall s, P (JStr s).
Hypothesis Hlist : forall l, Forall P l -> P (JList l).
Hypothesis Hdict : forall d, Forall (fun kv => P (snd kv)) d -> P (JDict d).

Fixpoint json_nested_ind (v : json) : P v :=
  match v with
  | JNull => Hnull
  | JBool b => Hbool b
  | JInt n => Hint n
  | JFloat f => Hfloat f
  | JStr s => Hstr s
  | JList l =>
      Hlist l ((fix go (l : list json) : Forall P l :=
                  match l with
                  | [] => @List.Forall_nil _ P
                  | x :: r => @List.Forall_cons _ P x r (json_nested_ind x) (go r)
                  end) l)
  | JDict d =>
      Hdict d ((fix go (d : dict) : Forall (fun kv => P (snd kv)) d :=
                  match d with
                  | [] => @List.Forall_nil _ _
                  | kv :: r => @List.Forall_cons _ (fun kv => P (snd kv)) kv r (json_nested_ind (snd kv)) (go r)
                  end) d)
  end.

End JsonInduction.

Lemma insert_sorted_map {A B : Type} (leA : A -> A -> bool) (leB : B -> B -> bool)
    (f : A -> B) (x : A) (l : list A) :
  (forall a b, leB (f a) (f b) = leA a b) ->
  map f (insert_sorted leA x l) = insert_sorted leB (f x) (map f l).
Proof.
  intros Hf. induction l as [|y l IH]; simpl; [reflexivity|].
  rewrite Hf. destruct (leA x y); simpl; [reflexivity|]. rewrite IH. reflexivity.
Qed.

(** Sorting commutes with a map that respects the order. *)
Lemma py_sorted_map {A B : Type} (leA : A -> A -> bool) (leB : B -> B -> bool)
    (f : A -> B) (l : list A) :
  (forall a b, leB (f a) (f b) = leA a b) ->
  map f (py_sorted leA l) = py_sorted leB (map f l).
Proof.
  intros Hf. induction l as [|x l IH]; simpl; [reflexivity|].
  rewrite (insert_sorted_map leA leB f _ _ Hf), IH. reflexivity.
Qed.

Lemma key_le_total {B : Type} (a b : string * B) :
  key_le a b = true \/ key_le b a = true.
Proof. apply String.leb_total. Qed.

Lemma py_sorted_key_idempotent {B : Type} (l : list (string * B)) :
  py_sorted key_le (py_sorted key_le l) = py_sorted key_le l.
Proof. apply py_sorted_of_Sorted, py_sorted_Sorted, key_le_total. Qed.

(** In [dumps], rendering the values and then ordering the items is the
    same as ordering the items ([sorted(d.items())]) and then rendering
    them. *)
Lemma dumps_dict_sorted_first (d : dict) :
  dumps (JDict d) =
  "{" +:+
  String.concat ","
    (map (fun kv => encode_basestring_ascii (fst kv) +:+ ":" +:+ dumps (snd kv))
         (py_sorted key_le d))
  +:+ "}".
Proof.
  simpl. do 3 f_equal.
  rewrite <- (py_sorted_map key_le key_le (fun kv => (fst kv, dumps (snd kv))))
    by reflexivity.
  rewrite map_map. reflexivity.
Qed.

Lemma sort_keys_recursive_dict_sorted_first (d : dict) :
  sort_keys_recursive (JDict d) =
  JDict (map (fun kv => (fst kv, sort_keys_recursive (snd kv))) (py_sorted key_le d)).
Proof.
  simpl. f_equal. symmetry. apply py_sorted_map. reflexivity.
Qed.

(** [json.dumps(..., sort_keys=True)] does not see the difference made by
    [sort_keys_recursive]. *)
Lemma dumps_sort_keys_recursive (v : json) : dumps (sort_keys_recursive v) = dumps v.
Proof.
  induction v as [ | | | | |l IH|d IH] using json_nested_ind; try reflexivity.
  - simpl. do 3 f_equal. rewrite map_map. apply map_ext_Forall. exact IH.
  - simpl. do 3 f_equal.
    rewrite (py_sorted_map key_le key_le (fun kv => (fst kv, dumps (snd kv))))
      by reflexivity.
    rewrite py_sorted_key_idempotent, map_map. f_equal.
    apply (f_equal (py_sorted key_le)).
    apply map_ext_Forall. eapply List.Forall_impl; [|exact IH].
    intros kv Hkv. simpl. rewrite Hkv. reflexivity.
Qed.

(** The publisher's serialization of a document is the codec's canonical
    form of it. *)
Lemma canonical_json_is_dumps (v : json) : canonical_json v = dumps v.
Proof. apply dumps_sort_keys_recursive. Qed.

(** ** Signing *)

Lemma dict_remove_set (k : string) (v : json) (d : dict) :
  dict_remove k (dict_set k v d) = dict_remove k d.
Proof.
  unfold dict_remove. induction d as [|[k0 v0] d IH]; simpl.
  - rewrite String.eqb_refl. reflexivity.
  - destruct (String.eqb_spec k k0) as [->|Hne]; simpl.
    + rewrite String.eqb_refl. reflexivity.
    + rewrite IH. reflexivity.
Qed.

Lemma dict_remove_idempotent (k : string) (d : dict) :
  dict_remove k (dict_remove k d) = dict_remove k d.
Proof.
  unfold dict_remove. induction d as [|[k0 v0] d IH]; simpl; [reflexivity|].
  destruct (negb (k0 =? k)%string) eqn:E; simpl; [rewrite E|]; rewrite IH; reflexivity.
Qed.

(** Removing the signature from a signed document gives back what was
    signed. *)
Lemma sign_and_add_remove (sg : MerlinSigner) (d : dict) :
  dict_remove "sig" (sign_and_add sg d) = dict_remove "sig" d.
Proof. unfold sign_and_add, dict_update. simpl. apply dict_remove_set. Qed.

Lemma snapshot_message_signed (sg : MerlinSigner) (d : dict) :
  snapshot_message (sign_and_add sg d) = snapshot_message d.
Proof. unfold snapshot_message. rewrite sign_and_add_remove. reflexivity. Qed.

Lemma sign_and_add_has_sig (sg : MerlinSigner) (d : dict) :
  dict_has "sig" (sign_and_add sg d) = true.
Proof.
  unfold sign_and_add, dict_update, dict_has. simpl.
  rewrite dict_lookup_set. reflexivity.
Qed.

(** ** Hexadecimal round trip *)

Lemma fromhex_hex_cons (b : byte) (bs : list byte) :
  Hex.fromhex (Hex.hex (b :: bs)) = option_map (cons b) (Hex.fromhex (Hex.hex bs)).
Proof. destruct b; reflexivity. Qed.

(** [bytes.fromhex(b.hex()) == b] *)
Lemma fromhex_hex (bs : list byte) : Hex.fromhex (Hex.hex bs) = Some bs.
Proof.
  induction bs as [|b bs IH]; [reflexivity|].
  rewrite fromhex_hex_cons, IH. reflexivity.
Qed.

(** A hexadecimal string has no ["0x"] in front. *)
Lemma hex_not_prefixed (bs : list byte) : startswith "0x" (Hex.hex bs) = false.
Proof. destruct bs as [|b bs]; [reflexivity|]. destruct b; reflexivity. Qed.

Lemma sign_and_add_sig_value (sg : MerlinSigner) (d : dict) :
  dict_get "sig" (sign_and_add sg d)
  = JStr ("0x" +:+ Hex.hex (account_sign sg (snapshot_digest d))).
Proof.
  unfold sign_and_add, dict_update. simpl. rewrite dict_get_set. simpl.
  unfold sign_snapshot. rewrite hex_not_prefixed. reflexivity.
Qed.

(** A document signed by [sign_and_add] passes [verify_signature] against
    the signer's address, provided the library recovers the signer of
    its own signatures and accepts the signer's address. *)
Lemma signed_document_verifies (sg : MerlinSigner) (d : dict)
    (recover_message : list byte -> list byte -> Result string)
    (to_checksum_address : string -> Result string) (a sig : string) :
  recover_message (snapshot_digest d) (account_sign sg (snapshot_digest d))
    = Ok (address sg) ->
  to_checksum_address (address sg) = Ok a ->
  dict_get "sig" (sign_and_add sg d) = JStr sig ->
  verify_signature recover_message to_checksum_address (sign_and_add sg d) sig (address sg)
    = true.
Proof.
  intros Hrec Hsum Hsig. rewrite sign_and_add_sig_value in Hsig. injection Hsig as <-.
  unfold verify_signature. rewrite startswith_0x_append.
  assert (Hdrop : forall h, str_drop 2 ("0x" +:+ h) = h) by reflexivity.
  rewrite Hdrop, fromhex_hex.
  unfold snapshot_digest at 1. rewrite snapshot_message_signed.
  fold (snapshot_digest d). rewrite Hrec, Hsum. apply String.eqb_refl.
Qed.

(** ** C5: what a seal publishes and what its signature covers *)

Lemma seal_document_inv (now : Z) (m : EpochManager) (epoch : dict)
    (s : Settlements) (root : string) (doc : dict) :
  seal_document now m epoch = Ok (s, root, doc) ->
  _compute_settlements (config m) (current_proofs m) = Ok s /\
  doc = sealed_epoch_doc epoch (timestamp_of now)
          (Z.of_nat (length (current_proofs m))) s root
          (map (fun p => proof_id_of "" (item_proof p)) (current_proofs m)).
Proof.
  unfold seal_document.
  destruct (_compute_settlements (config m) (current_proofs m)) as [s'|]; simpl;
    [|discriminate].
  match goal with |- context [rbind ?r _] => destruct r as [root'|]; simpl; [|discriminate] end.
  intros [= <- <- <-]. split; reflexivity.
Qed.

Lemma sealed_epoch_doc_status (epoch : dict) (ts n : Z) (s : Settlements)
    (root : string) (cids : list json) :
  dict_get "status" (sealed_epoch_doc epoch ts n s root cids) = JStr "sealed" /\
  dict_has "sig" (sealed_epoch_doc epoch ts n s root cids) = false.
Proof.
  unfold sealed_epoch_doc, dict_update, dict_has. simpl fold_left.
  rewrite dict_lookup_remove. simpl. split; [|reflexivity].
  repeat (rewrite ?dict_get_remove, ?dict_get_set; simpl). reflexivity.
Qed.

Lemma dict_remove_absent (k : string) (d : dict) :
  dict_has k d = false -> dict_remove k d = d.
Proof.
  unfold dict_has, dict_remove. induction d as [|[k0 v0] d IH]; simpl; [reflexivity|].
  rewrite String.eqb_sym.
  destruct (String.eqb k0 k); simpl; [discriminate|].
  intros H. rewrite IH; [reflexivity | exact H].
Qed.

Lemma example_seal_document :
  exists s doc,
    seal_document (example_start + 3600000000) example_manager example_epoch
      = Ok (s, zero_root, doc).
Proof. vm_compute. eexists. eexists. reflexivity. Qed.

(** C5, as stated, fails: the bytes published for the sealed epoch
    [epoch-0001] carry the ["sig"] member, the bytes the signature was
    computed over do not, so the two differ (by the 141 characters of that
    member). *)
Lemma published_bytes_are_not_the_signed_bytes :
  let now := (example_start + 3600000000)%Z in
  let sealed :=
    match seal_document now example_manager example_epoch with
    | Ok (_, _, doc) => sign_and_add example_signer doc
    | Raise _ => []
    end in
  hd_error (requests_since example_world
              (snd (seal_current_epoch example_http now example_manager example_world)))
    = Some (Add "epoch-0001.json" (dumps (JDict sealed))) /\
  String.eqb (dumps (JDict sealed)) (snapshot_message sealed) = false /\
  String.length (dumps (JDict sealed)) =
    (String.length (snapshot_message sealed) + 141)%nat.
Proof. vm_compute. repeat split; reflexivity. Qed.

(** C5 (amended): after a seal publish, the bytes added to the store are
    the canonical JSON of the signed document (the publisher's own
    serialization and the codec's [canonical_json] coincide); that
    document has [status = "sealed"] and a ["sig"] which is the
    controller's signature of the Keccak digest of the canonical JSON of
    the document without ["sig"]; [verify_signature] recomputes that
    digest from the published document and accepts the signature
    whenever the signing library recovers the signer of its own
    signatures; so the published bytes are the signed bytes plus the
    ["sig"] member. *)
Theorem seal_publishes_signed_document {store : Type}
    (http : Request -> store -> option Response * store)
    (now : Z) (m : EpochManager) (w : @World store) (epoch : dict)
    (s : Settlements) (root : string) (doc : dict) :
  current_epoch m = Some epoch -> epoch <> [] ->
  seal_document now m epoch = Ok (s, root, doc) ->
  let sealed := sign_and_add (signer m) doc in
  (exists rest,
     requests_since w (snd (seal_current_epoch http now m w)) =
     Add (py_format (dict_get_default "epoch_id" (JStr "unknown") sealed) +:+ ".json")
         (dumps (JDict sealed)) :: rest) /\
  dumps (JDict sealed) = canonical_json (JDict sealed) /\
  dict_get "status" sealed = JStr "sealed" /\
  dict_get "sig" sealed
    = JStr ("0x" +:+ Hex.hex (account_sign (signer m) (snapshot_digest sealed))) /\
  (forall recover_message to_checksum_address a sig,
     recover_message (snapshot_digest sealed)
       (account_sign (signer m) (snapshot_digest sealed)) = Ok (address (signer m)) ->
     to_checksum_address (address (signer m)) = Ok a ->
     dict_get "sig" sealed = JStr sig ->
     verify_signature recover_message to_checksum_address sealed sig
       (address (signer m)) = true) /\
  dict_has "sig" sealed = true /\
  dict_remove "sig" sealed = doc /\
  snapshot_message sealed = canonical_json (JDict doc).
Proof.
  intros Hcur Hne Hdoc sealed.
  destruct (seal_document_inv _ _ _ _ _ _ Hdoc) as [_ Hshape].
  destruct (sealed_epoch_doc_status epoch (timestamp_of now)
              (Z.of_nat (length (current_proofs m))) s root
              (map (fun p => proof_id_of "" (item_proof p)) (current_proofs m)))
    as [Hstatus Hnosig].
  rewrite <- Hshape in Hstatus, Hnosig.
  assert (Hrem : dict_remove "sig" sealed = doc).
  { unfold sealed. rewrite sign_and_add_remove. apply dict_remove_absent, Hnosig. }
  split.
  { destruct (seal_current_epoch_trace http now m w epoch s root doc Hcur Hne Hdoc)
      as [rest Hrest].
    exists rest. unfold requests_since. fold sealed in Hrest. rewrite Hrest.
    rewrite skipn_app, skipn_all, Nat.sub_diag. reflexivity. }
  split; [symmetry; apply canonical_json_is_dumps|].
  split; [unfold sealed; rewrite sign_and_add_get; [exact Hstatus | discriminate]|].
  assert (Hdig : snapshot_digest sealed = snapshot_digest doc).
  { unfold snapshot_digest, sealed. rewrite snapshot_message_signed. reflexivity. }
  split; [rewrite Hdig; apply sign_and_add_sig_value|].
  split.
  { intros recover_message to_checksum_address a sig Hrec Hsum Hsig.
    rewrite Hdig in Hrec. eapply signed_document_verifies; eassumption. }
  split; [apply sign_and_add_has_sig|].
  split; [exact Hrem|].
  unfold snapshot_message. rewrite Hrem. reflexivity.
Qed.

Lemma seal_publishes_signed_document_witness :
  current_epoch example_manager = Some example_epoch /\
  example_epoch <> [] /\
  exists s doc,
    seal_document (example_start + 3600000000) example_manager example_epoch
      = Ok (s, zero_root, doc) /\
    dumps (JDict (sign_and_add example_signer doc))
      = canonical_json (JDict (sign_and_add example_signer doc)) /\
    dict_get "status" (sign_and_add example_signer doc) = JStr "sealed" /\
    snapshot_message (sign_and_add example_signer doc) = canonical_json (JDict doc).
Proof.
  assert (H1 : current_epoch example_manager = Some example_epoch)
    by (vm_compute; reflexivity).
  assert (H2 : example_epoch <> []) by (vm_compute; discriminate).
  repeat split; try assumption.
  destruct example_seal_document as (s & doc & Hdoc).
  exists s, doc. split; [exact Hdoc|].
  destruct (seal_publishes_signed_document example_http (example_start + 3600000000)
              example_manager example_world example_epoch s zero_root doc H1 H2 Hdoc)
    as (_ & Hser & Hstatus & _ & _ & _ & _ & Hmsg).
  repeat split; assumption.
Defined.

(** The copy to the mutable path is requested with the destination only:
    in the [dict] display of its parameters the key ["arg"] is written
    twice, and the source is lost. *)
Example copy_request_has_no_source :
  dict_display [("arg", "/ipfs/bafyX"); ("arg", "/swarmledger/epochs/epoch-0001.json")]
  = [("arg", "/swarmledger/epochs/epoch-0001.json")].
Proof. reflexivity. Qed.

(** ** C8: proofs that are not accepted *)

Section Rejection.

Context {store : Type}.
Variable http : Request -> store -> option Response * store.

(** No partial acceptance: unless [process_proof] returns [True], the
    accumulator, the processed set and the world are what they were. *)
Lemma process_proof_never_partial (now : Z) (proof : json) (m : EpochManager)
    (w : @World store) :
  fst (fst (process_proof http now proof m w)) <> Ok true ->
  snd (fst (process_proof http now proof m w)) = m /\
  snd (process_proof http now proof m w) = w.
Proof.
  pose proof (process_proof_outcome http now proof m w) as H.
  destruct (process_proof http now proof m w) as [[r m'] w']. simpl.
  destruct H as [(_ & -> & ->) | (-> & _)]; [tauto | congruence].
Qed.

(** A document that fails validation, or whose [proof_id] was already
    processed, or whose [sig] is empty, is never accepted. *)
Lemma process_proof_rejects (now : Z) (p : dict) (m : EpochManager) (w : @World store) :
  validate_proof p <> Ok true \/
  (exists s, dict_get "proof_id" p = JStr s /\ s ∈ processed_proof_ids m) \/
  truthy (dict_get "sig" p) = false ->
  fst (fst (process_proof http now (JDict p) m w)) <> Ok true /\
  snd (fst (process_proof http now (JDict p) m w)) = m /\
  snd (process_proof http now (JDict p) m w) = w.
Proof.
  intros Hbad.
  assert (Hr : fst (fst (process_proof http now (JDict p) m w)) <> Ok true).
  { pose proof (process_proof_outcome http now (JDict p) m w) as H.
    destruct (process_proof http now (JDict p) m w) as [[r m'] w']. simpl.
    destruct H as [(Hr & _) | (-> & p' & s & job & Hp & Hid & Hnew & Hv & _)];
      [exact Hr|].
    injection Hp as <-. exfalso.
    destruct Hbad as [Hbad | [(s' & Hs' & Hin) | Hsig]].
    - contradiction.
    - rewrite Hid in Hs'. injection Hs' as <-. contradiction.
    - apply validate_proof_accepts in Hv as (_ & Hreq & _).
      destruct (Hreq "sig" ltac:(simpl; tauto)) as (sg & Hsg & Hne).
      rewrite Hsg in Hsig. simpl in Hsig.
      destruct (String.eqb_spec sg ""); [contradiction | discriminate]. }
  split; [exact Hr|]. apply process_proof_never_partial. exact Hr.
Qed.

(** When validation returns [False] and the [proof_id] is hashable,
    [process_proof] returns [False]. *)
Lemma process_proof_returns_false (now : Z) (p : dict) (m : EpochManager)
    (w : @World store) :
  validate_proof p = Ok false ->
  (forall l, proof_id_of "unknown" p <> JList l) ->
  (forall d, proof_id_of "unknown" p <> JDict d) ->
  process_proof http now (JDict p) m w = (Ok false, m, w).
Proof.
  intros Hv Hl Hd. unfold process_proof. rewrite Hv.
  destruct (proof_id_of "unknown" p) as [| | | |s|l|d];
    try reflexivity; try (destruct (bool_decide _); reflexivity).
  - exfalso. eapply Hl. reflexivity.
  - exfalso. eapply Hd. reflexivity.
Qed.

End Rejection.

(** C8: a proof document whose [job_cid] is the number 5 fails the schema
    ([job_cid] must be a string), yet [process_proof] does not return
    [False] for it: [validate_proof] records the error and then raises
    [TypeError] when it matches the CID pattern against the number.  The
    accumulator and the processed set are left unchanged. *)
Theorem process_proof_raises_on_non_string_job_cid :
  let p := [ ("type", JStr "proof"); ("proof_id", JStr "p1"); ("job_cid", JInt 5) ] in
  required_string_errors p =
    [ "job_cid must be a string";
      "missing required field: output_cid"; "missing required field: provider";
      "missing required field: proof_hash"; "missing required field: sig" ] /\
  validate_proof p = Raise TypeError /\
  process_proof example_http example_start (JDict p) example_manager example_world
    = (Raise TypeError, example_manager, example_world).
Proof. vm_compute. repeat split; reflexivity. Qed.

(** The same happens for an unhashable [proof_id], before validation. *)
Example process_proof_raises_on_list_proof_id :
  process_proof example_http example_start
    (example_proof (JList [JStr "p1"]) (JStr "bafyjob1") "alice.eth")
    example_manager example_world
  = (Raise TypeError, example_manager, example_world).
Proof. vm_compute. reflexivity. Qed.

(** ** C10: identifiers that look like hexadecimal and are not *)

Lemma digit_not_space (c : ascii) (v : N) :
  Hex.digit_value c = Some v -> Hex.is_space c = false.
Proof.
  unfold Hex.digit_value, Hex.is_space.
  destruct (48 <=? N_of_ascii c)%N eqn:E1, (N_of_ascii c <=? 57)%N eqn:E2,
           (97 <=? N_of_ascii c)%N eqn:E3, (N_of_ascii c <=? 102)%N eqn:E4,
           (65 <=? N_of_ascii c)%N eqn:E5, (N_of_ascii c <=? 70)%N eqn:E6;
    simpl; try discriminate; intros _;
    rewrite ?N.leb_le, ?N.leb_gt in *;
    (destruct (N.eqb_spec (N_of_ascii c) 32); [lia|]);
    (destruct (9 <=? N_of_ascii c)%N eqn:E7; [|reflexivity]);
    (destruct (N_of_ascii c <=? 13)%N eqn:E8; [|reflexivity]);
    rewrite ?N.leb_le, ?N.leb_gt in *; lia.
Qed.

(** An even number of hexadecimal digits always decodes. *)
Lemma fromhex_even_hex (s : string) :
  Hex.is_even_hex s = true -> exists bs, Hex.fromhex s = Some bs.
Proof.
  enough (H : forall n s, (String.length s <= n)%nat ->
            Hex.is_even_hex s = true -> exists bs, Hex.fromhex s = Some bs)
    by (apply (H (String.length s)); lia).
  clear s. induction n as [|n IH]; intros [|a [|b s]] Hlen; simpl in *;
    try discriminate; try (intros _; eexists; reflexivity); try lia.
  destruct (Hex.digit_value a) as [hi|] eqn:Ha; [|discriminate].
  destruct (Hex.digit_value b) as [lo|] eqn:Hb; [|discriminate].
  intros Hs. rewrite (digit_not_space a hi Ha).
  destruct (IH s ltac:(lia) Hs) as [bs Hbs]. rewrite Hbs. eexists; reflexivity.
Qed.

Lemma leaf_returns_even_hex (x : string) :
  (startswith "0x" x = true -> Hex.is_even_hex (str_drop 2 x) = true) ->
  returns (leaf x).
Proof.
  intros H. unfold leaf. destruct (startswith "0x" x); [|eexists; reflexivity].
  destruct (fromhex_even_hex _ (H eq_refl)) as [bs ->]. eexists; reflexivity.
Qed.

Lemma leaf_raises_bad_hex (x : string) :
  startswith "0x" x = true -> Hex.fromhex (str_drop 2 x) = None -> raises (leaf x).
Proof.
  intros Hp Hh. unfold leaf. rewrite Hp, Hh. eexists; reflexivity.
Qed.

(** C10: [compute_merkle_root] raises [ValueError], instead of returning
    a root, on ["0xzz"], on ["0xabc"], and on every list with an item that
    begins with ["0x"] and whose remainder [bytes.fromhex] refuses; it
    returns a root when every such remainder is an even number of
    hexadecimal digits.  A proof whose [proof_id] is ["0xzz"] passes
    [validate_proof], is accepted by [process_proof], and from then on
    [seal_current_epoch] raises before it publishes anything. *)
Theorem merkle_root_partial_on_bad_hex :
  compute_merkle_root ["0xzz"] = Raise ValueError /\
  compute_merkle_root ["0xabc"] = Raise ValueError /\
  (forall items,
     Exists (fun x => startswith "0x" x = true /\ Hex.fromhex (str_drop 2 x) = None) items ->
     compute_merkle_root items = Raise ValueError) /\
  (forall items,
     Forall (fun x => startswith "0x" x = true -> Hex.is_even_hex (str_drop 2 x) = true)
            items ->
     returns (compute_merkle_root items)) /\
  (let proof := example_proof (JStr "0xzz") (JStr "bafyjob1") "alice.eth" in
   let accepted :=
     process_proof example_http example_start proof example_manager example_world in
   let m := snd (fst accepted) in
   let w := snd accepted in
   (match proof with JDict p => validate_proof p | _ => Raise TypeError end) = Ok true /\
   fst (fst accepted) = Ok true /\
   map (fun i => proof_id_of "" (item_proof i)) (current_proofs m) = [JStr "0xzz"] /\
   seal_current_epoch example_http (example_start + 3600000000) m w
     = (Raise ValueError, w)).
Proof.
  split; [reflexivity|]. split; [reflexivity|]. split; [|split].
  - intros items Hex. apply compute_merkle_root_raises.
    eapply List.Exists_impl; [|exact Hex].
    intros x [Hp Hh]. apply leaf_raises_bad_hex; assumption.
  - intros items Hall. apply compute_merkle_root_returns_iff.
    eapply List.Forall_impl; [|exact Hall].
    intros x Hx. apply leaf_returns_even_hex. exact Hx.
  - vm_compute. repeat split; reflexivity.
Qed.

(** ** C7: the watcher delivers a proof once *)

#[local] Set Warnings "-clear-no-such-hyp".

Section WatcherFacts.

Context {store : Type}.
Variable http : Request -> store -> option Response * store.

Lemma filter_cons_if {A : Type} (f : A -> bool) (a : A) (l : list A) :
  List.filter f (a :: l) = if f a then a :: List.filter f l else List.filter f l.
Proof. reflexivity. Qed.

(** The loop of [poll]: what it returns is what it had, followed by the
    successful fetches; these are new, pairwise distinct, and exactly
    what is added to the seen set; nothing already seen is fetched. *)
Lemma poll_loop_spec (proof_ids : list string) (seen : gset string)
    (acc : list (string * json)) (w : @World store) :
  let '(out, seen', _) := poll_loop http proof_ids seen acc w in
  let fetched := poll_fetches http proof_ids seen w in
  let new := List.filter succeeded fetched in
  out = acc ++ new /\
  NoDup (map fst new) /\
  (forall id, In id (map fst fetched) -> id ∉ seen) /\
  seen' = list_to_set (map fst new) ∪ seen.
Proof.
  revert seen acc w. induction proof_ids as [|id rest IH]; intros seen acc w; simpl.
  - rewrite app_nil_r. split; [reflexivity|]. split; [constructor|].
    split; [tauto | set_solver].
  - destruct (bool_decide (id ∈ seen)) eqn:Hseen; [apply IH|].
    apply bool_decide_eq_false in Hseen.
    destruct (fetch_proof http id w) as [proof w1].
    destruct (truthy proof) eqn:Ht.
    + specialize (IH ({[ id ]} ∪ seen) (acc ++ [(id, proof)]) w1).
      destruct (poll_loop http rest ({[ id ]} ∪ seen) (acc ++ [(id, proof)]) w1)
        as [[out seen'] w'].
      cbv zeta in *. rewrite filter_cons_if.
      replace (succeeded (id, proof)) with true by (symmetry; exact Ht).
      destruct IH as (Hout & Hnd & Hnew & Hseen'). simpl map.
      repeat split.
      * rewrite Hout, <- app_assoc. reflexivity.
      * apply NoDup_cons. split; [|exact Hnd].
        intros Hin. apply list_elem_of_In in Hin. apply (Hnew id); [|set_solver].
        apply in_map_iff in Hin as (a & Ha & Hin).
        apply filter_In in Hin as [Hin _].
        apply in_map_iff. exists a. split; assumption.
      * intros id' [<-|Hin]; [exact Hseen|].
        specialize (Hnew id' Hin). set_solver.
      * rewrite Hseen'. set_solver.
    + specialize (IH seen acc w1).
      destruct (poll_loop http rest seen acc w1) as [[out seen'] w'].
      cbv zeta in *. rewrite filter_cons_if.
      replace (succeeded (id, proof)) with false by (symmetry; exact Ht).
      destruct IH as (Hout & Hnd & Hnew & Hseen'). simpl map.
      repeat split; try assumption.
      intros id' [<-|Hin]; [exact Hseen | apply Hnew; exact Hin].
Qed.

Lemma polls_spec (steps : list (Z * (@World store -> @World store)))
    (pw : ProofWatcher) (w : @World store) :
  let '(delivered, pw', _) := polls http steps pw w in
  let fetched := polls_fetches http steps pw w in
  delivered = List.filter succeeded fetched /\
  NoDup (map fst delivered) /\
  (forall id, In id (map fst fetched) -> id ∉ seen_proofs pw) /\
  seen_proofs pw' = list_to_set (map fst delivered) ∪ seen_proofs pw.
Proof.
  revert pw w. induction steps as [|[now env] rest IH]; intros pw w; simpl.
  - split; [reflexivity|]. split; [constructor|]. split; [tauto | set_solver].
  - unfold poll_with_ids.
    destruct (list_proofs http (env w)) as [ids w0].
    pose proof (poll_loop_spec ids (seen_proofs pw) [] w0) as H1.
    destruct (poll_loop http ids (seen_proofs pw) [] w0) as [[d1 seen1] w1].
    simpl in H1. destruct H1 as (Hd1 & Hnd1 & Hnew1 & Hseen1).
    match goal with |- context [polls http rest ?p w1] =>
      specialize (IH p w1); destruct (polls http rest p w1) as [[d2 pw2] w2] end.
    simpl in IH. destruct IH as (Hd2 & Hnd2 & Hnew2 & Hseen2).
    repeat split.
    + rewrite List.filter_app, <- Hd1, <- Hd2. reflexivity.
    + rewrite map_app. apply NoDup_app.
      split; [rewrite Hd1; exact Hnd1|]. split; [|exact Hnd2].
      intros id Hin1 Hin2. rewrite Hd2 in Hin2.
      apply list_elem_of_In in Hin2.
      apply in_map_iff in Hin2 as (a & Ha & Hin).
      apply filter_In in Hin as [Hin _].
      assert (Hf : In id (map fst (polls_fetches http rest
                {| seen_proofs := seen1;
                   total_seen := total_seen pw + Z.of_nat (length d1);
                   last_poll := now |} w1)))
        by (apply in_map_iff; exists a; split; assumption).
      apply Hnew2 in Hf. simpl in Hf. rewrite Hseen1 in Hf. apply Hf.
      apply elem_of_union_l, elem_of_list_to_set. rewrite <- Hd1. exact Hin1.
    + intros id Hin. rewrite map_app in Hin. apply in_app_or in Hin as [Hin|Hin].
      * apply Hnew1. exact Hin.
      * apply Hnew2 in Hin. rewrite Hseen1 in Hin. set_solver.
    + rewrite Hseen2, Hseen1, map_app, list_to_set_app_L, <- Hd1. set_solver.
Qed.

End WatcherFacts.



(** Two polls of a directory with one proof: the proof is delivered by
    the first poll and not by the second. *)
Example dedup_across_polls :
  let store := {| proof_files := [("p1.json", example_proof (JStr "p1") (JStr "bafyjob1") "alice.eth")];
                  job_blocks := []; added := []; copied := [] |} in
  let '(d1, pw1, w1) := poll example_http 1 (new_watcher 0) (store, []) in
  let '(d2, pw2, w2) := poll example_http 2 pw1 w1 in
  length d1 = 1%nat /\ d2 = [] /\ total_seen pw2 = 1%Z.
Proof. vm_compute. repeat split; reflexivity. Qed.

(** ** C2, C3: settlements *)









Example py_int_of_str_examples :
  map py_int_of_str ["3600"; " 12 "; "1_000"; "-5"; "+7"; "007"; "12.5"; ""; "0x10"; "1__0"]
  = [Some 3600%Z; Some 12%Z; Some 1000%Z; Some (-5)%Z; Some 7%Z; Some 7%Z;
     None; None; None; None].
Proof. vm_compute. reflexivity. Qed.

Example load_config_defaults :
  load_config [("MERLIN_PRIVATE_KEY", "0x01")] = Ok default_config.
Proof. vm_compute. reflexivity. Qed.

(** C3, as stated, fails: with [PROVIDER_SHARE=0.8] (and
    [NETWORK_OPS_SHARE] left at its default 0.25) and one proof for a job
    paying "1.00", [network_ops] is 1.0 * 0.25 = 0.25, not
    1.0 * (1 - 0.8) = 0.19999999999999996. *)
Lemma network_ops_is_not_the_complement :
  let acc := [ example_item "p1" "alice.eth" (JStr "1.00") ] in
  exists config s,
    load_config [("MERLIN_PRIVATE_KEY", "0x01"); ("PROVIDER_SHARE", "0.8")] = Ok config /\
    _compute_settlements config acc = Ok s /\
    PyFloat.repr (total_volume s) = "1.0" /\
    PyFloat.repr (provider_pool s) = "0.8" /\
    PyFloat.repr (network_ops s) = "0.25" /\
    PyFloat.repr (total_volume s * (1 - provider_share config))%float
      = "0.19999999999999996" /\
    PrimFloat.eqb (network_ops s) (total_volume s * (1 - provider_share config))%float
      = false.
Proof.
  eexists. eexists. split; [vm_compute; reflexivity|].
  split; [vm_compute; reflexivity|]. vm_compute. repeat split; reflexivity.
Qed.

(** C3 (amended): for every accumulator and every configuration, the
    settlements computed at seal satisfy
    [provider_pool = total_volume * provider_share] and
    [network_ops = total_volume * network_ops_share], where
    [network_ops_share] is configured on its own (default 0.25);
    [network_ops] is [total_volume * (1 - provider_share)] when the
    configuration has [network_ops_share = 1 - provider_share], as the
    defaults 0.75 and 0.25 do. *)
Theorem settlement_pools
    (config : MerlinConfig) (current_proofs : list Item) (s : Settlements) :
  _compute_settlements config current_proofs = Ok s ->
  provider_pool s = (total_volume s * provider_share config)%float /\
  network_ops s = (total_volume s * network_ops_share config)%float /\
  (network_ops_share config = (1 - provider_share config)%float ->
   network_ops s = (total_volume s * (1 - provider_share config))%float) /\
  network_ops_share default_config = (1 - provider_share default_config)%float.
Proof.
  unfold _compute_settlements.
  destruct (settle_loop (provider_share config) current_proofs 0 [])
    as [[total earnings]|]; simpl; [|discriminate].
  intros [= <-]. simpl. repeat split.
  intros ->. reflexivity.
Qed.

Lemma settlement_pools_witness :
  let acc := [ example_item "p1" "alice.eth" (JStr "1.00") ] in
  exists s,
    _compute_settlements default_config acc = Ok s /\
    provider_pool s = (total_volume s * 0.75)%float /\
    network_ops s = (total_volume s * 0.25)%float /\
    PyFloat.repr (provider_pool s) = "0.75" /\
    PyFloat.repr (network_ops s) = "0.25".
Proof.
  set (acc := [ example_item "p1" "alice.eth" (JStr "1.00") ]).
  assert (Hs : exists s, _compute_settlements default_config acc = Ok s
                         /\ PyFloat.repr (provider_pool s) = "0.75"
                         /\ PyFloat.repr (network_ops s) = "0.25")
    by (eexists; split; [vm_compute; reflexivity|]; vm_compute; split; reflexivity).
  destruct Hs as (s & Hs & Hp & Hn). exists s. split; [exact Hs|].
  destruct (settlement_pools default_config acc s Hs) as (Hpool & Hops & _).
  repeat split; assumption.
Defined.

(** ** The scenarios of the specification, run *)

(** One proof of alice.eth for a job paying "1.00". *)
Example scenario_single_proof :
  exists s root doc,
    seal_after_first_tick
      [("proof-001.json", example_proof (JStr "proof-001") (JStr "bafyjob1") "alice.eth")]
      [("bafyjob1", example_job (JStr "1.00"))]
    = Ok (s, root, doc) /\
    dict_get "total_volume_usdc" doc = JStr "1.00" /\
    dict_get "jobs_count" doc = JInt 1 /\
    PyFloat.repr (provider_pool s) = "0.75" /\
    PyFloat.repr (network_ops s) = "0.25" /\
    map (fun kv => (fst kv, PyFloat.repr (snd kv))) (providers s) = [("alice.eth", "0.75")] /\
    root = "0x" +:+ Hex.hex (keccak (encode_utf8 "proof-001")).
Proof.
  eexists. eexists. eexists. split; [vm_compute; reflexivity|].
  vm_compute. repeat split; reflexivity.
Qed.

(** Two proofs of bob.eth, for jobs paying "0.40" and "0.60". *)
Example scenario_two_proofs_same_provider :
  exists s root doc,
    seal_after_first_tick
      [("a.json", example_proof (JStr "a") (JStr "bafyjob1") "bob.eth");
       ("b.json", example_proof (JStr "b") (JStr "bafyjob2") "bob.eth")]
      [("bafyjob1", example_job (JStr "0.40")); ("bafyjob2", example_job (JStr "0.60"))]
    = Ok (s, root, doc) /\
    dict_get "total_volume_usdc" doc = JStr "1.00" /\
    PyFloat.repr (provider_pool s) = "0.75" /\
    map (fun kv => (fst kv, PyFloat.repr (snd kv))) (providers s) = [("bob.eth", "0.75")] /\
    provider_count s = 1%Z.
Proof.
  eexists. eexists. eexists. split; [vm_compute; reflexivity|].
  vm_compute. repeat split; reflexivity.
Qed.

(** Three proofs, one of them without ["sig"]: the other two are sealed. *)
Example scenario_malformed_proof_dropped :
  exists s root doc,
    seal_after_first_tick
      [("a.json", example_proof (JStr "a") (JStr "bafyjob1") "alice.eth");
       ("b.json",
        match example_proof (JStr "b") (JStr "bafyjob1") "bob.eth" with
        | JDict p => JDict (dict_remove "sig" p)
        | v => v
        end);
       ("c.json", example_proof (JStr "c") (JStr "bafyjob1") "carol.eth")]
      [("bafyjob1", example_job (JStr "0.10"))]
    = Ok (s, root, doc) /\
    dict_get "jobs_count" doc = JInt 2 /\
    dict_get "proofs" doc = JList [JStr "a"; JStr "c"].
Proof.
  eexists. eexists. eexists. split; [vm_compute; reflexivity|].
  vm_compute. repeat split; reflexivity.
Qed.

(** A proof whose [job_cid] is a number ends the iteration with an
    exception; the proofs listed after it were fetched and marked as seen
    by the poll, and are never handed to the epoch manager. *)
Example malformed_proof_ends_the_tick :
  let '(r, pw, m, _) :=
    after_first_tick
      [("a.json", JDict [("type", JStr "proof"); ("proof_id", JStr "a"); ("job_cid", JInt 5)]);
       ("b.json", example_proof (JStr "b") (JStr "bafyjob1") "bob.eth")]
      [("bafyjob1", example_job (JStr "0.10"))] in
  r = Raise TypeError /\
  current_proofs m = [] /\
  bool_decide ("b" ∈ seen_proofs pw) = true.
Proof. vm_compute. repeat split; reflexivity. Qed.

(** * Further properties of the daemon's code *)

(** ** Digests *)

Lemma keccak_round_length (a : list N) (rc : N) :
  length (Keccak.round a rc) = 25%nat.
Proof.
  unfold Keccak.round, Keccak.iota, Keccak.chi.
  destruct (map _ Keccak.indices) as [|a0 a'] eqn:E.
  - apply (f_equal (@length N)) in E. rewrite length_map in E. discriminate E.
  - apply (f_equal (@length N)) in E. rewrite length_map in E. simpl in *. exact (eq_sym E).
Qed.

Lemma keccak_f_length (a : list N) : length (Keccak.keccak_f a) = 25%nat.
Proof.
  unfold Keccak.keccak_f. apply keccak_round_length.
Qed.

Lemma keccak_absorb_length (fuel : nat) (st msg : list N) :
  length st = 25%nat -> length (Keccak.absorb fuel st msg) = 25%nat.
Proof.
  revert st msg. induction fuel as [|fuel IH]; intros st msg Hst; [exact Hst|].
  simpl. destruct (Nat.ltb (length msg) Keccak.rate).
  - apply keccak_f_length.
  - apply IH, keccak_f_length.
Qed.

Lemma bytes_of_lane_length (n : nat) (x : N) : length (Keccak.bytes_of_lane n x) = n.
Proof. revert x. induction n as [|n IH]; intros x; simpl; [reflexivity|]. now rewrite IH. Qed.

(** The digest has 32 bytes, whatever the input. *)
Lemma keccak_length (data : list byte) : length (keccak data) = 32%nat.
Proof.
  unfold keccak, Keccak.keccak256_N. rewrite length_map.
  pose proof (keccak_absorb_length (S (length (map Byte.to_N data)))
                (repeat 0%N 25) (map Byte.to_N data) eq_refl) as H.
  destruct (Keccak.absorb _ _ _) as [|a [|b [|c [|d st]]]]; try discriminate H.
  cbn [firstn flat_map]. rewrite !length_app, !bytes_of_lane_length. reflexivity.
Qed.

Lemma hex_length (bs : list byte) : String.length (Hex.hex bs) = (2 * length bs)%nat.
Proof. induction bs as [|b bs IH]; simpl; [reflexivity|]. rewrite IH. lia. Qed.

(** X1.  [keccak256] and [keccak256_str] always return ["0x"] followed by
    the 64 hexadecimal digits of a 32-byte digest: the text has 66
    characters, and reading the digits back with [bytes.fromhex] gives
    the digest. *)
Theorem keccak256_shape (data : list byte) (s : string) :
  String.length (keccak256 data) = 66%nat /\
  startswith "0x" (keccak256 data) = true /\
  Hex.fromhex (str_drop 2 (keccak256 data)) = Some (keccak data) /\
  length (keccak data) = 32%nat /\
  keccak256_str s = keccak256 (encode_utf8 s).
Proof.
  unfold keccak256. repeat split.
  - change (S (S (String.length (Hex.hex (keccak data)))) = 66%nat).
    rewrite hex_length, keccak_length. reflexivity.
  - apply startswith_0x_append.
  - apply fromhex_hex.
  - apply keccak_length.
Qed.

(** X2.  The leaf [compute_merkle_root] builds for the text digest of an
    item is the leaf it builds for the item itself: an identifier that
    does not start with ["0x"] and the [keccak256_str] of it are two
    different items with the same leaf, and so the same root when either
    is the only item. *)
Theorem leaf_of_digest_is_leaf_of_item (item : string) :
  startswith "0x" item = false ->
  leaf (keccak256_str item) = leaf item /\
  keccak256_str item <> item /\
  compute_merkle_root [keccak256_str item] = compute_merkle_root [item].
Proof.
  intros Hx.
  assert (Hleaf : leaf (keccak256_str item) = leaf item).
  { unfold leaf at 2. rewrite Hx.
    unfold leaf, keccak256_str, keccak256.
    rewrite startswith_0x_append.
    change (str_drop 2 ("0x" +:+ ?h)) with h.
    now rewrite fromhex_hex. }
  split; [exact Hleaf|]. split.
  - intros E. rewrite <- E in Hx. unfold keccak256_str, keccak256 in Hx.
    rewrite startswith_0x_append in Hx. discriminate Hx.
  - rewrite !compute_merkle_root_cons, !sorted_singleton. simpl leaves.
    now rewrite Hleaf.
Qed.

Lemma leaf_of_digest_is_leaf_of_item_witness :
  startswith "0x" "proof-001" = false /\
  leaf (keccak256_str "proof-001") = leaf "proof-001" /\
  compute_merkle_root [keccak256_str "proof-001"] = compute_merkle_root ["proof-001"].
Proof.
  split; [reflexivity|].
  destruct (leaf_of_digest_is_leaf_of_item "proof-001" eq_refl) as (H1 & _ & H3).
  split; [exact H1 | exact H3].
Defined.

(** ** The shape of a Merkle root *)

Lemma pair_level_digests (hs : list (list byte)) :
  Forall (fun h => length h = 32%nat) (pair_level hs).
Proof.
  enough (H : forall n l, (length l <= n)%nat ->
                Forall (fun h => length h = 32%nat) (pair_level l))
    by (apply (H (length hs)); lia).
  induction n as [|n IH]; intros [|a [|b rest]] Hl; simpl in *;
    try constructor; try lia.
  - apply keccak_length.
  - apply IH. lia.
Qed.

Lemma build_tree_digests (fuel : nat) (hs : list (list byte)) :
  Forall (fun h => length h = 32%nat) hs ->
  Forall (fun h => length h = 32%nat) (build_tree fuel hs).
Proof.
  revert hs. induction fuel as [|fuel IH]; intros hs H; simpl; [exact H|].
  destruct (Nat.ltb 1 (length hs)); [|exact H].
  apply IH, pair_level_digests.
Qed.

Lemma build_tree_pairs_digests (fuel : nat) (hs : list (list byte)) :
  (2 <= length hs)%nat -> (1 <= fuel)%nat ->
  Forall (fun h => length h = 32%nat) (build_tree fuel hs).
Proof.
  intros Hl Hf. destruct fuel as [|fuel]; [lia|]. simpl.
  destruct (Nat.ltb_spec 1 (length hs)) as [_|Hc]; [|lia].
  apply build_tree_digests, pair_level_digests.
Qed.

(** X3.  Whenever [compute_merkle_root] returns, and its input is not a
    single ["0x"] item, the root is ["0x"] followed by the 64 hexadecimal
    digits of 32 bytes.  (A single ["0x"] item is returned as its own
    bytes, of whatever length, see [merkle_root_of_single_hex_item].) *)
Theorem merkle_root_is_digest (items : list string) (root : string) :
  compute_merkle_root items = Ok root ->
  (forall x, items = [x] -> startswith "0x" x = false) ->
  exists d, root = "0x" +:+ Hex.hex d /\ length d = 32%nat /\
            String.length root = 66%nat.
Proof.
  intros Hroot Hsingle.
  enough (H : exists d, root = "0x" +:+ Hex.hex d /\ length d = 32%nat).
  { destruct H as (d & -> & Hd). exists d. repeat split; [exact Hd|].
    change (S (S (String.length (Hex.hex d))) = 66%nat).
    rewrite hex_length, Hd. reflexivity. }
  destruct items as [|x [|y rest]].
  - injection Hroot as <-. exists (repeat x00 32). split; reflexivity.
  - rewrite compute_merkle_root_cons, sorted_singleton in Hroot.
    simpl in Hroot. unfold leaf in Hroot. rewrite (Hsingle x eq_refl) in Hroot.
    simpl in Hroot. injection Hroot as <-.
    eexists. split; [reflexivity|]. apply keccak_length.
  - rewrite compute_merkle_root_cons in Hroot.
    destruct (leaves (sorted (x :: y :: rest))) as [hs|e] eqn:Hl; [|discriminate Hroot].
    simpl in Hroot. injection Hroot as <-.
    pose proof (leaves_length _ _ Hl) as Hlen. rewrite sorted_length in Hlen.
    simpl in Hlen.
    destruct (build_tree_root hs ltac:(lia)) as [r Hr].
    pose proof (build_tree_pairs_digests (length hs) hs ltac:(lia) ltac:(lia)) as Hd.
    rewrite Hr in Hd |- *. exists r. split; [reflexivity|].
    now inversion Hd.
Qed.

Lemma merkle_root_is_digest_witness :
  exists root d,
    compute_merkle_root ["proof-a"; "0x01ff"] = Ok root /\
    root = "0x" +:+ Hex.hex d /\ length d = 32%nat /\ String.length root = 66%nat.
Proof.
  destruct (compute_merkle_root ["proof-a"; "0x01ff"]) as [root|e] eqn:E;
    [|vm_compute in E; discriminate E].
  destruct (merkle_root_is_digest ["proof-a"; "0x01ff"] root E) as (d & Hr & Hd & Hl).
  - intros x Hx. discriminate Hx.
  - exists root, d. repeat split; assumption.
Defined.

(** The exception: a single ["0x"] item comes back as it is, so the
    "root" of the one-item list [["0x"]] is the empty byte string. *)
Lemma merkle_root_of_single_hex_item (bs : list byte) :
  compute_merkle_root ["0x" +:+ Hex.hex bs] = Ok ("0x" +:+ Hex.hex bs).
Proof.
  rewrite compute_merkle_root_cons, sorted_singleton. simpl leaves.
  unfold leaf. rewrite startswith_0x_append.
  change (str_drop 2 ("0x" +:+ ?h)) with h. rewrite fromhex_hex. reflexivity.
Qed.

(** ** Duplicating the largest item *)

Lemma leaves_app (l1 l2 : list string) :
  leaves (l1 ++ l2) =
  (try! h1 := leaves l1 in try! h2 := leaves l2 in Ok (h1 ++ h2)).
Proof.
  induction l1 as [|x l1 IH]; simpl.
  - destruct (leaves l2); reflexivity.
  - destruct (leaf x) as [h|e]; simpl; [|reflexivity].
    rewrite IH. destruct (leaves l1) as [h1|e]; simpl; [|reflexivity].
    destruct (leaves l2); reflexivity.
Qed.

(** The loop of [build_tree] needs no more rounds than there are
    hashes: more fuel changes nothing. *)
Lemma build_tree_fuel (f1 f2 : nat) (hs : list (list byte)) :
  (length hs <= f1)%nat -> (length hs <= f2)%nat ->
  build_tree f1 hs = build_tree f2 hs.
Proof.
  revert f2 hs. induction f1 as [|f1 IH]; intros f2 hs H1 H2.
  - destruct hs; [|simpl in H1; lia]. destruct f2; reflexivity.
  - destruct f2 as [|f2].
    + destruct hs; [reflexivity | simpl in H2; lia].
    + simpl. destruct (Nat.ltb_spec 1 (length hs)) as [Hc|Hc]; [|reflexivity].
      pose proof (next_level_length hs Hc). apply IH; lia.
Qed.

Lemma build_tree_S (fuel : nat) (hs : list (list byte)) :
  build_tree (S fuel) hs =
  if Nat.ltb 1 (length hs) then build_tree fuel (pair_level (pad_level hs)) else hs.
Proof. reflexivity. Qed.

Lemma Sorted_app_last (l : list string) (m : string) :
  Sorted str_le l -> (forall x, In x l -> str_le x m) -> Sorted str_le (l ++ [m]).
Proof.
  induction 1 as [|a l Hs IH Hd]; intros Hm; simpl.
  - repeat constructor.
  - constructor.
    + apply IH. intros x Hx. apply Hm. now right.
    + destruct Hd as [|b l Hab]; simpl; constructor; [|exact Hab].
      apply Hm. now left.
Qed.

(** Sorting a list together with a copy of its largest item puts the
    copy last. *)
Lemma sorted_with_largest (items : list string) (m : string) :
  In m items -> (forall x, In x items -> str_le x m) ->
  exists l, sorted items = l ++ [m] /\ sorted (m :: items) = l ++ [m; m].
Proof.
  intros Hin Hmax.
  assert (Hmax' : forall x, In x (sorted items) -> str_le x m).
  { intros x Hx. apply Hmax. now apply sorted_In. }
  assert (Hlast : exists l, sorted items = l ++ [m]).
  { pose proof (sorted_Sorted items) as Hs.
    apply (proj2 (sorted_In m items)) in Hin.
    destruct (sorted items) as [|a l] using rev_ind; [destruct Hin|].
    exists l. f_equal. f_equal.
    clear IHl.
    assert (Ha : str_le a m) by (apply Hmax', in_or_app; right; now left).
    apply in_app_or in Hin. destruct Hin as [Hin|[<-|[]]]; [|reflexivity].
    apply (anti_symm str_le); [exact Ha|].
    apply Sorted_StronglySorted in Hs; [|intros x y z; apply str_le_trans].
    clear -Hs Hin. induction l as [|b l IH]; [destruct Hin|].
    simpl in Hs. inversion Hs as [|? ? Hs' Hall]; subst.
    destruct Hin as [<-|Hin].
    - rewrite List.Forall_forall in Hall. apply Hall, in_or_app. right. now left.
    - now apply IH. }
  destruct Hlast as [l Hl]. exists l. split; [exact Hl|].
  assert (Hperm : Permutation (m :: items) (l ++ [m; m])).
  { change (l ++ [m; m]) with (l ++ [m] ++ [m]). rewrite app_assoc, <- Hl.
    rewrite <- Permutation_cons_append. constructor.
    symmetry. apply sorted_Permutation. }
  rewrite (sorted_perm _ _ Hperm). unfold sorted.
  apply py_sorted_of_Sorted.
  change (Sorted str_le (l ++ [m] ++ [m])). rewrite app_assoc, <- Hl.
  apply Sorted_app_last; [apply sorted_Sorted|].
  exact Hmax'.
Qed.

(** X4.  Appending a copy of the largest item to a list with an odd
    number ([>= 3]) of items does not change the root: the tree builder
    duplicates the last hash of an odd level itself, so the list with
    the copy and the list without it have the same second level. *)
Theorem merkle_root_duplicate_largest (items : list string) (m : string) :
  Nat.odd (length items) = true -> (3 <= length items)%nat ->
  In m items -> (forall x, In x items -> str_le x m) ->
  compute_merkle_root (m :: items) = compute_merkle_root items.
Proof.
  intros Hodd Hlen Hin Hmax.
  destruct (sorted_with_largest items m Hin Hmax) as (l & Hs & Hs').
  pose proof (sorted_length items) as Hsl. rewrite Hs, length_app in Hsl. simpl in Hsl.
  destruct items as [|x items']; [simpl in Hlen; lia|].
  rewrite !compute_merkle_root_cons, Hs, Hs'.
  change (l ++ [m; m]) with (l ++ [m] ++ [m]).
  rewrite !leaves_app. simpl leaves.
  destruct (leaves l) as [h1|e] eqn:Hl1; simpl; [|reflexivity].
  destruct (leaf m) as [h|e]; simpl; [|reflexivity].
  do 2 f_equal.
  pose proof (leaves_length _ _ Hl1) as Hh1.
  change (h1 ++ [h; h]) with (h1 ++ [h] ++ [h]).
  remember (length (h1 ++ [h])) as n eqn:En.
  assert (Hn : n = length (x :: items'))
    by (subst n; rewrite length_app; simpl in Hsl |- *; lia).
  assert (Hn2 : length (h1 ++ [h] ++ [h]) = S n)
    by (subst n; rewrite !length_app; simpl; lia).
  rewrite Hn2.
  assert (Hpad : pad_level (h1 ++ [h]) = h1 ++ [h] ++ [h]).
  { unfold pad_level. rewrite <- En, Hn, Hodd, last_last, <- app_assoc. reflexivity. }
  assert (Hpad2 : pad_level (h1 ++ [h] ++ [h]) = h1 ++ [h] ++ [h]).
  { unfold pad_level. rewrite Hn2, Nat.odd_succ, <- Nat.negb_odd, Hn, Hodd. reflexivity. }
  assert (Hlt : Nat.ltb 1 (length (h1 ++ [h])) = true)
    by (apply Nat.ltb_lt; rewrite <- En, Hn; lia).
  assert (Hlt2 : Nat.ltb 1 (length (h1 ++ [h] ++ [h])) = true)
    by (apply Nat.ltb_lt; rewrite Hn2; lia).
  rewrite <- Hn in Hlen.
  destruct n as [|[|[|k]]]; try lia.
  rewrite (build_tree_S (S (S (S k)))), (build_tree_S (S (S k)) (h1 ++ [h])).
  rewrite Hlt, Hlt2, Hpad, Hpad2.
  apply (f_equal (fun t => Hex.hex (hd [] t))).
  assert (Hk : (Nat.div2 k <= k)%nat) by (apply Nat.div2_decr; lia).
  apply build_tree_fuel; rewrite pair_level_length, Hn2;
    change (Nat.div2 (S (S (S (S k))))) with (S (S (Nat.div2 k))); lia.
Qed.

Lemma merkle_root_duplicate_largest_witness :
  Nat.odd (length ["proof-b"; "proof-c"; "proof-a"]) = true /\
  (3 <= length ["proof-b"; "proof-c"; "proof-a"])%nat /\
  In "proof-c" ["proof-b"; "proof-c"; "proof-a"] /\
  compute_merkle_root ["proof-c"; "proof-b"; "proof-c"; "proof-a"] =
  compute_merkle_root ["proof-b"; "proof-c"; "proof-a"].
Proof.
  split; [reflexivity|]. split; [simpl; lia|]. split; [simpl; tauto|].
  apply (merkle_root_duplicate_largest ["proof-b"; "proof-c"; "proof-a"] "proof-c").
  - reflexivity.
  - simpl; lia.
  - simpl; tauto.
  - intros x [<-|[<-|[<-|[]]]]; reflexivity.
Defined.

(** ** Signing *)

Lemma dict_set_set (k : string) (v v' : json) (d : dict) :
  dict_set k v' (dict_set k v d) = dict_set k v' d.
Proof.
  induction d as [|[k0 v0] d IH]; simpl.
  - now rewrite String.eqb_refl.
  - destruct (String.eqb k k0) eqn:E; simpl.
    + now rewrite String.eqb_refl.
    + now rewrite E, IH.
Qed.

Lemma snapshot_message_set_sig (v : json) (d : dict) :
  snapshot_message (dict_set "sig" v d) = snapshot_message d.
Proof. unfold snapshot_message. now rewrite dict_remove_set. Qed.

(** X5.  A signature does not cover a ["sig"] the document already
    carries: signing a document gives the same signature whatever its
    ["sig"] was, and signing a signed document again returns it
    unchanged. *)
Theorem signing_ignores_existing_signature (sg : MerlinSigner) (d : dict) (v : json) :
  sign_snapshot sg (dict_set "sig" v d) = sign_snapshot sg d /\
  sign_and_add sg (dict_set "sig" v d) = sign_and_add sg d /\
  sign_and_add sg (sign_and_add sg d) = sign_and_add sg d.
Proof.
  assert (H1 : sign_snapshot sg (dict_set "sig" v d) = sign_snapshot sg d).
  { unfold sign_snapshot, snapshot_digest. now rewrite snapshot_message_set_sig. }
  assert (H2 : forall w, sign_and_add sg (dict_set "sig" w d) = sign_and_add sg d).
  { intros w. unfold sign_and_add, dict_update. simpl.
    unfold sign_snapshot, snapshot_digest. rewrite snapshot_message_set_sig.
    apply dict_set_set. }
  split; [exact H1|]. split; [apply H2|].
  unfold sign_and_add at 2. unfold dict_update. simpl. apply H2.
Qed.

(** X6.  [verify_signature] accepts what [sign_snapshot] and
    [sign_and_add] produce, with or without the ["0x"] in front, when the
    library recovers the signer's address from the signer's signature of
    the digest. *)
Theorem verify_accepts_own_signature (sg : MerlinSigner) (d : dict)
    (recover_message : list byte -> list byte -> Result string)
    (to_checksum_address : string -> Result string) (a : string) :
  recover_message (snapshot_digest d) (account_sign sg (snapshot_digest d))
    = Ok (address sg) ->
  to_checksum_address (address sg) = Ok a ->
  verify_signature recover_message to_checksum_address d
    (sign_snapshot sg d) (address sg) = true /\
  verify_signature recover_message to_checksum_address d
    ("0x" +:+ sign_snapshot sg d) (address sg) = true /\
  verify_signature recover_message to_checksum_address (sign_and_add sg d)
    (match dict_get "sig" (sign_and_add sg d) with JStr s => s | _ => "" end)
    (address sg) = true.
Proof.
  intros Hrec Hsum.
  assert (H0 : verify_signature recover_message to_checksum_address d
                 (sign_snapshot sg d) (address sg) = true).
  { unfold verify_signature, sign_snapshot. rewrite hex_not_prefixed, fromhex_hex.
    rewrite Hrec, Hsum. apply String.eqb_refl. }
  assert (H1 : verify_signature recover_message to_checksum_address d
                 ("0x" +:+ sign_snapshot sg d) (address sg) = true).
  { unfold verify_signature, sign_snapshot. rewrite startswith_0x_append.
    change (str_drop 2 ("0x" +:+ ?h)) with h. rewrite fromhex_hex.
    rewrite Hrec, Hsum. apply String.eqb_refl. }
  split; [exact H0|]. split; [exact H1|].
  rewrite sign_and_add_sig_value.
  apply (signed_document_verifies sg d recover_message to_checksum_address a);
    [exact Hrec | exact Hsum | apply sign_and_add_sig_value].
Qed.

Lemma verify_accepts_own_signature_witness :
  verify_signature (fun _ _ => Ok (address example_signer)) (fun s => Ok s)
    example_epoch ("0x" +:+ sign_snapshot example_signer example_epoch)
    (address example_signer) = true.
Proof.
  apply (verify_accepts_own_signature example_signer example_epoch
           (fun _ _ => Ok (address example_signer)) (fun s => Ok s)
           (address example_signer)); reflexivity.
Defined.

(** ** Canonical JSON and the order of keys *)

Lemma leb_false_flip (a b : string) : String.leb a b = false -> String.leb b a = true.
Proof. intros H. destruct (String.leb_total a b) as [E|E]; [congruence | exact E]. Qed.

Lemma insert_sorted_key_comm {B : Type} (x y : string * B) (l : list (string * B)) :
  fst x <> fst y ->
  insert_sorted key_le x (insert_sorted key_le y l) =
  insert_sorted key_le y (insert_sorted key_le x l).
Proof.
  intros Hxy.
  assert (Hanti : forall a b : string * B,
             fst a <> fst b -> key_le a b = true -> key_le b a = true -> False).
  { unfold key_le. intros a b Hab H1 H2. apply Hab. now apply (anti_symm str_le). }
  assert (Htrans : forall a b c : string * B,
             key_le a b = true -> key_le b c = true -> key_le a c = true).
  { unfold key_le. intros a b c H1 H2. exact (str_le_trans _ _ _ H1 H2). }
  induction l as [|z l IH]; simpl.
  - destruct (key_le x y) eqn:E1, (key_le y x) eqn:E2; try reflexivity.
    + destruct (Hanti _ _ Hxy E1 E2).
    + apply leb_false_flip in E1. unfold key_le in E2. congruence.
  - destruct (key_le y z) eqn:Eyz, (key_le x z) eqn:Exz; simpl.
    + destruct (key_le x y) eqn:E1, (key_le y x) eqn:E2;
        rewrite ?Eyz, ?Exz; try reflexivity.
      * destruct (Hanti _ _ Hxy E1 E2).
      * apply leb_false_flip in E1. unfold key_le in E2. congruence.
    + destruct (key_le x y) eqn:E1.
      * rewrite (Htrans _ _ _ E1 Eyz) in Exz. discriminate Exz.
      * rewrite Exz, Eyz. reflexivity.
    + rewrite Eyz. destruct (key_le y x) eqn:E2.
      * rewrite (Htrans _ _ _ E2 Exz) in Eyz. discriminate Eyz.
      * rewrite Exz. reflexivity.
    + rewrite Exz, Eyz, IH. reflexivity.
Qed.

(** [sorted(d.items())] does not depend on the order of insertion. *)
Lemma py_sorted_key_perm {B : Type} (d1 d2 : list (string * B)) :
  Permutation d1 d2 -> NoDup (map fst d1) ->
  py_sorted key_le d1 = py_sorted key_le d2.
Proof.
  induction 1 as [|x l l' Hp IH|x y l|l l' l'' Hp1 IH1 Hp2 IH2]; intros Hnd.
  - reflexivity.
  - simpl. rewrite IH; [reflexivity|]. simpl in Hnd. now apply NoDup_cons_1_2 in Hnd.
  - simpl. apply insert_sorted_key_comm.
    simpl in Hnd. apply NoDup_cons_1_1 in Hnd. intros E. apply Hnd. rewrite E. left.
  - rewrite IH1 by exact Hnd. apply IH2.
    rewrite <- (Permutation_map fst Hp1). exact Hnd.
Qed.

Lemma same_content_dumps : forall a b : json, same_content a b -> dumps a = dumps b.
Proof.
  fix IH 3. intros a b H. destruct H as [v | l1 l2 HF | d1 d d2 Hnd HF Hp].
  - reflexivity.
  - simpl. do 3 f_equal.
    induction HF as [|x y l1 l2 Hxy HF IHF]; simpl; [reflexivity|].
    f_equal; [apply IH, Hxy | exact IHF].
  - simpl. do 3 f_equal.
    assert (Hmap : map (fun kv => (fst kv, dumps (snd kv))) d1 =
                   map (fun kv => (fst kv, dumps (snd kv))) d).
    { clear Hnd Hp. induction HF as [|x y l1 l2 [Hk Hv] HF IHF]; simpl; [reflexivity|].
      f_equal; [|exact IHF]. rewrite Hk. f_equal. apply IH, Hv. }
    rewrite Hmap. f_equal. apply py_sorted_key_perm.
    + apply Permutation_map, Hp.
    + rewrite <- Hmap, map_map. simpl. exact Hnd.
Qed.

(** X7.  The canonical JSON of a document does not depend on the order
    in which the keys of its objects were inserted, at any depth. *)
Theorem canonical_json_ignores_key_order (a b : json) :
  same_content a b -> canonical_json a = canonical_json b.
Proof.
  intros H. rewrite !canonical_json_is_dumps. apply same_content_dumps, H.
Qed.

Lemma canonical_json_ignores_key_order_witness :
  canonical_json
    (JDict [("b", JInt 1); ("a", JList [JDict [("y", JNull); ("x", JStr "v")]])]) =
  canonical_json
    (JDict [("a", JList [JDict [("x", JStr "v"); ("y", JNull)]]); ("b", JInt 1)]).
Proof.
  apply canonical_json_ignores_key_order.
  apply (same_dict _ [("b", JInt 1); ("a", JList [JDict [("x", JStr "v"); ("y", JNull)]])]).
  - apply NoDup_ListNoDup. repeat constructor; simpl; intuition congruence.
  - constructor; [split; [reflexivity | apply same_value]|].
    constructor; [|constructor]. split; [reflexivity|].
    apply same_list. constructor; [|constructor].
    apply (same_dict _ [("y", JNull); ("x", JStr "v")]).
    + apply NoDup_ListNoDup. repeat constructor; simpl; intuition congruence.
    + repeat constructor.
    + apply perm_swap.
  - apply perm_swap.
Defined.

Lemma same_content_without_sig (d1 d2 : dict) :
  same_content (JDict d1) (JDict d2) ->
  same_content (JDict (dict_remove "sig" d1)) (JDict (dict_remove "sig" d2)).
Proof.
  intros H. inversion H as [v | | d1' d d2' Hnd HF Hp]; subst.
  - apply same_value.
  - apply (same_dict _ (dict_remove "sig" d)).
    + clear -Hnd. unfold dict_remove.
      induction d1 as [|[k v] d1 IH]; simpl in *; [constructor|].
      apply NoDup_cons in Hnd as [Hk Hnd].
      destruct (negb (String.eqb k "sig")); simpl; [|now apply IH].
      apply NoDup_cons. split; [|now apply IH].
      intros Hin. apply Hk. clear -Hin.
      induction d1 as [|[k' v'] d1 IH]; simpl in *; [exact Hin|].
      destruct (negb (String.eqb k' "sig")); simpl in *.
      * apply elem_of_cons in Hin as [->|Hin]; [left | right; now apply IH].
      * right. now apply IH.
    + clear -HF. unfold dict_remove.
      induction HF as [|x y l1 l2 [Hk Hv] HF IHF]; simpl; [constructor|].
      rewrite Hk. destruct (negb (String.eqb (fst y) "sig")); [|exact IHF].
      constructor; [split; assumption | exact IHF].
    + unfold dict_remove. clear -Hp.
      induction Hp as [|x l l' Hp IH|x y l|l l' l'' Hp1 IH1 Hp2 IH2]; simpl.
      * constructor.
      * destruct (negb _); [now constructor | exact IH].
      * destruct (negb (String.eqb (fst x) "sig")), (negb (String.eqb (fst y) "sig"));
          try reflexivity. apply perm_swap.
      * now transitivity (List.filter (fun kv => negb (String.eqb (fst kv) "sig")) l').
Qed.

(** X8.  Two documents with the same content get the same signature:
    the message that is hashed and signed, and so the signature, do not
    depend on the order of the keys. *)
Theorem signature_ignores_key_order (sg : MerlinSigner) (d1 d2 : dict) :
  same_content (JDict d1) (JDict d2) ->
  snapshot_message d1 = snapshot_message d2 /\
  sign_snapshot sg d1 = sign_snapshot sg d2 /\
  dict_get "sig" (sign_and_add sg d1) = dict_get "sig" (sign_and_add sg d2).
Proof.
  intros H.
  assert (Hm : snapshot_message d1 = snapshot_message d2).
  { unfold snapshot_message. rewrite !canonical_json_is_dumps.
    apply same_content_dumps, same_content_without_sig, H. }
  assert (Hs : sign_snapshot sg d1 = sign_snapshot sg d2).
  { unfold sign_snapshot, snapshot_digest. now rewrite Hm. }
  split; [exact Hm|]. split; [exact Hs|].
  rewrite !sign_and_add_sig_value. unfold snapshot_digest. now rewrite Hm.
Qed.

Lemma signature_ignores_key_order_witness :
  sign_snapshot example_signer [("type", JStr "epoch"); ("epoch_number", JInt 1)] =
  sign_snapshot example_signer [("epoch_number", JInt 1); ("type", JStr "epoch")].
Proof.
  apply (signature_ignores_key_order example_signer
           [("type", JStr "epoch"); ("epoch_number", JInt 1)]
           [("epoch_number", JInt 1); ("type", JStr "epoch")]).
  apply (same_dict _ [("type", JStr "epoch"); ("epoch_number", JInt 1)]).
  - apply NoDup_ListNoDup. repeat constructor; simpl; intuition congruence.
  - repeat constructor.
  - apply perm_swap.
Defined.

(** X9.  [sort_keys_recursive] is idempotent, and the recursive sort is
    invisible in the canonical text: [canonical_json] of a document is
    [json.dumps(..., sort_keys=True)] of it, sorted beforehand or not. *)
Theorem sort_keys_recursive_idempotent (v : json) :
  sort_keys_recursive (sort_keys_recursive v) = sort_keys_recursive v /\
  canonical_json (sort_keys_recursive v) = canonical_json v /\
  canonical_json v = dumps v.
Proof.
  split; [|split].
  - induction v as [ | | | | |l IH|d IH] using json_nested_ind; try reflexivity.
    + simpl. f_equal. rewrite map_map. apply map_ext_Forall. exact IH.
    + simpl. f_equal.
      rewrite (py_sorted_map key_le key_le
                 (fun kv => (fst kv, sort_keys_recursive (snd kv)))) by reflexivity.
      rewrite py_sorted_key_idempotent, map_map.
      apply (f_equal (py_sorted key_le)).
      apply map_ext_Forall. eapply List.Forall_impl; [|exact IH].
      intros kv Hkv. simpl. rewrite Hkv. reflexivity.
  - unfold canonical_json. now rewrite !dumps_sort_keys_recursive.
  - apply canonical_json_is_dumps.
Qed.

(** ** Schema validation *)

Lemma truthy_nonempty_str (s : string) : s <> "" -> truthy (JStr s) = true.
Proof. intros H. simpl. destruct (String.eqb_spec s ""); [contradiction | reflexivity]. Qed.

Lemma dict_get_default_of_get (k : string) (d : dict) (dflt : json) (s : string) :
  dict_get k d = JStr s -> dict_get_default k dflt d = JStr s.
Proof.
  unfold dict_get, dict_get_default. destruct (dict_lookup k d); [auto | discriminate].
Qed.





Lemma cid_errors_raises (field : string) (p : dict) :
  raises (cid_errors field p) <->
  truthy (dict_get field p) = true /\ is_str (dict_get field p) = false.
Proof.
  unfold cid_errors, dict_get_default, dict_get, raises.
  destruct (dict_lookup field p) as [v|].
  - destruct (truthy v) eqn:Ht.
    + destruct v; simpl; split;
        try (intros [e He]; discriminate He);
        try (intros [_ He]; discriminate He);
        try (intros _; split; reflexivity);
        try (intros _; eexists; reflexivity).
    + split; [intros [e He]; discriminate He | intros [He _]; discriminate He].
  - simpl. split; [intros [e He]; discriminate He | intros [He _]; discriminate He].
Qed.

Lemma affix_errors_raises (test : string -> bool) (v : json) (msg : string) :
  raises (affix_errors test v msg) <-> truthy v = true /\ is_str v = false.
Proof.
  unfold affix_errors, raises. destruct (truthy v) eqn:Ht.
  - destruct v; simpl; split;
      try (intros [e He]; discriminate He);
      try (intros [_ He]; discriminate He);
      try (intros _; split; reflexivity);
      try (intros _; eexists; reflexivity).
  - split; [intros [e He]; discriminate He | intros [He _]; discriminate He].
Qed.

Lemma get_default_empty_str (k : string) (d : dict) :
  truthy (dict_get_default k (JStr "") d) = truthy (dict_get k d) /\
  (truthy (dict_get k d) = true -> dict_get_default k (JStr "") d = dict_get k d).
Proof.
  unfold dict_get_default, dict_get. destruct (dict_lookup k d); split; auto.
  simpl. discriminate.
Qed.

Lemma cid_errors_kind (field : string) (p : dict) (e : Exn) :
  cid_errors field p = Raise e -> e = TypeError.
Proof.
  unfold cid_errors. destruct (truthy _); [|discriminate].
  destruct (dict_get_default field (JStr "") p); congruence.
Qed.

Lemma affix_errors_kind (test : string -> bool) (v : json) (msg : string) (e : Exn) :
  affix_errors test v msg = Raise e -> e = AttributeError.
Proof.
  unfold affix_errors. destruct (truthy v); [|discriminate]. destruct v; congruence.
Qed.

(** X11.  [validate_proof] raises instead of returning exactly when one
    of [job_cid], [output_cid], [proof_hash], [sig], [provider] holds a
    value that is truthy and not a string; the exception is a
    [TypeError] (from the pattern match) or an [AttributeError] (from
    [startswith] or [endswith]). *)
Theorem validate_proof_raises_exactly (p : dict) :
  (raises (validate_proof p) <->
   Exists (fun field => truthy (dict_get field p) = true /\
                        is_str (dict_get field p) = false)
          ["job_cid"; "output_cid"; "proof_hash"; "sig"; "provider"]) /\
  (forall e, validate_proof p = Raise e -> e = TypeError \/ e = AttributeError).
Proof.
  pose proof (cid_errors_raises "job_cid" p) as R1.
  pose proof (cid_errors_raises "output_cid" p) as R2.
  pose proof (affix_errors_raises (startswith "0x") (dict_get "proof_hash" p)
                "proof_hash must be 0x-prefixed") as R3.
  pose proof (affix_errors_raises (startswith "0x") (dict_get "sig" p)
                "sig must be 0x-prefixed") as R4.
  pose proof (affix_errors_raises (endswith ".eth")
                (dict_get_default "provider" (JStr "") p)
                "provider must be an ENS name (ending in .eth)") as R5.
  pose proof (cid_errors_kind "job_cid" p) as K1.
  pose proof (cid_errors_kind "output_cid" p) as K2.
  pose proof (affix_errors_kind (startswith "0x") (dict_get "proof_hash" p)
                "proof_hash must be 0x-prefixed") as K3.
  pose proof (affix_errors_kind (startswith "0x") (dict_get "sig" p)
                "sig must be 0x-prefixed") as K4.
  pose proof (affix_errors_kind (endswith ".eth")
                (dict_get_default "provider" (JStr "") p)
                "provider must be an ENS name (ending in .eth)") as K5.
  destruct (get_default_empty_str "provider" p) as [G1 G2].
  assert (R5' : raises (affix_errors (endswith ".eth")
                  (dict_get_default "provider" (JStr "") p)
                  "provider must be an ENS name (ending in .eth)") <->
                truthy (dict_get "provider" p) = true /\
                is_str (dict_get "provider" p) = false).
  { rewrite R5, G1. split; intros [Ha Hb]; (split; [exact Ha|]).
    - now rewrite <- (G2 Ha).
    - now rewrite (G2 Ha). }
  clear R5 G1 G2.
  unfold validate_proof, raises in *.
  rewrite !List.Exists_cons, List.Exists_nil.
  destruct (cid_errors "job_cid" p) as [x1|e1]; simpl;
    [|split; [split; [intros _; left; apply R1; eauto | eauto]
             | intros e He; left; injection He as <-; now apply K1]].
  destruct (cid_errors "output_cid" p) as [x2|e2]; simpl;
    [|split; [split; [intros _; right; left; apply R2; eauto | eauto]
             | intros e He; left; injection He as <-; now apply K2]].
  destruct (affix_errors (startswith "0x") (dict_get "proof_hash" p) _) as [x3|e3]; simpl;
    [|split; [split; [intros _; right; right; left; apply R3; eauto | eauto]
             | intros e He; right; injection He as <-; now apply K3]].
  destruct (affix_errors (startswith "0x") (dict_get "sig" p) _) as [x4|e4]; simpl;
    [|split; [split; [intros _; do 3 right; left; apply R4; eauto | eauto]
             | intros e He; right; injection He as <-; now apply K4]].
  destruct (affix_errors (endswith ".eth") _ _) as [x5|e5]; simpl;
    [|split; [split; [intros _; do 4 right; left; apply R5'; eauto | eauto]
             | intros e He; right; injection He as <-; now apply K5]].
  split; [|intros e He; discriminate He].
  split; [intros [e He]; discriminate He|].
  intros [H|[H|[H|[H|[H|[]]]]]].
  - apply R1 in H as [e He]; discriminate He.
  - apply R2 in H as [e He]; discriminate He.
  - apply R3 in H as [e He]; discriminate He.
  - apply R4 in H as [e He]; discriminate He.
  - apply R5' in H as [e He]; discriminate He.
Qed.

Lemma validate_proof_ext (p1 p2 : dict) :
  (forall k, In k proof_fields -> dict_lookup k p1 = dict_lookup k p2) ->
  validate_proof p1 = validate_proof p2.
Proof.
  intros H.
  unfold validate_proof, required_string_errors, metrics_errors, cid_errors,
    dict_get, dict_get_default, required_strings.
  cbn [flat_map].
  rewrite !(H "type"), !(H "proof_id"), !(H "job_cid"), !(H "output_cid"),
    !(H "provider"), !(H "proof_hash"), !(H "sig"), !(H "timestamp"), !(H "metrics")
    by (simpl; tauto).
  reflexivity.
Qed.

(** X12.  [validate_proof] reads nine keys and no other: adding,
    changing or removing any other key of a proof, such as ["version"],
    does not change its verdict. *)
Theorem validate_proof_ignores_other_fields (p : dict) (k : string) (v : json) :
  ~ In k proof_fields ->
  validate_proof (dict_set k v p) = validate_proof p /\
  validate_proof (dict_remove k p) = validate_proof p.
Proof.
  intros Hk. split; apply validate_proof_ext; intros k' Hk'.
  - rewrite dict_lookup_set. destruct (String.eqb_spec k' k); [subst; contradiction|].
    reflexivity.
  - rewrite dict_lookup_remove. destruct (String.eqb_spec k' k); [subst; contradiction|].
    reflexivity.
Qed.

Lemma validate_proof_ignores_other_fields_witness :
  let p := match example_proof (JStr "proof-001") (JStr "bafyjob1") "alice.eth" with
           | JDict p => p
           | _ => []
           end in
  dict_has "version" p = true /\
  validate_proof (dict_remove "version" p) = Ok true /\
  validate_proof (dict_set "version" (JInt 7) p) = Ok true.
Proof.
  cbv zeta. split; [reflexivity|].
  split.
  - refine (eq_trans (proj2 (validate_proof_ignores_other_fields _ "version" JNull _)) _).
    + unfold proof_fields. simpl. intuition discriminate.
    + vm_compute. reflexivity.
  - refine (eq_trans (proj1 (validate_proof_ignores_other_fields _ "version" (JInt 7) _)) _).
    + unfold proof_fields. simpl. intuition discriminate.
    + vm_compute. reflexivity.
Defined.

Lemma missing_field_errors_nil (required : list string) (doc : dict) :
  missing_field_errors required doc = [] <->
  forall field, In field required -> truthy (dict_get field doc) = true.
Proof.
  unfold missing_field_errors. induction required as [|f required IH]; simpl.
  - split; [intros _ ? [] | reflexivity].
  - destruct (truthy (dict_get f doc)) eqn:Ht; simpl.
    + rewrite IH. split.
      * intros H field [<-|Hin]; [exact Ht | now apply H].
      * intros H field Hin. apply H. now right.
    + split; [discriminate|]. intros H. specialize (H f (or_introl eq_refl)). congruence.
Qed.

(** X13.  [validate_job] returns [True] exactly for a document of type
    ["job"] whose six required fields are truthy and whose ["payment"]
    is an object with a truthy ["amount"]; it raises ([AttributeError])
    exactly when ["payment"] is present and is not an object. *)
Theorem validate_job_verdict (job : dict) :
  (validate_job job = Ok true <->
   dict_get "type" job = JStr "job" /\
   (forall field, In field job_required -> truthy (dict_get field job) = true) /\
   exists payment, dict_lookup "payment" job = Some (JDict payment) /\
                   truthy (dict_get "amount" payment) = true) /\
  (validate_job job = Raise AttributeError <->
   exists v, dict_lookup "payment" job = Some v /\ is_dict v = false) /\
  (forall e, validate_job job = Raise e -> e = AttributeError).
Proof.
  unfold validate_job, dict_get_default.
  assert (Htype : json_eqb_str (dict_get "type" job) "job" = true <->
                  dict_get "type" job = JStr "job").
  { destruct (dict_get "type" job); simpl; split; try discriminate.
    - intros H. apply String.eqb_eq in H. now subst.
    - intros H. injection H as ->. reflexivity. }
  pose proof (missing_field_errors_nil job_required job) as Hreq.
  remember (missing_field_errors job_required job) as errs eqn:Eerrs.
  remember (json_eqb_str (dict_get "type" job) "job") as ty eqn:Ety.
  destruct (dict_lookup "payment" job) as [v|] eqn:Hpay.
  - destruct v as [| | | | | |payment];
      try (split; [split; [discriminate | intros (_ & _ & pay & E & _); discriminate E]
                  | split; [split; [intros _; eexists; split; reflexivity | reflexivity]
                           | intros e He; now injection He as <-]]).
    split; [|split; [split; [discriminate | intros (v & E & Hd); injection E as <-;
                                           discriminate Hd]
                    | discriminate]].
    destruct ty; cbn [negb app].
    + destruct errs as [|err errs]; cbn [app].
      * destruct (truthy (dict_get "amount" payment)) eqn:Ea; cbn [negb app].
        -- split; [|reflexivity]. intros _. split; [now apply Htype|].
           split; [now apply Hreq|]. exists payment. now split.
        -- split; [discriminate|]. intros (_ & _ & pay & E & Ha).
           injection E as <-. congruence.
      * split; [discriminate|]. intros (_ & Hr & _). apply Hreq in Hr. discriminate Hr.
    + split; [discriminate|]. intros (Ht & _). apply Htype in Ht. discriminate Ht.
  - split; [|split; [split; [discriminate | intros (v & E & _); discriminate E]
                    | discriminate]].
    split; [|intros (_ & _ & pay & E & _); discriminate E].
    change (truthy (dict_get "amount" [])) with false. cbn [negb].
    destruct (_ ++ _ ++ _) eqn:E; [|discriminate].
    apply app_eq_nil in E as [_ E]. apply app_eq_nil in E as [_ E]. discriminate E.
Qed.

Lemma validate_epoch_true (epoch : dict) :
  validate_epoch epoch = true <->
  json_eqb_str (dict_get "type" epoch) "epoch" = true /\
  (json_eqb_str (dict_get "status" epoch) "active"
   || json_eqb_str (dict_get "status" epoch) "sealed") = true /\
  (forall field, In field epoch_required -> truthy (dict_get field epoch) = true) /\
  (json_eqb_str (dict_get "status" epoch) "sealed" = true ->
   forall field, In field sealed_required -> is_none (dict_get field epoch) = false).
Proof.
  unfold validate_epoch.
  pose proof (missing_field_errors_nil epoch_required epoch) as Hreq.
  remember (missing_field_errors epoch_required epoch) as errs eqn:Eerrs.
  destruct (json_eqb_str (dict_get "type" epoch) "epoch"); cbn [negb app];
    [|split; [discriminate | intros (H & _); discriminate H]].
  destruct (_ || _); cbn [negb app];
    [|split; [discriminate | intros (_ & H & _); discriminate H]].
  destruct errs as [|err errs]; cbn [app];
    [|split; [discriminate | intros (_ & _ & H & _); apply Hreq in H; discriminate H]].
  destruct (json_eqb_str (dict_get "status" epoch) "sealed").
  - unfold sealed_required. cbn [flat_map app].
    destruct (is_none (dict_get "ended_at" epoch)) eqn:E1; cbn [app];
      [split; [discriminate|];
       intros (_ & _ & _ & H); specialize (H eq_refl "ended_at" ltac:(simpl; tauto));
       congruence|].
    destruct (is_none (dict_get "merkle_root" epoch)) eqn:E2; cbn [app];
      [split; [discriminate|];
       intros (_ & _ & _ & H); specialize (H eq_refl "merkle_root" ltac:(simpl; tauto));
       congruence|].
    destruct (is_none (dict_get "settlements" epoch)) eqn:E3; cbn [app];
      [split; [discriminate|];
       intros (_ & _ & _ & H); specialize (H eq_refl "settlements" ltac:(simpl; tauto));
       congruence|].
    split; [|reflexivity]. intros _. repeat split; try (now apply Hreq).
    intros _ field [<-|[<-|[<-|[]]]]; assumption.
  - split; [|reflexivity]. intros _. repeat split; try (now apply Hreq).
    discriminate.
Qed.

Lemma get_epoch_name_nonempty (n : Z) : get_epoch_name n <> "".
Proof.
  pose proof (get_epoch_name_nato n) as H. apply nth_error_In in H.
  unfold NATO_ALPHABET in H. simpl in H.
  intros E. rewrite E in H.
  repeat (destruct H as [H|H]; [discriminate H|]). exact H.
Qed.

Lemma validate_epoch_active (sg : MerlinSigner) (cfg : MerlinConfig) (n ts : Z) :
  validate_epoch (sign_and_add sg (active_epoch cfg n ts)) = true <->
  ts <> 0%Z /\ identity cfg <> "".
Proof.
  rewrite validate_epoch_true.
  rewrite !sign_and_add_get by discriminate.
  change (dict_get "type" (active_epoch cfg n ts)) with (JStr "epoch").
  change (dict_get "status" (active_epoch cfg n ts)) with (JStr "active").
  split.
  - intros (_ & _ & Hreq & _).
    pose proof (Hreq "started_at" ltac:(simpl; tauto)) as H1.
    pose proof (Hreq "controller" ltac:(simpl; tauto)) as H2.
    rewrite sign_and_add_get in H1, H2 by discriminate.
    change (dict_get "started_at" (active_epoch cfg n ts)) with (JInt ts) in H1.
    change (dict_get "controller" (active_epoch cfg n ts)) with (JStr (identity cfg)) in H2.
    simpl in H1, H2. split.
    + intros ->. discriminate H1.
    + intros E. rewrite E in H2. discriminate H2.
  - intros [Hts Hid]. repeat split; try discriminate.
    intros field [<-|[<-|[<-|[<-|[<-|[<-|[]]]]]]];
      try (rewrite sign_and_add_get by discriminate).
    + reflexivity.
    + change (dict_get "name" (active_epoch cfg n ts)) with (JStr (get_epoch_name n)).
      apply truthy_nonempty_str, get_epoch_name_nonempty.
    + change (dict_get "started_at" (active_epoch cfg n ts)) with (JInt ts).
      simpl. destruct (Z.eqb_spec ts 0); [contradiction | reflexivity].
    + change (dict_get "controller" (active_epoch cfg n ts)) with (JStr (identity cfg)).
      now apply truthy_nonempty_str.
    + change (dict_get "timestamp" (active_epoch cfg n ts)) with (JInt ts).
      simpl. destruct (Z.eqb_spec ts 0); [contradiction | reflexivity].
    + rewrite sign_and_add_sig_value. reflexivity.
Qed.

(** X14.  The document a successful [open_new_epoch] signs, publishes
    and keeps as the current epoch passes [validate_epoch] exactly when
    the controller identity is not empty and the clock is not in the
    first second of 1970 (the validator tests [started_at] and
    [timestamp] for truth, and [0] is false). *)
Theorem opened_epoch_validates {store : Type}
    (http : Request -> store -> option Response * store)
    (now : Z) (m : EpochManager) (w : @World store) (id : string) :
  fst (fst (open_new_epoch http now m w)) = Ok id ->
  exists doc,
    current_epoch (snd (fst (open_new_epoch http now m w))) = Some doc /\
    doc = sign_and_add (signer m)
            (active_epoch (config m) (epoch_number m + 1) (timestamp_of now)) /\
    (validate_epoch doc = true <->
     timestamp_of now <> 0%Z /\ identity (config m) <> "").
Proof.
  unfold open_new_epoch.
  destruct (publish_epoch http _ w) as [[cid|e] w1]; simpl; [|discriminate].
  intros _. eexists. split; [reflexivity|]. split; [reflexivity|].
  apply validate_epoch_active.
Qed.

Lemma opened_epoch_validates_witness :
  fst (fst (open_new_epoch example_http example_start
              (new_manager default_config example_signer) (empty_store, [])))
    = Ok "epoch-0001" /\
  option_map validate_epoch (current_epoch example_manager) = Some true.
Proof.
  split; [vm_compute; reflexivity|].
  destruct (opened_epoch_validates example_http example_start
              (new_manager default_config example_signer) (empty_store, [])
              "epoch-0001" ltac:(vm_compute; reflexivity)) as (doc & Hdoc & _ & Hv).
  fold example_open in Hdoc. fold example_manager in Hdoc. rewrite Hdoc. simpl.
  f_equal. apply Hv. split; [vm_compute; discriminate | discriminate].
Defined.

Lemma sealed_epoch_doc_get (epoch : dict) (ts n : Z) (s : Settlements)
    (root : string) (cids : list json) (k : string) :
  dict_get k (sealed_epoch_doc epoch ts n s root cids) =
  if String.eqb k "sig" then JNull
  else if String.eqb k "timestamp" then JInt ts
  else if String.eqb k "proofs" then JList cids
  else if String.eqb k "settlements" then settlements_json s
  else if String.eqb k "merkle_root" then JStr root
  else if String.eqb k "total_volume_usdc" then JStr (PyFloat.format_2f (total_volume s))
  else if String.eqb k "proofs_count" then JInt n
  else if String.eqb k "jobs_count" then JInt n
  else if String.eqb k "ended_at" then JInt ts
  else if String.eqb k "status" then JStr "sealed"
  else dict_get k epoch.
Proof.
  unfold sealed_epoch_doc, dict_update. cbn [fold_left fst snd].
  rewrite dict_get_remove, !dict_get_set. reflexivity.
Qed.

(** X15.  Sealing keeps an epoch valid: if the current epoch document
    passes [validate_epoch] and the clock is not in the first second of
    1970, the sealed document that [seal_current_epoch] signs and
    publishes passes [validate_epoch] as a sealed epoch. *)
Theorem sealed_epoch_validates (now : Z) (m : EpochManager) (epoch : dict)
    (s : Settlements) (root : string) (doc : dict) :
  seal_document now m epoch = Ok (s, root, doc) ->
  validate_epoch epoch = true ->
  timestamp_of now <> 0%Z ->
  validate_epoch (sign_and_add (signer m) doc) = true /\
  dict_get "status" (sign_and_add (signer m) doc) = JStr "sealed".
Proof.
  intros Hseal Hv Hts.
  apply seal_document_inv in Hseal as [_ ->].
  apply validate_epoch_true in Hv as (Hty & _ & Hreq & _).
  split; [|rewrite sign_and_add_get by discriminate;
           now rewrite sealed_epoch_doc_get].
  apply validate_epoch_true.
  rewrite !sign_and_add_get by discriminate.
  rewrite !sealed_epoch_doc_get. cbn [String.eqb Ascii.eqb Bool.eqb].
  split; [exact Hty|]. split; [reflexivity|]. split.
  - intros field [<-|[<-|[<-|[<-|[<-|[<-|[]]]]]]];
      try (rewrite sign_and_add_get by discriminate; rewrite sealed_epoch_doc_get;
           cbn [String.eqb Ascii.eqb Bool.eqb]).
    + apply Hreq. simpl; tauto.
    + apply Hreq. simpl; tauto.
    + apply Hreq. simpl; tauto.
    + apply Hreq. simpl; tauto.
    + simpl. destruct (Z.eqb_spec (timestamp_of now) 0); [contradiction | reflexivity].
    + rewrite sign_and_add_sig_value. reflexivity.
  - intros _ field [<-|[<-|[<-|[]]]];
      rewrite sign_and_add_get by discriminate; rewrite sealed_epoch_doc_get;
      reflexivity.
Qed.

Lemma sealed_epoch_validates_witness :
  exists s root doc,
    seal_document (example_start + 3600000000) example_manager example_epoch
      = Ok (s, root, doc) /\
    validate_epoch example_epoch = true /\
    validate_epoch (sign_and_add (signer example_manager) doc) = true.
Proof.
  destruct example_seal_document as (s & doc & Hseal).
  exists s, zero_root, doc. split; [exact Hseal|].
  assert (Hv : validate_epoch example_epoch = true) by (vm_compute; reflexivity).
  split; [exact Hv|].
  apply (sealed_epoch_validates _ _ _ _ _ _ Hseal Hv). vm_compute. discriminate.
Defined.

(** ** The publisher *)

Section PublisherRequests.

Context {store : Type}.
Variable http : Request -> store -> option Response * store.

Lemma requests_since_app (w : @World store) (s' : store) (rs : list Request) :
  requests_since w (s', snd w ++ rs) = rs.
Proof. unfold requests_since. simpl. apply drop_app_length. Qed.

Lemma post_world (r : Request) (w : @World store) :
  snd (post http r w) = (snd (http r (fst w)), snd w ++ [r]).
Proof. unfold post. destruct (http r (fst w)); reflexivity. Qed.

(** The requests of [publish_snapshot], case by case. *)
Lemma publish_snapshot_cases (data : dict) (directory : string) (snapshot_id : json)
    (w : @World store) :
  let add := Add (py_format snapshot_id +:+ ".json") (dumps (JDict data)) in
  let path := directory +:+ "/" +:+ py_format snapshot_id +:+ ".json" in
  let r := fst (publish_snapshot http data directory snapshot_id w) in
  let w' := snd (publish_snapshot http data directory snapshot_id w) in
  (exists cid, r = Ok cid /\
     requests_since w w' = [add; FilesRm path; FilesCp [("arg", path)]; PinAdd cid]) \/
  (exists e, r = Raise e /\
     (requests_since w w' = [add] \/
      requests_since w w' = [add; FilesRm path; FilesCp [("arg", path)]])).
Proof.
  cbv zeta. unfold publish_snapshot.
  destruct (post http (Add _ _) w) as [r_add w1] eqn:E1.
  pose proof (post_world (Add (py_format snapshot_id +:+ ".json") (dumps (JDict data))) w)
    as P1. rewrite E1 in P1. simpl in P1.
  destruct r_add as [resp|];
    [|right; eexists; split; [reflexivity|]; left; simpl; rewrite P1;
      apply requests_since_app].
  destruct (negb (resp_status resp =? 200)%Z);
    [right; eexists; split; [reflexivity|]; left; simpl; rewrite P1;
     apply requests_since_app|].
  destruct (resp_json resp) as [[| | | | | |result]|];
    try (right; eexists; split; [reflexivity|]; left; simpl; rewrite P1;
         apply requests_since_app).
  destruct (dict_lookup "Hash" result) as [cid|];
    [|right; eexists; split; [reflexivity|]; left; simpl; rewrite P1;
      apply requests_since_app].
  destruct (post http (FilesRm _) w1) as [r_rm w2] eqn:E2.
  pose proof (post_world (FilesRm (directory +:+ "/" +:+ py_format snapshot_id +:+ ".json"))
                w1) as P2. rewrite E2 in P2. simpl in P2.
  destruct (post http (FilesCp _) w2) as [r_cp w3] eqn:E3.
  match type of E3 with post http ?r _ = _ => pose proof (post_world r w2) as P3 end.
  rewrite E3 in P3. simpl in P3.
  rewrite P2 in P3. rewrite P1 in P3. simpl in P3. rewrite <- !app_assoc in P3.
  simpl in P3.
  destruct r_cp as [resp_cp|].
  - destruct (post http (PinAdd cid) w3) as [r_pin w4] eqn:E4.
    pose proof (post_world (PinAdd cid) w3) as P4. rewrite E4 in P4. simpl in P4.
    rewrite P3 in P4. simpl in P4. rewrite <- !app_assoc in P4. simpl in P4.
    left. exists cid. split; [reflexivity|]. simpl. rewrite P4.
    rewrite requests_since_app. reflexivity.
  - right. eexists. split; [reflexivity|]. right. simpl. rewrite P3.
    rewrite requests_since_app. reflexivity.
Qed.

(** X16.  [publish_snapshot] sends [add] first.  When the answer to
    [add] is not a response with status 200 whose JSON object holds
    ["Hash"], it raises and sends nothing more.  When it is, with
    ["Hash"] = [cid], it sends [files/rm] and [files/cp] to the store as
    left by the request before, whatever [files/rm] answered; a
    [files/cp] that gets no answer at all raises [IOError] after these
    three requests, and any answer to [files/cp], of any status, is
    followed by [pin/add] of [cid], and [cid] is returned whatever
    [pin/add] answers.  The [files/cp] request carries one parameter, the
    destination path: the source [/ipfs/<cid>], written under the same
    key, is not sent.  No other trace and no other result is possible. *)
Theorem publish_snapshot_requests (data : dict) (directory : string) (snapshot_id : json)
    (w : @World store) :
  let add := Add (py_format snapshot_id +:+ ".json") (dumps (JDict data)) in
  let path := directory +:+ "/" +:+ py_format snapshot_id +:+ ".json" in
  let r := fst (publish_snapshot http data directory snapshot_id w) in
  let w' := snd (publish_snapshot http data directory snapshot_id w) in
  let rm := FilesRm path in
  let cp := FilesCp [("arg", path)] in
  let s1 := snd (http add (fst w)) in
  let s2 := snd (http rm s1) in
  let s3 := snd (http cp s2) in
  ((exists cid, r = Ok cid /\
      requests_since w w' = [add; FilesRm path; FilesCp [("arg", path)]; PinAdd cid]) \/
   (exists e, r = Raise e /\
      (requests_since w w' = [add] \/
       requests_since w w' = [add; FilesRm path; FilesCp [("arg", path)]]))) /\
  (forall cid, r = Ok cid ->
     exists resp result,
       fst (http add (fst w)) = Some resp /\ resp_status resp = 200%Z /\
       resp_json resp = Some (JDict result) /\ dict_lookup "Hash" result = Some cid) /\
  (added_cid (fst (http add (fst w))) = None ->
     (exists e, r = Raise e) /\ requests_since w w' = [add] /\ fst w' = s1) /\
  (forall cid, added_cid (fst (http add (fst w))) = Some cid ->
     (fst (http cp s2) = None ->
        r = Raise IOError /\ requests_since w w' = [add; rm; cp] /\ fst w' = s3) /\
     (fst (http cp s2) <> None ->
        r = Ok cid /\ requests_since w w' = [add; rm; cp; PinAdd cid] /\
        fst w' = snd (http (PinAdd cid) s3))).
Proof.
  cbv zeta. split; [apply publish_snapshot_cases|].
  split.
  { intros cid. unfold publish_snapshot, post.
    destruct (http (Add _ _) (fst w)) as [[resp|] s1]; simpl; [|discriminate].
    destruct (resp_status resp =? 200)%Z eqn:Est; simpl; [|discriminate].
    destruct (resp_json resp) as [[| | | | | |result]|] eqn:Ej; try discriminate.
    destruct (dict_lookup "Hash" result) as [cid'|] eqn:Eh; [|discriminate].
    destruct (http (FilesRm _) s1) as [r_rm s2]; simpl.
    destruct (http (FilesCp _) s2) as [[resp_cp|] s3]; simpl; [|discriminate].
    destruct (http (PinAdd cid') s3) as [r_pin s4]; simpl.
    intros H. injection H as <-. exists resp, result.
    repeat split; try reflexivity; try assumption. now apply Z.eqb_eq. }
  unfold publish_snapshot, post, added_cid, requests_since.
  destruct w as [s0 tr]. cbn [fst snd].
  destruct (http (Add _ _) s0) as [[resp|] s1]; cbn [fst snd].
  2:{ split; [intros _|discriminate].
      split; [eauto|]. split; [|reflexivity]. apply drop_app_length. }
  destruct (negb (resp_status resp =? 200)%Z).
  { split; [intros _|discriminate].
    split; [eauto|]. split; [|reflexivity]. apply drop_app_length. }
  destruct (resp_json resp) as [[| | | | | |result]|];
    try (split; [intros _|discriminate];
         split; [eauto|]; split; [|reflexivity]; apply drop_app_length).
  destruct (dict_lookup "Hash" result) as [cid|].
  2:{ split; [intros _|discriminate].
      split; [eauto|]. split; [|reflexivity]. apply drop_app_length. }
  split; [discriminate|]. intros cid' [= <-].
  destruct (http (FilesRm _) s1) as [r_rm s2]; cbn [fst snd].
  change (dict_display [("arg", "/ipfs/" +:+ py_format cid);
                        ("arg", directory +:+ "/" +:+ py_format snapshot_id +:+ ".json")])
    with [("arg", directory +:+ "/" +:+ py_format snapshot_id +:+ ".json")].
  destruct (http (FilesCp _) s2) as [[resp_cp|] s3]; cbn [fst snd].
  - split; [discriminate|]. intros _.
    destruct (http (PinAdd cid) s3) as [r_pin s4]; cbn [fst snd].
    split; [reflexivity|]. split; [|reflexivity].
    rewrite <- !app_assoc. apply drop_app_length.
  - split; [|congruence]. intros _.
    split; [reflexivity|]. split; [|reflexivity].
    rewrite <- !app_assoc. apply drop_app_length.
Qed.

End PublisherRequests.

(** ** The epoch manager *)

Section ManagerFacts.

Context {store : Type}.
Variable http : Request -> store -> option Response * store.

Lemma fetch_world (r : Request) (w : @World store) :
  snd (snd (fetch http r w)) = snd w ++ [r].
Proof.
  unfold fetch. destruct (post http r w) as [resp w1] eqn:E.
  pose proof (post_trace http r w) as P. rewrite E in P. simpl in P.
  destruct resp as [resp|]; [|exact P].
  destruct (negb _); [exact P|]. destruct (resp_json resp); exact P.
Qed.

(** What [process_proof] does with a proof it accepts. *)
Lemma process_proof_accepted (now : Z) (p : dict) (s : string) (m : EpochManager)
    (w : @World store) :
  dict_get "proof_id" p = JStr s -> (s ∉ processed_proof_ids m) ->
  validate_proof p = Ok true ->
  process_proof http now (JDict p) m w =
  (Ok true,
   {| config := config m; signer := signer m;
      current_epoch := current_epoch m;
      current_epoch_id := current_epoch_id m;
      epoch_started_at := epoch_started_at m;
      current_proofs := current_proofs m ++
        [{| item_proof := p;
            item_job := fst (fetch_job http (dict_get "job_cid" p) w);
            processed_at := timestamp_of now |}];
      processed_proof_ids := {[ s ]} ∪ processed_proof_ids m;
      epoch_number := epoch_number m |},
   snd (fetch_job http (dict_get "job_cid" p) w)).
Proof.
  intros Hid Hnew Hv. unfold process_proof.
  unfold proof_id_of. rewrite (dict_get_default_of_get _ _ _ _ Hid).
  rewrite bool_decide_eq_false_2 by exact Hnew. rewrite Hv.
  apply validate_proof_accepts in Hv
    as (_ & _ & _ & _ & (j & Hj & Hjc) & _ & _ & (sg & Hs & Hsp) & _).
  rewrite Hs, Hj.
  assert (Hsg : truthy (JStr sg) = true).
  { apply truthy_nonempty_str. intros ->. discriminate Hsp. }
  assert (Hjt : truthy (JStr j) = true).
  { apply truthy_nonempty_str. intros ->. discriminate Hjc. }
  rewrite Hsg, Hjt. cbn [negb].
  destruct (fetch_job http (JStr j) w) as [job w1]. reflexivity.
Qed.

(** X17.  [process_proof] returns [True] exactly when the document is an
    object that [validate_proof] accepts and whose [proof_id] is not yet
    in the set of processed identifiers.  It then sends one request,
    the [cat] of the proof's [job_cid], appends the proof with whatever
    came back as its job (the job itself is not examined) and records
    the identifier; the rest of the manager is unchanged. *)
Theorem process_proof_accepts_exactly (now : Z) (proof : json) (m : EpochManager)
    (w : @World store) :
  (fst (fst (process_proof http now proof m w)) = Ok true <->
   exists p s, proof = JDict p /\ dict_get "proof_id" p = JStr s /\
               (s ∉ processed_proof_ids m) /\ validate_proof p = Ok true) /\
  (forall p s, proof = JDict p -> dict_get "proof_id" p = JStr s ->
     (s ∉ processed_proof_ids m) -> validate_proof p = Ok true ->
     let job := fst (fetch_job http (dict_get "job_cid" p) w) in
     let m' := snd (fst (process_proof http now proof m w)) in
     let w' := snd (process_proof http now proof m w) in
     current_proofs m' = current_proofs m ++
       [{| item_proof := p; item_job := job; processed_at := timestamp_of now |}] /\
     processed_proof_ids m' = {[ s ]} ∪ processed_proof_ids m /\
     current_epoch m' = current_epoch m /\
     epoch_number m' = epoch_number m /\
     requests_since w w' = [Cat (dict_get "job_cid" p)]).
Proof.
  split.
  - split.
    + pose proof (process_proof_outcome http now proof m w) as H.
      destruct (process_proof http now proof m w) as [[r m'] w']. simpl.
      intros ->. destruct H as [(Hne & _)|(_ & p & s & job & H)]; [congruence|].
      exists p, s. tauto.
    + intros (p & s & -> & Hid & Hnew & Hv).
      now rewrite (process_proof_accepted now p s m w Hid Hnew Hv).
  - intros p s -> Hid Hnew Hv. cbv zeta.
    rewrite (process_proof_accepted now p s m w Hid Hnew Hv). simpl.
    repeat split.
    unfold fetch_job, fetch_by_cid.
    pose proof (fetch_world (Cat (dict_get "job_cid" p)) w) as P.
    destruct (fetch http (Cat (dict_get "job_cid" p)) w) as [job [s1 tr]].
    simpl in *. subst tr. apply requests_since_app.
Qed.

Lemma accumulator_ok_new (cfg : MerlinConfig) (sg : MerlinSigner) :
  accumulator_ok (new_manager cfg sg).
Proof. exists []. repeat split; constructor. Qed.

Lemma accumulator_ok_open (now : Z) (m : EpochManager) (w : @World store) :
  accumulator_ok m -> accumulator_ok (snd (fst (open_new_epoch http now m w))).
Proof.
  intros H. unfold open_new_epoch.
  destruct (publish_epoch http _ w) as [[cid|e] w1]; simpl.
  - exists []. repeat split; constructor.
  - exact H.
Qed.

Lemma accumulator_ok_process (now : Z) (proof : json) (m : EpochManager)
    (w : @World store) :
  accumulator_ok m -> accumulator_ok (snd (fst (process_proof http now proof m w))).
Proof.
  intros (ids & Hids & Hnd & Hset & Hall).
  pose proof (process_proof_outcome http now proof m w) as H.
  destruct (process_proof http now proof m w) as [[r m'] w']. simpl.
  destruct H as [(_ & -> & _)|(_ & p & s & job & _ & Hid & Hnew & Hv & Hcur & Hproc & _)].
  - exists ids. repeat split; assumption.
  - exists (ids ++ [s]). unfold accumulator_ids in *. rewrite Hcur, Hproc, Hset.
    rewrite !map_app, Hids. simpl.
    unfold proof_id_of. rewrite (dict_get_default_of_get _ _ _ _ Hid).
    repeat split.
    + apply NoDup_app. split; [exact Hnd|]. split; [|apply NoDup_singleton].
      intros x Hx Hx'. apply list_elem_of_singleton in Hx'. subst x.
      apply Hnew. rewrite Hset. now apply elem_of_list_to_set.
    + rewrite list_to_set_app_L. simpl. set_solver.
    + apply Forall_app. split; [exact Hall|]. constructor; [exact Hv | constructor].
Qed.

Lemma accumulator_ok_call (c : Call) (m : EpochManager) (w : @World store) :
  accumulator_ok m -> accumulator_ok (snd (fst (call http c m w))).
Proof.
  intros H. destruct c as [now|now|now proof|now]; simpl.
  - destruct (current_epoch m); [exact H|].
    pose proof (accumulator_ok_open now m w H) as H'.
    destruct (open_new_epoch http now m w) as [[r m'] w']. exact H'.
  - pose proof (accumulator_ok_open now m w H) as H'.
    destruct (open_new_epoch http now m w) as [[r m'] w']. exact H'.
  - pose proof (accumulator_ok_process now proof m w H) as H'.
    destruct (process_proof http now proof m w) as [[r m'] w']. exact H'.
  - destruct (seal_current_epoch http now m w). exact H.
Qed.

Lemma accumulator_ok_run (calls : list Call) (m : EpochManager) (w : @World store) :
  accumulator_ok m -> accumulator_ok (snd (fst (run http calls m w))).
Proof.
  revert m w. induction calls as [|c calls IH]; intros m w H; [exact H|].
  simpl. pose proof (accumulator_ok_call c m w H) as H1.
  destruct (call http c m w) as [[o1 m1] w1]. simpl in H1.
  specialize (IH m1 w1 H1).
  destruct (run http calls m1 w1) as [[o2 m2] w2]. exact IH.
Qed.

Lemma merkle_items_strings (ids : list string) : merkle_items (map JStr ids) = Ok ids.
Proof. induction ids as [|s ids IH]; simpl; [reflexivity|]. now rewrite IH. Qed.

(** X18.  In every state the manager reaches from its initial state, by
    any sequence of calls, the accumulator holds each [proof_id] at most
    once, every accumulated proof passed [validate_proof], the set of
    processed identifiers is exactly the set of accumulated identifiers,
    and the identifiers are strings, so that handing them to
    [compute_merkle_root] cannot fail for their type. *)
Theorem accumulator_invariant (cfg : MerlinConfig) (sg : MerlinSigner)
    (w0 : @World store) (calls : list Call) :
  let m := snd (fst (run http calls (new_manager cfg sg) w0)) in
  exists ids : list string,
    accumulator_ids m = map JStr ids /\
    NoDup ids /\
    (forall s, s ∈ processed_proof_ids m <-> s ∈ ids) /\
    Forall (fun it => validate_proof (item_proof it) = Ok true) (current_proofs m) /\
    merkle_items (accumulator_ids m) = Ok ids /\
    length ids = length (current_proofs m).
Proof.
  cbv zeta.
  destruct (accumulator_ok_run calls _ w0 (accumulator_ok_new cfg sg))
    as (ids & Hids & Hnd & Hset & Hall).
  exists ids. repeat split; try assumption.
  - rewrite Hset. apply elem_of_list_to_set.
  - rewrite Hset. apply elem_of_list_to_set.
  - rewrite Hids. apply merkle_items_strings.
  - apply (f_equal (@length json)) in Hids. unfold accumulator_ids in Hids.
    rewrite !length_map in Hids. now symmetry.
Qed.

End ManagerFacts.

Section EpochFailures.

Context {store : Type}.
Variable http : Request -> store -> option Response * store.

(** X19.  When publishing the new epoch fails, [open_new_epoch] raises
    after it has incremented the counter and before it touches anything
    else: the current epoch, the accumulator and the processed
    identifiers are as before, nothing is announced, and the number is
    used up, so the next epoch that does open skips it. *)
Theorem open_new_epoch_failure (now : Z) (m : EpochManager) (w : @World store) (e : Exn) :
  fst (fst (open_new_epoch http now m w)) = Raise e ->
  let m' := snd (fst (open_new_epoch http now m w)) in
  let w' := snd (open_new_epoch http now m w) in
  m' = {| config := config m; signer := signer m;
          current_epoch := current_epoch m;
          current_epoch_id := current_epoch_id m;
          epoch_started_at := epoch_started_at m;
          current_proofs := current_proofs m;
          processed_proof_ids := processed_proof_ids m;
          epoch_number := epoch_number m + 1 |} /\
  (forall topic data, ~ In (PubsubPub topic data) (requests_since w w')) /\
  (forall now' w2 id,
     fst (fst (open_new_epoch http now' m' w2)) = Ok id ->
     id = "epoch-" +:+ format_04d (epoch_number m + 2)).
Proof.
  intros Hr. cbv zeta.
  assert (Hm : snd (fst (open_new_epoch http now m w)) =
               {| config := config m; signer := signer m;
                  current_epoch := current_epoch m;
                  current_epoch_id := current_epoch_id m;
                  epoch_started_at := epoch_started_at m;
                  current_proofs := current_proofs m;
                  processed_proof_ids := processed_proof_ids m;
                  epoch_number := epoch_number m + 1 |}).
  { revert Hr. unfold open_new_epoch.
    destruct (publish_epoch http _ w) as [[cid|e'] w1]; simpl; [discriminate|].
    reflexivity. }
  split; [exact Hm|]. split.
  - intros topic data. revert Hr. unfold open_new_epoch, publish_epoch.
    match goal with |- context [publish_snapshot http ?d ?dir ?i w] =>
      pose proof (publish_snapshot_cases http d dir i w) as Hc;
      destruct (publish_snapshot http d dir i w) as [[cid|e'] w1]
    end; simpl; [discriminate|].
    intros _. cbv zeta in Hc. simpl in Hc.
    destruct Hc as [(cid & Hcid & _)|(e0 & _ & [Ht|Ht])]; [discriminate Hcid| |];
      rewrite Ht; simpl; intuition discriminate.
  - intros now' w2 id Hid. rewrite Hm in Hid.
    apply open_new_epoch_document in Hid as (-> & _). simpl.
    do 2 f_equal. lia.
Qed.

(** X20.  The set of processed identifiers does not outlive the epoch:
    once a new epoch has been opened, every proof that [validate_proof]
    accepts is accepted by [process_proof], also one that was accepted
    into an earlier epoch. *)
Theorem reopened_epoch_accepts_again (now now' : Z) (m : EpochManager)
    (w w' : @World store) (id : string) (p : dict) :
  fst (fst (open_new_epoch http now m w)) = Ok id ->
  validate_proof p = Ok true ->
  fst (fst (process_proof http now' (JDict p)
              (snd (fst (open_new_epoch http now m w))) w')) = Ok true.
Proof.
  intros Hopen Hv.
  apply open_new_epoch_document in Hopen as (_ & _ & _ & Hproc & _).
  destruct (validated_proof_id p "unknown" Hv) as (s & _ & Hid & _).
  rewrite (process_proof_accepted http now' p s _ w' Hid); [reflexivity| |exact Hv].
  rewrite Hproc. set_solver.
Qed.

End EpochFailures.

Lemma open_new_epoch_failure_witness :
  fst (fst (open_new_epoch offline_http example_start
              (new_manager default_config example_signer) (tt, [])))
    = Raise IOError /\
  epoch_number (snd (fst (open_new_epoch offline_http example_start
                            (new_manager default_config example_signer) (tt, [])))) = 1%Z /\
  current_epoch (snd (fst (open_new_epoch offline_http example_start
                             (new_manager default_config example_signer) (tt, [])))) = None.
Proof.
  split; [reflexivity|].
  destruct (open_new_epoch_failure offline_http example_start
              (new_manager default_config example_signer) (tt, []) IOError eq_refl)
    as (Hm & _ & _).
  rewrite Hm. split; reflexivity.
Defined.

Lemma reopened_epoch_accepts_again_witness :
  let p := item_proof (example_item "proof-001" "alice.eth" (JStr "0.10")) in
  let m1 := snd (fst (process_proof example_http (example_start + 1) (JDict p)
                        example_manager example_world)) in
  bool_decide ("proof-001" ∈ processed_proof_ids m1) = true /\
  fst (fst (process_proof example_http (example_start + 2) (JDict p) m1 example_world))
    = Ok false /\
  fst (fst (open_new_epoch example_http (example_start + 3) m1 example_world))
    = Ok "epoch-0002" /\
  fst (fst (process_proof example_http (example_start + 4) (JDict p)
              (snd (fst (open_new_epoch example_http (example_start + 3) m1 example_world)))
              example_world)) = Ok true.
Proof.
  cbv zeta. split; [vm_compute; reflexivity|]. split; [vm_compute; reflexivity|].
  split; [vm_compute; reflexivity|].
  apply (reopened_epoch_accepts_again example_http _ _ _ _ _ "epoch-0002");
    vm_compute; reflexivity.
Defined.

(** ** Settlements *)

Lemma earnings_add_keys (provider : string) (amount : float)
    (earnings : list (string * float)) :
  map fst (earnings_add provider amount earnings) =
  if bool_decide (provider ∈ map fst earnings) then map fst earnings
  else map fst earnings ++ [provider].
Proof.
  induction earnings as [|[p v] rest IH]; cbn [earnings_add map fst].
  - rewrite bool_decide_eq_false_2 by (apply not_elem_of_nil). reflexivity.
  - destruct (String.eqb_spec provider p) as [->|Hne]; cbn [map fst].
    + rewrite bool_decide_eq_true_2 by (left). reflexivity.
    + rewrite IH. destruct (bool_decide (provider ∈ map fst rest)) eqn:E.
      * apply bool_decide_eq_true in E.
        rewrite bool_decide_eq_true_2 by (now right). reflexivity.
      * apply bool_decide_eq_false in E.
        rewrite bool_decide_eq_false_2; [reflexivity|].
        intros H. apply elem_of_cons in H as [H|H]; [contradiction | contradiction].
Qed.

Lemma settle_loop_keys (share : float) (items : list Item) :
  forall (total : float) (earnings : list (string * float))
         (total' : float) (earnings' : list (string * float)),
  settle_loop share items total earnings = Ok (total', earnings') ->
  NoDup (map fst earnings) ->
  NoDup (map fst earnings') /\
  (forall p, p ∈ map fst earnings' <->
             p ∈ map fst earnings \/
             exists it, In it items /\ provider_of (item_proof it) = Ok p) /\
  (length earnings' <= length earnings + length items)%nat.
Proof.
  induction items as [|item rest IH]; intros total earnings total' earnings' Hloop Hnd;
    simpl in Hloop.
  - injection Hloop as <- <-. split; [exact Hnd|]. split; [|simpl; lia].
    intros p. split; [now left | intros [H|(it & [] & _)]; exact H].
  - destruct (reward_of (item_job item)) as [reward|]; simpl in Hloop; [|discriminate].
    destruct (provider_of (item_proof item)) as [provider|] eqn:Hp; simpl in Hloop;
      [|discriminate].
    pose proof (earnings_add_keys provider (reward * share)%float earnings) as Hk.
    apply IH in Hloop as (Hnd' & Hin & Hlen).
    + split; [exact Hnd'|]. split.
      * intros p. rewrite Hin, Hk.
        destruct (bool_decide (provider ∈ map fst earnings)) eqn:E.
        -- apply bool_decide_eq_true in E. split.
           ++ intros [H|(it & Hit & Hpit)]; [now left|].
              right. exists it. split; [now right | exact Hpit].
           ++ intros [H|(it & [<-|Hit] & Hpit)]; [now left| |].
              ** left. congruence.
              ** right. exists it. now split.
        -- split.
           ++ intros [H|(it & Hit & Hpit)].
              ** apply elem_of_app in H as [H|H]; [now left|].
                 apply list_elem_of_singleton in H as ->.
                 right. exists item. split; [now left | exact Hp].
              ** right. exists it. split; [now right | exact Hpit].
           ++ intros [H|(it & [<-|Hit] & Hpit)].
              ** left. apply elem_of_app. now left.
              ** left. apply elem_of_app. right. apply list_elem_of_singleton. congruence.
              ** right. exists it. now split.
      * apply (f_equal (@length string)) in Hk. rewrite length_map in Hk.
        destruct (bool_decide _) in Hk; rewrite ?length_app, !length_map in Hk;
          simpl in *; lia.
    + rewrite Hk. destruct (bool_decide (provider ∈ map fst earnings)) eqn:E; [exact Hnd|].
      apply bool_decide_eq_false in E.
      apply NoDup_app. split; [exact Hnd|]. split; [|apply NoDup_singleton].
      intros x Hx Hx'. apply list_elem_of_singleton in Hx' as ->. contradiction.
Qed.

(** X21.  In the settlements of an epoch every provider has one entry:
    the keys of [providers] are pairwise distinct, they are exactly the
    providers of the accumulated proofs, and [provider_count] is their
    number, at most the number of proofs. *)
Theorem settlement_providers (cfg : MerlinConfig) (items : list Item) (s : Settlements) :
  _compute_settlements cfg items = Ok s ->
  NoDup (map fst (providers s)) /\
  (forall p, p ∈ map fst (providers s) <->
             exists it, In it items /\ provider_of (item_proof it) = Ok p) /\
  provider_count s = Z.of_nat (length (providers s)) /\
  (0 <= provider_count s <= Z.of_nat (length items))%Z.
Proof.
  unfold _compute_settlements.
  destruct (settle_loop (provider_share cfg) items 0 []) as [[total earnings]|] eqn:Hloop;
    simpl; [|discriminate].
  intros H. injection H as <-. simpl.
  apply settle_loop_keys in Hloop as (Hnd & Hin & Hlen); [|constructor].
  split; [exact Hnd|]. split; [|split; [reflexivity | simpl in Hlen; lia]].
  intros p. rewrite Hin. split; [|now right].
  intros [H|H]; [|exact H]. simpl in H. now apply not_elem_of_nil in H.
Qed.

Lemma settlement_providers_witness :
  exists s,
    _compute_settlements default_config
      [ example_item "p1" "alice.eth" (JStr "0.10");
        example_item "p2" "bob.eth" (JStr "0.30");
        example_item "p3" "alice.eth" (JStr "0.20") ] = Ok s /\
    map fst (providers s) = ["alice.eth"; "bob.eth"] /\
    provider_count s = 2%Z.
Proof.
  destruct (_compute_settlements default_config
      [ example_item "p1" "alice.eth" (JStr "0.10");
        example_item "p2" "bob.eth" (JStr "0.30");
        example_item "p3" "alice.eth" (JStr "0.20") ]) as [s|e] eqn:E;
    [|vm_compute in E; discriminate E].
  exists s. split; [reflexivity|].
  destruct (settlement_providers _ _ _ E) as (_ & _ & Hc & _).
  assert (Hk : map fst (providers s) = ["alice.eth"; "bob.eth"]).
  { vm_compute in E. injection E as <-. reflexivity. }
  split; [exact Hk|]. rewrite Hc.
  apply (f_equal (@length string)) in Hk. rewrite length_map in Hk. rewrite Hk. reflexivity.
Defined.

Lemma settle_loop_raises (share : float) (items : list Item) :
  forall (total : float) (earnings : list (string * float)),
  Exists (fun it => raises (reward_of (item_job it))) items ->
  raises (settle_loop share items total earnings).
Proof.
  induction items as [|item rest IH]; intros total earnings Hex.
  - inversion Hex.
  - simpl. apply List.Exists_cons in Hex as [[e He]|Hex].
    + rewrite He. exists e. reflexivity.
    + destruct (reward_of (item_job item)) as [reward|e]; simpl; [|now exists e].
      destruct (provider_of (item_proof item)) as [provider|e]; simpl; [|now exists e].
      apply IH, Hex.
Qed.

Lemma reward_of_bad_payment (d : dict) (v : json) :
  dict_lookup "payment" d = Some v -> is_dict v = false ->
  reward_of (JDict d) = Raise AttributeError.
Proof.
  intros Hl Hd. unfold reward_of.
  destruct d as [|kv d]; [discriminate Hl|]. cbn [truthy negb].
  rewrite Hl. destruct v; try reflexivity. discriminate Hd.
Qed.

(** X22.  One accepted proof whose job document has a ["payment"] that
    is not an object is enough to make the epoch unsealable:
    [_compute_settlements] raises on it, so [seal_current_epoch] raises
    before it sends anything, at every time and against every store;
    and since sealing never changes the manager, it keeps raising. *)
Theorem seal_blocked_by_job_payment {store : Type}
    (http : Request -> store -> option Response * store)
    (m : EpochManager) (epoch : dict) :
  current_epoch m = Some epoch -> epoch <> [] ->
  Exists (fun it => exists d v, item_job it = JDict d /\
                      dict_lookup "payment" d = Some v /\ is_dict v = false)
         (current_proofs m) ->
  exists e, _compute_settlements (config m) (current_proofs m) = Raise e /\
            forall now (w : @World store),
              seal_current_epoch http now m w = (Raise e, w).
Proof.
  intros Hcur Hne Hex.
  assert (Hr : raises (settle_loop (provider_share (config m)) (current_proofs m) 0 [])).
  { apply settle_loop_raises. eapply List.Exists_impl; [|exact Hex].
    intros it (d & v & Hj & Hl & Hd). rewrite Hj.
    exists AttributeError. now apply (reward_of_bad_payment d v). }
  destruct Hr as [e He]. exists e.
  assert (Hs : _compute_settlements (config m) (current_proofs m) = Raise e).
  { unfold _compute_settlements. now rewrite He. }
  split; [exact Hs|]. intros now w. unfold seal_current_epoch. rewrite Hcur.
  destruct epoch as [|kv epoch]; [contradiction|].
  unfold seal_document. rewrite Hs. reflexivity.
Qed.

Lemma seal_blocked_by_job_payment_witness :
  let m := snd (fst (process_proof example_http (example_start + 1)
                       (example_proof (JStr "proof-001") (JStr "bafyjob1") "alice.eth")
                       example_manager
                       ({| proof_files := [];
                           job_blocks := [("bafyjob1", JDict [("payment", JStr "free")])];
                           added := []; copied := [] |}, []))) in
  length (current_proofs m) = 1%nat /\
  forall now, seal_current_epoch example_http now m example_world
              = (Raise AttributeError, example_world).
Proof.
  cbv zeta.
  match goal with |- length (current_proofs ?m) = _ /\ _ => set (m1 := m) end.
  split; [vm_compute; reflexivity|].
  destruct (seal_blocked_by_job_payment example_http m1 example_epoch) as (e & He & Hseal).
  - vm_compute. reflexivity.
  - discriminate.
  - constructor. exists [("payment", JStr "free")], (JStr "free").
    split; [vm_compute; reflexivity|]. split; reflexivity.
  - assert (e = AttributeError) as -> by (vm_compute in He; now injection He as <-).
    intros now. apply Hseal.
Defined.

(** ** The watcher's counters *)

Section WatcherCounters.

Context {store : Type}.
Variable http : Request -> store -> option Response * store.

Lemma polls_total_seen (steps : list (Z * (@World store -> @World store)))
    (pw : ProofWatcher) (w : @World store) :
  total_seen (snd (fst (polls http steps pw w))) =
  (total_seen pw + Z.of_nat (length (fst (fst (polls http steps pw w)))))%Z.
Proof.
  revert pw w. induction steps as [|[now env] rest IH]; intros pw w; simpl; [lia|].
  destruct (poll_with_ids http now pw (env w)) as [[d1 pw1] w1] eqn:E1.
  specialize (IH pw1 w1).
  destruct (polls http rest pw1 w1) as [[d2 pw2] w2]. simpl in *.
  rewrite IH, length_app.
  assert (total_seen pw1 = (total_seen pw + Z.of_nat (length d1))%Z).
  { revert E1. unfold poll_with_ids.
    destruct (list_proofs http (env w)) as [ids w0].
    destruct (poll_loop http ids (seen_proofs pw) [] w0) as [[d seen] w'].
    intros E. injection E as <- <- _. reflexivity. }
  lia.
Qed.

(** X23.  The two counters the watcher reports in [stats] always agree:
    after any run of polls of a fresh watcher, [total_seen] is the
    number of identifiers in [seen_proofs], which is the number of
    proofs delivered so far; the seen set holds exactly the delivered
    identifiers. *)
Theorem watcher_counters_agree (steps : list (Z * (@World store -> @World store)))
    (now0 : Z) (w : @World store) :
  let delivered := fst (fst (polls http steps (new_watcher now0) w)) in
  let pw := snd (fst (polls http steps (new_watcher now0) w)) in
  total_seen pw = Z.of_nat (size (seen_proofs pw)) /\
  total_seen pw = Z.of_nat (length delivered) /\
  seen_proofs pw = list_to_set (map fst delivered).
Proof.
  cbv zeta.
  pose proof (polls_total_seen steps (new_watcher now0) w) as Ht.
  pose proof (polls_spec http steps (new_watcher now0) w) as Hs.
  destruct (polls http steps (new_watcher now0) w) as [[delivered pw] w'].
  cbv zeta in Hs. simpl in *. destruct Hs as (_ & Hnd & _ & Hseen).
  assert (Hset : seen_proofs pw = list_to_set (map fst delivered))
    by (rewrite Hseen; set_solver).
  split; [|split; [lia | exact Hset]].
  rewrite Ht, Hset, size_list_to_set by exact Hnd. rewrite length_map. lia.
Qed.

End WatcherCounters.

(** ** The supervisor loop *)

Section TickFacts.

Context {store : Type}.
Variable http : Request -> store -> option Response * store.

Lemma process_all_app (now : Z) (l1 l2 : list json) (m : EpochManager)
    (w : @World store) :
  process_all http now (l1 ++ l2) m w =
  match fst (fst (process_all http now l1 m w)) with
  | Raise e => process_all http now l1 m w
  | Ok _ => process_all http now l2 (snd (fst (process_all http now l1 m w)))
              (snd (process_all http now l1 m w))
  end.
Proof.
  revert m w. induction l1 as [|p l1 IH]; intros m w; simpl; [reflexivity|].
  destruct (process_proof http now p m w) as [[[b|e] m1] w1]; simpl; [apply IH|].
  reflexivity.
Qed.

Lemma poll_marks_delivered (now : Z) (pw : ProofWatcher) (w : @World store) (id : string) :
  In id (map fst (fst (fst (poll_with_ids http now pw w)))) ->
  id ∈ seen_proofs (snd (fst (poll_with_ids http now pw w))).
Proof.
  unfold poll_with_ids.
  destruct (list_proofs http w) as [ids w0].
  pose proof (poll_loop_spec http ids (seen_proofs pw) [] w0) as H.
  destruct (poll_loop http ids (seen_proofs pw) [] w0) as [[d seen] w1].
  cbv zeta in H. simpl in *. destruct H as (Hd & _ & _ & Hseen).
  intros Hin. rewrite Hseen, <- Hd. apply elem_of_union_l, elem_of_list_to_set.
  now apply list_elem_of_In.
Qed.

(** X24.  An exception in [process_proof] ends the iteration of the
    loop at that proof: the proofs the poll delivered after it are not
    handed to the epoch manager, no seal is attempted, and since the
    poll has already marked every delivered proof as seen, no later poll
    delivers them again. *)
Theorem tick_stops_at_first_exception (now : Z) (pw : ProofWatcher) (m : EpochManager)
    (w : @World store) (l1 l2 : list json) (p : json) (e : Exn) :
  fst (fst (poll http now pw w)) = l1 ++ p :: l2 ->
  fst (fst (process_all http now l1 m (snd (poll http now pw w)))) = Ok tt ->
  fst (fst (process_proof http now p
              (snd (fst (process_all http now l1 m (snd (poll http now pw w)))))
              (snd (process_all http now l1 m (snd (poll http now pw w)))))) = Raise e ->
  tick http now pw m w =
    (Raise e, snd (fst (poll http now pw w)),
     snd (fst (process_all http now l1 m (snd (poll http now pw w)))),
     snd (process_all http now l1 m (snd (poll http now pw w)))) /\
  (forall id, In id (map fst (fst (fst (poll_with_ids http now pw w)))) ->
     id ∈ seen_proofs (snd (fst (poll http now pw w))) /\
     forall steps w',
       ~ In id (map fst (fst (fst (polls http steps
                                     (snd (fst (poll http now pw w))) w'))))).
Proof.
  intros Hpoll Hl1 Hp. split.
  - unfold tick. destruct (poll http now pw w) as [[delivered pw1] w1]. simpl in *.
    subst delivered. rewrite process_all_app.
    destruct (process_all http now l1 m w1) as [[r1 m1] w2]. simpl in *. subst r1.
    pose proof (process_proof_never_partial http now p m1 w2) as Hnp.
    destruct (process_proof http now p m1 w2) as [[r m2] w3]. simpl in *. subst r.
    destruct Hnp as [-> ->]; [discriminate|]. reflexivity.
  - intros id Hin.
    assert (Hseen : id ∈ seen_proofs (snd (fst (poll http now pw w)))).
    { pose proof (poll_marks_delivered now pw w id Hin) as H.
      unfold poll. destruct (poll_with_ids http now pw w) as [[d pw1] w1]. exact H. }
    split; [exact Hseen|]. intros steps w' Hd.
    pose proof (polls_spec http steps (snd (fst (poll http now pw w))) w') as Hs.
    destruct (polls http steps (snd (fst (poll http now pw w))) w')
      as [[delivered pw'] w''].
    cbv zeta in Hs. simpl in Hd. destruct Hs as (Hdel & _ & Hnew & _).
    apply (Hnew id); [|exact Hseen].
    rewrite Hdel in Hd. apply in_map_iff in Hd as (a & Ha & Hin').
    apply filter_In in Hin' as [Hin' _]. apply in_map_iff. now exists a.
Qed.

End TickFacts.

Lemma tick_stops_at_first_exception_witness :
  let proofs :=
    [("a.json", example_proof (JStr "a") (JStr "bafyjob1") "alice.eth");
     ("b.json", JDict [("type", JStr "proof"); ("proof_id", JStr "b"); ("job_cid", JInt 5)]);
     ("c.json", example_proof (JStr "c") (JStr "bafyjob1") "carol.eth")] in
  let w := ({| proof_files := proofs; job_blocks := [];
               added := []; copied := [] |}, []) : @World ExampleStore in
  let now := (example_start + 1000000)%Z in
  length (fst (fst (poll example_http now (new_watcher example_start) w))) = 3%nat /\
  fst (fst (fst (tick example_http now (new_watcher example_start) example_manager w)))
    = Raise TypeError /\
  map (fun it => dict_get "proof_id" (item_proof it))
      (current_proofs
         (snd (fst (tick example_http now (new_watcher example_start) example_manager w))))
    = [JStr "a"].
Proof.
  cbv zeta.
  match goal with
  | |- length (fst (fst (poll _ ?now ?pw ?w))) = _ /\ _ =>
      destruct (tick_stops_at_first_exception example_http now pw example_manager w
                  [example_proof (JStr "a") (JStr "bafyjob1") "alice.eth"]
                  [example_proof (JStr "c") (JStr "bafyjob1") "carol.eth"]
                  (JDict [("type", JStr "proof"); ("proof_id", JStr "b");
                          ("job_cid", JInt 5)])
                  TypeError) as [Ht _]
  end.
  - vm_compute. reflexivity.
  - vm_compute. reflexivity.
  - vm_compute. reflexivity.
  - split; [vm_compute; reflexivity|]. rewrite Ht. split; [reflexivity|].
    vm_compute. reflexivity.
Defined.

(** ** Listing a directory *)

Lemma str_drop_app (a b : string) : str_drop (String.length a) (a +:+ b) = b.
Proof. induction a as [|c a IH]; simpl; [now destruct b | exact IH]. Qed.

Lemma str_length_app (a b : string) :
  String.length (a +:+ b) = (String.length a + String.length b)%nat.
Proof. induction a as [|c a IH]; simpl; [reflexivity | now rewrite IH]. Qed.

Lemma endswith_app (a p : string) : endswith p (a +:+ p) = true.
Proof.
  unfold endswith. rewrite str_length_app.
  replace (String.length a + String.length p - String.length p)%nat
    with (String.length a) by lia.
  rewrite str_drop_app, String.eqb_refl. simpl. apply Nat.leb_le. lia.
Qed.

Lemma prefix_cons (a b : ascii) (s1 s2 : string) :
  String.prefix (String a s1) (String b s2) = (Ascii.eqb a b && String.prefix s1 s2).
Proof.
  cbn [String.prefix]. destruct (ascii_dec a b) as [->|Hne].
  - now rewrite Ascii.eqb_refl.
  - apply Ascii.eqb_neq in Hne. now rewrite Hne.
Qed.

Lemma append_cons (c : ascii) (a b : string) : String c a +:+ b = String c (a +:+ b).
Proof. reflexivity. Qed.

Lemma append_nil (b : string) : "" +:+ b = b.
Proof. reflexivity. Qed.

Lemma prefix_nil_r (a : ascii) (s : string) : String.prefix (String a s) "" = false.
Proof. reflexivity. Qed.

(** [".json"] has no border: in [b + ".json"] it cannot start inside a
    nonempty [b] unless it lies within [b]. *)
Lemma json_suffix_no_border (b : string) :
  b <> "" -> startswith ".json" (b +:+ ".json") = true -> startswith ".json" b = true.
Proof.
  intros Hb. unfold startswith.
  destruct b as [|c1 [|c2 [|c3 [|c4 [|c5 b]]]]]; [contradiction| | | | |];
    rewrite ?append_cons, ?append_nil; rewrite ?prefix_cons, ?prefix_nil_r;
    repeat match goal with
    | |- context [Ascii.eqb ?a ?b] =>
        is_var b; destruct (Ascii.eqb a b); cbn [andb]
    end;
    try discriminate; try (intros H; vm_compute in H; discriminate H).
  intros _. now destruct b.
Qed.

Lemma str_remove_all_json (base : string) (fuel : nat) :
  str_contains ".json" base = false ->
  (String.length base < fuel)%nat ->
  str_remove_all fuel ".json" (base +:+ ".json") = base.
Proof.
  revert fuel. induction base as [|c base IH]; intros fuel Hc Hf.
  - destruct fuel as [|fuel]; [simpl in Hf; lia|]. destruct fuel; reflexivity.
  - destruct fuel as [|fuel]; [simpl in Hf; lia|].
    apply orb_false_iff in Hc as [Hs Hc].
    assert (Hs' : startswith ".json" (String c base +:+ ".json") = false).
    { destruct (startswith ".json" (String c base +:+ ".json")) eqn:E; [|reflexivity].
      apply json_suffix_no_border in E; [congruence | discriminate]. }
    rewrite append_cons in Hs' |- *. cbn [str_remove_all]. rewrite Hs'.
    f_equal. apply IH; [exact Hc | simpl in Hf; lia].
Qed.

Section ListingFacts.

Context {store : Type}.
Variable http : Request -> store -> option Response * store.

Lemma listing_names_json (entries : list json) (bases : list string) :
  Forall2 (fun e b => exists d, e = JDict d /\
                        dict_lookup "Name" d = Some (JStr (b +:+ ".json")) /\
                        str_contains ".json" b = false) entries bases ->
  listing_names entries = Some bases.
Proof.
  induction 1 as [|e b entries bases (d & -> & Hn & Hc) HF IH]; [reflexivity|].
  simpl. rewrite Hn, IH, endswith_app.
  rewrite str_remove_all_json; [reflexivity | exact Hc|].
  rewrite str_length_app. simpl. lia.
Qed.

(** X25.  When the store lists files [b.json] whose base names [b] do
    not contain [".json"], [list_directory] returns exactly the base
    names, in the order of the listing, and [fetch_proof] of each
    returned name reads the listed file.  (For a file such as
    [a.json.json] every [".json"] is removed, and the name returned,
    [a], belongs to another file.) *)
Theorem list_directory_round_trip (path : string) (w : @World store)
    (resp : Response) (result : dict) (entries : list json) (bases : list string) :
  fst (http (FilesLs path) (fst w)) = Some resp ->
  resp_status resp = 200%Z ->
  resp_json resp = Some (JDict result) ->
  dict_lookup "Entries" result = Some (JList entries) ->
  Forall2 (fun e b => exists d, e = JDict d /\
                        dict_lookup "Name" d = Some (JStr (b +:+ ".json")) /\
                        str_contains ".json" b = false) entries bases ->
  fst (list_directory http path w) = bases /\
  requests_since w (snd (list_directory http path w)) = [FilesLs path] /\
  forall b w', In b bases ->
    requests_since w' (snd (fetch_proof http b w'))
    = [FilesRead ("/swarmpool/proofs/" +:+ b +:+ ".json")].
Proof.
  intros Hresp Hst Hjson Hent HF.
  pose proof (listing_names_json entries bases HF) as Hnames.
  unfold list_directory.
  pose proof (post_world http (FilesLs path) w) as Pw.
  unfold post in *. destruct (http (FilesLs path) (fst w)) as [r s1]. simpl in *.
  subst r. rewrite Hst, Hjson. cbn [Z.eqb Pos.eqb negb].
  unfold dict_get_default. rewrite Hent.
  split; [|split].
  - destruct entries as [|e entries]; cbn [truthy].
    + inversion HF. reflexivity.
    + now rewrite Hnames.
  - assert (Hw : forall x : list string, snd (x, (s1, snd w ++ [FilesLs path]))
                   = (s1, snd w ++ [FilesLs path])) by reflexivity.
    destruct entries as [|e entries]; cbn [truthy];
      [|rewrite Hnames]; simpl; apply requests_since_app.
  - intros b w' _. unfold fetch_proof, fetch_file.
    pose proof (fetch_world http (FilesRead ("/swarmpool/proofs/" +:+ b +:+ ".json")) w') as P.
    destruct (fetch http _ w') as [v [s2 tr]]. simpl in *. subst tr.
    apply requests_since_app.
Qed.

End ListingFacts.

Lemma list_directory_round_trip_witness :
  let w := ({| proof_files := [("proof-001.json", JNull); ("proof-002.json", JNull)];
               job_blocks := []; added := []; copied := [] |}, []) : @World ExampleStore in
  fst (list_proofs example_http w) = ["proof-001"; "proof-002"].
Proof.
  cbv zeta.
  match goal with |- fst (list_proofs _ ?w) = _ => set (w0 := w) end.
  destruct (list_directory_round_trip example_http "/swarmpool/proofs" w0
              {| resp_status := 200;
                 resp_json := Some (JDict [("Entries",
                   JList [JDict [("Name", JStr "proof-001.json"); ("Type", JInt 0)];
                          JDict [("Name", JStr "proof-002.json"); ("Type", JInt 0)]])]) |}
              [("Entries",
                JList [JDict [("Name", JStr "proof-001.json"); ("Type", JInt 0)];
                       JDict [("Name", JStr "proof-002.json"); ("Type", JInt 0)]])]
              [JDict [("Name", JStr "proof-001.json"); ("Type", JInt 0)];
               JDict [("Name", JStr "proof-002.json"); ("Type", JInt 0)]]
              ["proof-001"; "proof-002"]) as (H & _);
    [reflexivity | reflexivity | reflexivity | reflexivity | | exact H].
  constructor; [eexists; repeat split; reflexivity|].
  constructor; [eexists; repeat split; reflexivity | constructor].
Defined.

(** A file whose name holds [".json"] twice is listed under a name that
    is not its own. *)
Example listing_strips_every_json :
  listing_names [JDict [("Name", JStr "a.json.json")]; JDict [("Name", JStr "a.json")]]
  = Some ["a"; "a"].
Proof. reflexivity. Qed.

(** ** Epoch identifiers *)

Lemma zeros_string_of_uint (k : nat) (d : Decimal.uint) :
  zeros k +:+ NilEmpty.string_of_uint d =
  NilEmpty.string_of_uint (Nat.iter k Decimal.D0 d).
Proof.
  induction k as [|k IH]; [reflexivity|].
  simpl. rewrite <- IH. reflexivity.
Qed.

Lemma format_04d_uint (n : Z) :
  (0 <= n)%Z ->
  exists d k, Z.to_int n = Decimal.Pos d /\ d <> Decimal.Nil /\
              format_04d n = NilEmpty.string_of_uint (Nat.iter k Decimal.D0 d).
Proof.
  intros Hn. unfold format_04d, zfill, Z_to_string.
  destruct (Z.ltb_spec n 0) as [Hlt|_]; [lia|].
  assert (H : exists d, Z.to_int n = Decimal.Pos d /\ d <> Decimal.Nil).
  { destruct n as [|p|p]; [| |lia].
    - exists Decimal.zero. split; [reflexivity | discriminate].
    - exists (Pos.to_uint p). split; [reflexivity|].
      intros E. pose proof (DecimalPos.Unsigned.of_to p) as Hp.
      rewrite E in Hp. discriminate Hp. }
  destruct H as (d & Hd & Hne). exists d. eexists. split; [exact Hd|].
  split; [exact Hne|]. rewrite Hd.
  assert (Hs : NilZero.string_of_int (Decimal.Pos d) = NilEmpty.string_of_uint d).
  { simpl. unfold NilZero.string_of_uint. destruct d; [contradiction|..]; reflexivity. }
  rewrite Hs. apply zeros_string_of_uint.
Qed.

(** [f"{n:04d}"] is injective on the natural numbers. *)
Lemma format_04d_inj (n1 n2 : Z) :
  (0 <= n1)%Z -> (0 <= n2)%Z -> format_04d n1 = format_04d n2 -> n1 = n2.
Proof.
  intros H1 H2 E.
  destruct (format_04d_uint n1 H1) as (d1 & k1 & Hd1 & _ & F1).
  destruct (format_04d_uint n2 H2) as (d2 & k2 & Hd2 & _ & F2).
  rewrite F1, F2 in E.
  assert (Hu : Nat.iter k1 Decimal.D0 d1 = Nat.iter k2 Decimal.D0 d2).
  { apply (f_equal NilEmpty.uint_of_string) in E.
    rewrite !NilEmpty.usu in E. now injection E. }
  apply (f_equal Decimal.unorm) in Hu. rewrite !DecimalFacts.unorm_iter_D0 in Hu.
  rewrite <- (DecimalZ.of_to n1), <- (DecimalZ.of_to n2), Hd1, Hd2.
  rewrite <- (DecimalZ.of_int_norm (Decimal.Pos d1)),
          <- (DecimalZ.of_int_norm (Decimal.Pos d2)).
  simpl Decimal.norm. now rewrite Hu.
Qed.

Lemma get_epoch_name_period (n : Z) : get_epoch_name (n + 26) = get_epoch_name n.
Proof.
  unfold get_epoch_name. change (Z.of_nat (length NATO_ALPHABET)) with 26%Z.
  replace ((n + 26) mod 26)%Z with (n mod 26)%Z; [reflexivity|].
  rewrite <- (Z.mul_1_l 26) at 2. now rewrite Z.mod_add.
Qed.

(** X26.  No two epochs opened in the lifetime of a manager get the same
    identifier: two successful calls of [open_new_epoch] in a run that
    returned the same [epoch_id] are one and the same call.  (Names do
    repeat: the epoch [n + 26] has the name of the epoch [n].) *)
Theorem opened_epoch_ids_distinct {store : Type}
    (http : Request -> store -> option Response * store)
    (cfg : MerlinConfig) (sg : MerlinSigner) (w0 : @World store) (calls : list Call)
    (i j : nat) (id : string) (n1 n2 : Z) :
  nth_error (fst (fst (run http calls (new_manager cfg sg) w0))) i = Some (Ok id, n1) ->
  nth_error (fst (fst (run http calls (new_manager cfg sg) w0))) j = Some (Ok id, n2) ->
  i = j /\ n1 = Z.of_nat (S i) /\ id = "epoch-" +:+ format_04d n1 /\
  get_epoch_name (n1 + 26) = get_epoch_name n1.
Proof.
  pose proof (run_counter http calls (new_manager cfg sg) w0) as H.
  destruct (run http calls (new_manager cfg sg) w0) as [[opened m] w]. simpl in *.
  destruct H as (_ & Hnum & Hid).
  assert (Hn : forall k o, nth_error opened k = Some o -> snd o = Z.of_nat (S k)).
  { intros k o Hk.
    assert (Hk' : nth_error (map snd opened) k = Some (snd o))
      by (rewrite nth_error_map, Hk; reflexivity).
    rewrite Hnum, nth_error_map in Hk'.
    destruct (nth_error (seq 1 (length opened)) k) as [x|] eqn:Ex; [|discriminate].
    assert (Hlt : (k < length opened)%nat).
    { apply nth_error_Some. rewrite Hk. discriminate. }
    rewrite nth_error_seq in Ex.
    destruct (Nat.ltb_spec k (length opened)); [|lia].
    injection Ex as <-. simpl in Hk'. injection Hk' as <-. lia. }
  assert (Hf : forall k o, nth_error opened k = Some o ->
                 forall id', fst o = Ok id' -> id' = "epoch-" +:+ format_04d (snd o)).
  { intros k o Hk. rewrite List.Forall_forall in Hid. apply Hid.
    eapply nth_error_In, Hk. }
  intros Hi Hj.
  pose proof (Hn _ _ Hi) as E1. pose proof (Hn _ _ Hj) as E2. simpl in E1, E2.
  pose proof (Hf _ _ Hi id eq_refl) as F1. pose proof (Hf _ _ Hj id eq_refl) as F2.
  simpl in F1, F2.
  assert (E : n1 = n2).
  { apply format_04d_inj; try lia.
    rewrite F1 in F2. now injection F2. }
  repeat split; [lia | exact E1 | exact F1 | apply get_epoch_name_period].
Qed.

Lemma opened_epoch_ids_distinct_witness :
  fst (fst (run example_http [CallOpen example_start; CallOpen (example_start + 1)]
              (new_manager default_config example_signer) (empty_store, [])))
    = [(Ok "epoch-0001", 1%Z); (Ok "epoch-0002", 2%Z)] /\
  get_epoch_name 27 = get_epoch_name 1.
Proof.
  split; [vm_compute; reflexivity|].
  destruct (opened_epoch_ids_distinct example_http default_config example_signer
              (empty_store, []) [CallOpen example_start; CallOpen (example_start + 1)]
              0 0 "epoch-0001" 1 1) as (_ & _ & _ & H);
    [vm_compute; reflexivity | vm_compute; reflexivity | exact H].
Defined.

(** ** The heartbeat *)

Section HeartbeatFacts.

Context {store : Type}.
Variable http : Request -> store -> option Response * store.

Lemma _publish_heartbeat_step (now : Z) (d : Merlin) (w : @World store) :
  let L := last_heartbeat_or_zero (_last_heartbeat d) in
  let r := fst (fst (_publish_heartbeat http now d w)) in
  let d1 := snd (fst (_publish_heartbeat http now d w)) in
  let w1 := snd (_publish_heartbeat http now d w) in
  epoch_manager d1 = epoch_manager d /\
  ((r = Ok None /\ last_heartbeat_or_zero (_last_heartbeat d1) = L /\ w1 = w) \/
   (r <> Ok None /\ spaced L (timestamp_float now) /\
    last_heartbeat_or_zero (_last_heartbeat d1) = timestamp_float now /\
    (w1 = w \/ exists msg, snd w1 = snd w ++ [PubsubPub (heartbeat_topic d) msg]))).
Proof.
  cbv zeta. unfold _publish_heartbeat, spaced.
  destruct (PrimFloat.ltb _ 30) eqn:Elt; simpl.
  - split; [reflexivity|]. left. repeat split.
  - destruct (match start_time d with Some _ => _ | None => _ end) as [up|e];
      [destruct (py_int_of_float (timestamp_float now)) as [ts|e]|]; simpl;
      (split; [reflexivity|]); right; repeat split; try discriminate;
      try (left; reflexivity).
    right. eexists. apply pubsub_publish_trace.
Qed.

Lemma heartbeats_spec (times : list Z) (d : Merlin) (w : @World store) :
  let L := last_heartbeat_or_zero (_last_heartbeat d) in
  let due := fst (fst (heartbeats http times d w)) in
  let w' := snd (heartbeats http times d w) in
  Sorted (fun a b => spaced (timestamp_float a) (timestamp_float b)) due /\
  (forall t, hd_error due = Some t -> spaced L (timestamp_float t)) /\
  exists reqs,
    snd w' = snd w ++ reqs /\
    Forall (fun r => exists msg, r = PubsubPub (heartbeat_topic d) msg) reqs /\
    (length reqs <= length due)%nat.
Proof.
  cbv zeta. revert d w. induction times as [|now rest IH]; intros d w.
  - simpl. split; [constructor|]. split; [discriminate|].
    exists []. rewrite app_nil_r. repeat split; constructor.
  - simpl. pose proof (_publish_heartbeat_step now d w) as Hs. cbv zeta in Hs.
    destruct (_publish_heartbeat http now d w) as [[r d1] w1]. simpl in Hs.
    specialize (IH d1 w1).
    destruct (heartbeats http rest d1 w1) as [[due d2] w2]. simpl in *.
    destruct IH as (Hsorted & Hhd & reqs & Htr & Hall & Hlen).
    destruct Hs as (Hem & [(-> & HL & ->)|(Hr & Hsp & HL & Hw)]).
    + rewrite HL in Hhd. split; [exact Hsorted|]. split; [exact Hhd|].
      exists reqs. repeat split; try assumption.
      unfold heartbeat_topic in *. now rewrite <- Hem.
    + rewrite HL in Hhd.
      assert (Hall' : Forall (fun r => exists msg, r = PubsubPub (heartbeat_topic d) msg) reqs)
        by (unfold heartbeat_topic in *; now rewrite <- Hem).
      assert (Hres : Sorted (fun a b => spaced (timestamp_float a) (timestamp_float b))
                       (now :: due) /\
                     (forall t, hd_error (now :: due) = Some t ->
                        spaced (last_heartbeat_or_zero (_last_heartbeat d))
                               (timestamp_float t)) /\
                     exists reqs0, snd w2 = snd w ++ reqs0 /\
                       Forall (fun r => exists msg, r = PubsubPub (heartbeat_topic d) msg)
                         reqs0 /\
                       (length reqs0 <= length (now :: due))%nat).
      { split; [constructor; [exact Hsorted|]|split].
        - destruct due as [|t due]; constructor. apply Hhd. reflexivity.
        - intros t Ht. injection Ht as <-. exact Hsp.
        - destruct Hw as [->|(msg & Hw)].
          + exists reqs. repeat split; try assumption. simpl. lia.
          + exists (PubsubPub (heartbeat_topic d) msg :: reqs). split; [|split].
            * rewrite Htr, Hw, <- app_assoc. reflexivity.
            * constructor; [now exists msg | exact Hall'].
            * simpl. lia. }
      destruct r as [[hb|]|e]; try exact Hres. contradiction.
Qed.

(** X27.  Heartbeats are at least 30 seconds apart: over any sequence
    of calls of [_publish_heartbeat], each time at which a heartbeat is
    due is at least 30 seconds (by the test the code makes) after the
    previous one, and the first at least 30 seconds after the last
    heartbeat before the run (the Unix epoch for a fresh daemon); every
    request the calls send is a publication on [/<pool>/heartbeats], and
    there is at most one per time a heartbeat is due. *)
Theorem heartbeat_rate_limit (times : list Z) (d : Merlin) (w : @World store) :
  let due := fst (fst (heartbeats http times d w)) in
  let w' := snd (heartbeats http times d w) in
  Sorted (fun a b => spaced (timestamp_float a) (timestamp_float b)) due /\
  (forall t, hd_error due = Some t ->
     spaced (last_heartbeat_or_zero (_last_heartbeat d)) (timestamp_float t)) /\
  Forall (fun r => exists msg, r = PubsubPub (heartbeat_topic d) msg)
         (requests_since w w') /\
  (length (requests_since w w') <= length due)%nat.
Proof.
  cbv zeta. destruct (heartbeats_spec times d w) as (Hs & Hh & reqs & Htr & Hall & Hlen).
  split; [exact Hs|]. split; [exact Hh|].
  assert (Hreq : requests_since w (snd (heartbeats http times d w)) = reqs).
  { unfold requests_since. rewrite Htr. apply drop_app_length. }
  rewrite Hreq. split; assumption.
Qed.

End HeartbeatFacts.

(** A daemon started at [example_start] and called every 10 seconds for
    a minute and a half publishes three heartbeats: at once, and 30 and
    60 seconds later. *)
Example heartbeats_every_thirty_seconds :
  let d := {| epoch_manager := example_manager;
              proof_watcher := new_watcher example_start;
              running := true; start_time := Some example_start;
              _last_heartbeat := None |} in
  let times := map (fun k => (example_start + Z.of_nat k * 10000000)%Z) (seq 0 10) in
  fst (fst (heartbeats example_http times d example_world))
    = [example_start; (example_start + 30000000)%Z; (example_start + 60000000)%Z;
       (example_start + 90000000)%Z] /\
  map (fun r => match r with
                | PubsubPub topic msg => (topic, dict_get "uptime_seconds" msg)
                | _ => ("", JNull)
                end)
      (requests_since example_world
         (snd (heartbeats example_http times d example_world)))
    = [("/swarmpool.eth/heartbeats", JInt 0); ("/swarmpool.eth/heartbeats", JInt 30);
       ("/swarmpool.eth/heartbeats", JInt 60); ("/swarmpool.eth/heartbeats", JInt 90)].
Proof. vm_compute. split; reflexivity. Qed.

(** ** What a seal contains and what the manager sends *)

(** X28.  The document [seal_current_epoch] builds: status ["sealed"];
    [ended_at] and [timestamp] the time of the seal; both counts the
    number of accumulated proofs; [proofs] their identifiers in the
    order of arrival; [merkle_root] the root [compute_merkle_root]
    returns for these identifiers (the zero root when there are none);
    [settlements] what [_compute_settlements] returns, with its total,
    to two decimals, as [total_volume_usdc]; every other field
    ([epoch_id], [epoch_number], [name], [started_at], [controller], ...)
    as in the open epoch. *)
Theorem sealed_document_contents (now : Z) (m : EpochManager) (epoch : dict)
    (s : Settlements) (root : string) (doc : dict) :
  seal_document now m epoch = Ok (s, root, doc) ->
  dict_get "status" doc = JStr "sealed" /\
  dict_get "ended_at" doc = JInt (timestamp_of now) /\
  dict_get "timestamp" doc = JInt (timestamp_of now) /\
  dict_get "jobs_count" doc = JInt (Z.of_nat (length (current_proofs m))) /\
  dict_get "proofs_count" doc = JInt (Z.of_nat (length (current_proofs m))) /\
  dict_get "proofs" doc = JList (accumulator_ids m) /\
  dict_get "merkle_root" doc = JStr root /\
  dict_get "settlements" doc = settlements_json s /\
  dict_get "total_volume_usdc" doc = JStr (PyFloat.format_2f (total_volume s)) /\
  _compute_settlements (config m) (current_proofs m) = Ok s /\
  (forall k, ~ In k sealed_keys -> dict_get k doc = dict_get k epoch) /\
  (current_proofs m = [] -> root = zero_root) /\
  (forall ids, current_proofs m <> [] -> accumulator_ids m = map JStr ids ->
     compute_merkle_root ids = Ok root).
Proof.
  intros Hseal.
  destruct (seal_document_inv _ _ _ _ _ _ Hseal) as [Hs ->].
  rewrite !sealed_epoch_doc_get. cbn [String.eqb Ascii.eqb Bool.eqb].
  repeat split; try reflexivity; try exact Hs.
  - intros k Hk. rewrite sealed_epoch_doc_get. unfold sealed_keys in Hk.
    repeat match goal with
    | |- context [String.eqb k ?x] =>
        destruct (String.eqb_spec k x); [subst k; exfalso; apply Hk; simpl; tauto|]
    end. reflexivity.
  - intros Hempty. unfold seal_document in Hseal. rewrite Hs, Hempty in Hseal.
    simpl in Hseal. congruence.
  - intros ids Hne Hids. unfold seal_document in Hseal. rewrite Hs in Hseal.
    cbn [rbind] in Hseal. fold (accumulator_ids m) in Hseal. rewrite Hids in Hseal.
    destruct ids as [|i ids].
    + destruct (current_proofs m) eqn:E; [contradiction|].
      unfold accumulator_ids in Hids. rewrite E in Hids. discriminate Hids.
    + cbn [map] in Hseal. rewrite <- (map_cons JStr i ids) in Hseal.
      rewrite merkle_items_strings in Hseal. cbn [rbind] in Hseal.
      destruct (compute_merkle_root (i :: ids)) as [r|e]; [|discriminate Hseal].
      simpl in Hseal. congruence.
Qed.

Lemma sealed_document_contents_witness :
  exists s root doc,
    seal_after_first_tick
      [("a.json", example_proof (JStr "a") (JStr "bafyjob1") "alice.eth");
       ("b.json", example_proof (JStr "b") (JStr "bafyjob1") "bob.eth")]
      [("bafyjob1", example_job (JStr "0.10"))] = Ok (s, root, doc) /\
    dict_get "proofs" doc = JList [JStr "a"; JStr "b"] /\
    dict_get "jobs_count" doc = JInt 2 /\
    dict_get "epoch_id" doc = JStr "epoch-0001" /\
    compute_merkle_root ["a"; "b"] = Ok root.
Proof.
  destruct (seal_after_first_tick
      [("a.json", example_proof (JStr "a") (JStr "bafyjob1") "alice.eth");
       ("b.json", example_proof (JStr "b") (JStr "bafyjob1") "bob.eth")]
      [("bafyjob1", example_job (JStr "0.10"))]) as [[[s root] doc]|e] eqn:E;
    [|vm_compute in E; discriminate E].
  exists s, root, doc. split; [reflexivity|].
  unfold seal_after_first_tick in E.
  destruct (after_first_tick
      [("a.json", example_proof (JStr "a") (JStr "bafyjob1") "alice.eth");
       ("b.json", example_proof (JStr "b") (JStr "bafyjob1") "bob.eth")]
      [("bafyjob1", example_job (JStr "0.10"))]) as [[[r pw] m0] w0] eqn:Et.
  assert (Hids : accumulator_ids m0 = map JStr ["a"; "b"]).
  { unfold after_first_tick in Et. vm_compute in Et. injection Et as _ _ <- _.
    reflexivity. }
  destruct (sealed_document_contents _ _ _ _ _ _ E)
    as (_ & _ & _ & Hj & _ & Hp & _ & _ & _ & _ & Hk & _ & Hroot).
  split; [rewrite Hp, Hids; reflexivity|].
  split; [rewrite Hj; f_equal;
          apply (f_equal (@length json)) in Hids; unfold accumulator_ids in Hids;
          rewrite length_map in Hids; rewrite Hids; reflexivity|].
  split.
  - rewrite Hk; [reflexivity|]. unfold sealed_keys. simpl. intuition discriminate.
  - apply Hroot; [|exact Hids].
    intros Hnil. unfold accumulator_ids in Hids. rewrite Hnil in Hids. discriminate Hids.
Defined.

Section EpochRequests.

Context {store : Type}.
Variable http : Request -> store -> option Response * store.

Lemma trace_since (w w' : @World store) :
  (exists rest, snd w' = snd w ++ rest) -> snd w' = snd w ++ requests_since w w'.
Proof.
  intros [rest H]. unfold requests_since. rewrite H at 1. f_equal.
  rewrite H. symmetry. apply drop_app_length.
Qed.

(** The requests of a successful [publish_epoch]. *)
Lemma publish_epoch_success (data : dict) (w : @World store) (cid : json) (id : string) :
  fst (publish_epoch http data w) = Ok cid ->
  dict_get "epoch_id" data = JStr id ->
  snd (snd (publish_epoch http data w)) =
  snd w ++ [ Add (id +:+ ".json") (dumps (JDict data));
             FilesRm ("/swarmledger/epochs/" +:+ id +:+ ".json");
             FilesCp [("arg", "/swarmledger/epochs/" +:+ id +:+ ".json")];
             PinAdd cid ].
Proof.
  intros Hok Hid. unfold publish_epoch in *.
  rewrite (dict_get_default_of_get _ _ _ _ Hid) in *.
  pose proof (publish_snapshot_cases http data "/swarmledger/epochs" (JStr id) w) as Hc.
  pose proof (publish_snapshot_trace http data "/swarmledger/epochs" (JStr id) w)
    as [rest Ht].
  cbv zeta in Hc. rewrite Hok in Hc.
  destruct Hc as [(cid' & Hcid & Hreq)|(e & He & _)]; [|discriminate He].
  injection Hcid as <-.
  rewrite (trace_since w _ (ex_intro _ _ Ht)), Hreq. reflexivity.
Qed.

(** X29.  What a successful [open_new_epoch] sends, in order: the signed
    epoch document as [<epoch_id>.json]; the removal of and the copy to
    [/swarmledger/epochs/<epoch_id>.json]; the pin of the CID the store
    returned; and the announcement on [/<pool>/epochs/opened] with the
    identifier, the name, the start time and that CID. *)
Theorem open_new_epoch_requests (now : Z) (m : EpochManager) (w : @World store)
    (id : string) :
  fst (fst (open_new_epoch http now m w)) = Ok id ->
  let n := (epoch_number m + 1)%Z in
  let signed := sign_and_add (signer m) (active_epoch (config m) n (timestamp_of now)) in
  let path := "/swarmledger/epochs/" +:+ id +:+ ".json" in
  id = "epoch-" +:+ format_04d n /\
  exists cid,
    requests_since w (snd (open_new_epoch http now m w)) =
    [ Add (id +:+ ".json") (dumps (JDict signed));
      FilesRm path;
      FilesCp [("arg", path)];
      PinAdd cid;
      PubsubPub ("/" +:+ pool (config m) +:+ "/epochs/opened")
        [ ("epoch_id", JStr id); ("name", JStr (get_epoch_name n));
          ("started_at", JInt (timestamp_of now)); ("cid", cid) ] ].
Proof.
  cbv zeta. unfold open_new_epoch.
  match goal with |- context [publish_epoch http ?d w] =>
    pose proof (fun cid => publish_epoch_success d w cid
                  ("epoch-" +:+ format_04d (epoch_number m + 1))) as Hp;
    destruct (publish_epoch http d w) as [[cid|e] w1] eqn:E
  end; simpl; [|discriminate].
  intros Hid. injection Hid as <-. split; [reflexivity|]. exists cid.
  specialize (Hp cid eq_refl).
  rewrite sign_and_add_get in Hp by discriminate. specialize (Hp eq_refl).
  simpl in Hp. unfold requests_since.
  rewrite pubsub_publish_trace, Hp, <- app_assoc. apply drop_app_length.
Qed.

(** X30.  What a successful [seal_current_epoch] sends, in order: the
    signed sealed document as [<epoch_id>.json]; the removal of and the
    copy to [/swarmledger/epochs/<epoch_id>.json], the path the open
    epoch was written to; the pin of the CID; and the announcement on
    [/<pool>/epochs/sealed] with the identifier, the number of proofs,
    the total volume, the Merkle root and the CID.  The manager is as
    before. *)
Theorem seal_current_epoch_requests (now : Z) (m : EpochManager) (w : @World store)
    (epoch : dict) (id : string) (cid : json) :
  current_epoch m = Some epoch ->
  dict_get "epoch_id" epoch = JStr id ->
  fst (seal_current_epoch http now m w) = Ok (Some cid) ->
  exists s root doc,
    seal_document now m epoch = Ok (s, root, doc) /\
    let path := "/swarmledger/epochs/" +:+ id +:+ ".json" in
    requests_since w (snd (seal_current_epoch http now m w)) =
    [ Add (id +:+ ".json") (dumps (JDict (sign_and_add (signer m) doc)));
      FilesRm path;
      FilesCp [("arg", path)];
      PinAdd cid;
      PubsubPub ("/" +:+ pool (config m) +:+ "/epochs/sealed")
        [ ("epoch_id", match current_epoch_id m with Some i => JStr i | None => JNull end);
          ("jobs_count", JInt (Z.of_nat (length (current_proofs m))));
          ("total_volume", JFloat (total_volume s));
          ("merkle_root", JStr root); ("cid", cid) ] ].
Proof.
  intros Hcur Hid. unfold seal_current_epoch. rewrite Hcur.
  destruct epoch as [|kv epoch]; [discriminate Hid|].
  destruct (seal_document now m (kv :: epoch)) as [[[s root] doc]|e] eqn:Hseal;
    [|discriminate].
  pose proof (fun c => publish_epoch_success (sign_and_add (signer m) doc) w c id) as Hp.
  destruct (publish_epoch http (sign_and_add (signer m) doc) w) as [[c|e] w1] eqn:E;
    simpl; [|discriminate].
  intros Hc. injection Hc as ->. exists s, root, doc. split; [reflexivity|].
  specialize (Hp cid eq_refl).
  rewrite sign_and_add_get in Hp by discriminate.
  destruct (seal_document_inv _ _ _ _ _ _ Hseal) as [_ Hdoc].
  rewrite Hdoc, sealed_epoch_doc_get in Hp. cbn [String.eqb Ascii.eqb Bool.eqb] in Hp.
  specialize (Hp Hid). rewrite <- Hdoc in Hp. simpl in Hp.
  cbv zeta. unfold requests_since.
  rewrite pubsub_publish_trace, Hp, <- app_assoc. apply drop_app_length.
Qed.

End EpochRequests.

Lemma open_new_epoch_requests_witness :
  fst (fst (open_new_epoch example_http example_start
              (new_manager default_config example_signer) (empty_store, [])))
    = Ok "epoch-0001" /\
  map (fun r => match r with
                | Add name _ => name
                | FilesRm p => p
                | FilesCp [(_, p)] => p
                | PubsubPub topic _ => topic
                | _ => ""
                end)
      (requests_since (empty_store, [])
         (snd (open_new_epoch example_http example_start
                 (new_manager default_config example_signer) (empty_store, []))))
    = [ "epoch-0001.json"; "/swarmledger/epochs/epoch-0001.json";
        "/swarmledger/epochs/epoch-0001.json"; ""; "/swarmpool.eth/epochs/opened" ].
Proof.
  split; [vm_compute; reflexivity|].
  destruct (open_new_epoch_requests example_http example_start
              (new_manager default_config example_signer) (empty_store, [])
              "epoch-0001" ltac:(vm_compute; reflexivity)) as (_ & cid & Hreq).
  rewrite Hreq. reflexivity.
Defined.

Lemma seal_current_epoch_requests_witness :
  exists cid,
    fst (seal_current_epoch example_http (example_start + 3600000000)
           example_manager example_world) = Ok (Some cid) /\
    map (fun r => match r with
                  | Add name _ => name
                  | FilesRm p => p
                  | FilesCp [(_, p)] => p
                  | PubsubPub topic _ => topic
                  | _ => ""
                  end)
        (requests_since example_world
           (snd (seal_current_epoch example_http (example_start + 3600000000)
                   example_manager example_world)))
      = [ "epoch-0001.json"; "/swarmledger/epochs/epoch-0001.json";
          "/swarmledger/epochs/epoch-0001.json"; ""; "/swarmpool.eth/epochs/sealed" ].
Proof.
  destruct (fst (seal_current_epoch example_http (example_start + 3600000000)
                   example_manager example_world)) as [[cid|]|e] eqn:E;
    try (vm_compute in E; discriminate E).
  exists cid. split; [reflexivity|].
  destruct (seal_current_epoch_requests example_http (example_start + 3600000000)
              example_manager example_world example_epoch "epoch-0001" cid
              example_manager_epoch ltac:(vm_compute; reflexivity) E)
    as (s & root & doc & _ & Hreq).
  cbv zeta in Hreq. rewrite Hreq. reflexivity.
Defined.

(** ** Runs of the loop: what reaches the epoch manager *)

Section LoopFacts.

Context {store : Type}.
Variable http : Request -> store -> option Response * store.

Lemma handed_sublist (now : Z) (l : list (string * json)) (m : EpochManager)
    (w : @World store) :
  map fst (handed http now l m w) `sublist_of` l.
Proof.
  revert m w. induction l as [|[id proof] l IH]; intros m w; simpl; [constructor|].
  destruct (process_proof http now proof m w) as [[r m1] w1]. simpl.
  apply sublist_skip. destruct r as [b|e]; [apply IH | apply sublist_nil_l].
Qed.

Lemma handed_all_ok (now : Z) (l : list (string * json)) (m : EpochManager)
    (w : @World store) :
  (forall c, In c (handed http now l m w) -> exists b, snd c = Ok b) ->
  map fst (handed http now l m w) = l.
Proof.
  revert m w. induction l as [|[id proof] l IH]; intros m w; simpl; [reflexivity|].
  destruct (process_proof http now proof m w) as [[r m1] w1]. simpl.
  intros H. f_equal. destruct r as [b|e].
  - apply IH. intros c Hc. apply H. right. exact Hc.
  - destruct (H (id, proof, Raise e) (or_introl eq_refl)) as [b Hb]. discriminate Hb.
Qed.

(** An iteration leaves the watcher as its poll left it. *)
Lemma tick_watcher (now : Z) (pw : ProofWatcher) (m : EpochManager) (w : @World store) :
  snd (fst (fst (tick http now pw m w))) = snd (fst (poll_with_ids http now pw w)).
Proof.
  unfold tick, poll. destruct (poll_with_ids http now pw w) as [[d pw1] w1]. simpl.
  destruct (process_all http now (map snd d) m w1) as [[[u|e] m1] w2]; [|reflexivity].
  destruct (should_seal now m1); [|reflexivity].
  destruct (seal_current_epoch http now m1 w2) as [[c|e] w3]; [|reflexivity].
  destruct (open_new_epoch http now m1 w3) as [[ro m2] w4]. reflexivity.
Qed.

Lemma sublist_map {A B : Type} (f : A -> B) (l1 l2 : list A) :
  l1 `sublist_of` l2 -> map f l1 `sublist_of` map f l2.
Proof. induction 1; simpl; constructor; assumption. Qed.

Lemma sublist_In {A : Type} (l1 l2 : list A) (x : A) :
  l1 `sublist_of` l2 -> In x l1 -> In x l2.
Proof. induction 1; simpl; tauto. Qed.

Lemma ticks_spec (steps : list (Z * (@World store -> @World store)))
    (pw : ProofWatcher) (m : EpochManager) (w : @World store) :
  let '(polled, calls, pw', _, _) := ticks http steps pw m w in
  map fst calls `sublist_of` polled /\
  NoDup (map fst polled) /\
  (forall id, In id (map fst polled) -> id ∉ seen_proofs pw) /\
  seen_proofs pw' = list_to_set (map fst polled) ∪ seen_proofs pw /\
  ((forall c, In c calls -> exists b, snd c = Ok b) -> map fst calls = polled).
Proof.
  revert pw m w. induction steps as [|[now env] rest IH]; intros pw m w; simpl.
  - split; [constructor|]. split; [constructor|]. split; [tauto|].
    split; [set_solver | reflexivity].
  - pose proof (tick_watcher now pw m (env w)) as Hpw.
    unfold poll_with_ids in *.
    destruct (list_proofs http (env w)) as [ids w0].
    pose proof (poll_loop_spec http ids (seen_proofs pw) [] w0) as H1.
    destruct (poll_loop http ids (seen_proofs pw) [] w0) as [[d1 seen1] w1].
    simpl in H1, Hpw. destruct H1 as (Hd1 & Hnd1 & Hnew1 & Hseen1).
    rewrite <- Hd1 in Hnd1, Hseen1.
    destruct (tick http now pw m (env w)) as [[[r pw1] m1] w2]. simpl in Hpw. subst pw1.
    match goal with |- context [ticks http rest ?p m1 w2] =>
      specialize (IH p m1 w2); destruct (ticks http rest p m1 w2)
        as [[[[d2 c2] pw2] m2] w3] end.
    simpl in IH. destruct IH as (Hsub & Hnd2 & Hnew2 & Hseen2 & Hok).
    assert (Hfresh : forall id, In id (map fst d1) -> id ∉ seen_proofs pw).
    { intros id Hin. apply Hnew1. rewrite Hd1 in Hin.
      apply in_map_iff in Hin as (a & Ha & Hin). apply filter_In in Hin as [Hin _].
      apply in_map_iff. now exists a. }
    split; [|split; [|split; [|split]]].
    + rewrite map_app. apply sublist_app; [apply handed_sublist | exact Hsub].
    + rewrite map_app. apply NoDup_app. split; [exact Hnd1|]. split; [|exact Hnd2].
      intros id Hin1 Hin2. apply list_elem_of_In in Hin2. apply Hnew2 in Hin2.
      apply Hin2. rewrite Hseen1. apply elem_of_union_l, elem_of_list_to_set. exact Hin1.
    + intros id Hin. rewrite map_app in Hin. apply in_app_or in Hin as [Hin|Hin].
      * apply Hfresh. exact Hin.
      * apply Hnew2 in Hin. rewrite Hseen1 in Hin. set_solver.
    + rewrite Hseen2, Hseen1, map_app, list_to_set_app_L. set_solver.
    + intros Hall. rewrite map_app. f_equal.
      * apply handed_all_ok. intros c Hc. apply Hall. apply in_or_app. now left.
      * apply Hok. intros c Hc. apply Hall. apply in_or_app. now right.
Qed.

End LoopFacts.

(** C7.  Over any run of the loop, whatever happens to the world between
    its iterations: [process_proof] is called on proofs the polls
    returned, in their order, and on no identifier twice; the polls
    return no identifier twice, none that was already in the seen set,
    and every identifier they return is in the seen set afterwards; when
    no call of [process_proof] raises, every proof a poll returned is
    handed to the epoch manager, exactly once.  But a proof returned by
    a poll is in the seen set whether or not the loop reached it: no
    later iteration, from whatever state of the manager and of the
    world, hands it over.  In the run against a directory that lists a
    proof with a numeric [job_cid] before a well-formed proof, both are
    fetched by the first poll, [process_proof] raises [TypeError] on the
    first, and the second, whose fetch succeeded, is handed to the epoch
    manager in none of the three iterations. *)
Theorem loop_hands_over_at_most_once {store : Type}
    (http : Request -> store -> option Response * store)
    (steps : list (Z * (@World store -> @World store)))
    (pw : ProofWatcher) (m : EpochManager) (w : @World store) :
  (let '(polled, calls, pw', _, _) := ticks http steps pw m w in
   map fst calls `sublist_of` polled /\
   NoDup (map fst (map fst calls)) /\
   NoDup (map fst polled) /\
   (forall id, In id (map fst polled) -> (id ∉ seen_proofs pw) /\ id ∈ seen_proofs pw') /\
   ((forall c, In c calls -> exists b, snd c = Ok b) -> map fst calls = polled) /\
   (forall steps' m' w' id,
      In id (map fst polled) ->
      ~ In id (map fst (map fst (snd (fst (fst (fst (ticks http steps' pw' m' w'))))))))) /\
  (let '(polled, calls, pw', m', _) := run_with_malformed_proof in
   map fst polled = ["a"; "b"] /\
   map (fun c => (fst (fst c), snd c)) calls = [("a", Raise TypeError)] /\
   bool_decide ("b" ∈ seen_proofs pw') = true /\
   current_proofs m' = []).
Proof.
  split; [|vm_compute; repeat split; reflexivity].
  pose proof (ticks_spec http steps pw m w) as H.
  destruct (ticks http steps pw m w) as [[[[polled calls] pw'] m1] w1].
  destruct H as (Hsub & Hnd & Hnew & Hseen & Hok).
  assert (Hin' : forall id, In id (map fst polled) -> id ∈ seen_proofs pw').
  { intros id Hin. rewrite Hseen. apply elem_of_union_l, elem_of_list_to_set.
    now apply list_elem_of_In. }
  split; [exact Hsub|]. split; [|split; [exact Hnd|split; [|split; [exact Hok|]]]].
  - eapply sublist_NoDup; [exact Hnd|]. apply sublist_map. exact Hsub.
  - intros id Hin. split; [apply Hnew | apply Hin']; exact Hin.
  - intros steps' m' w' id Hin Hlater.
    pose proof (ticks_spec http steps' pw' m' w') as H'.
    destruct (ticks http steps' pw' m' w') as [[[[polled' calls'] pw''] m''] w''].
    simpl in Hlater. destruct H' as (Hsub' & _ & Hnew' & _).
    apply (Hnew' id); [|apply Hin'; exact Hin].
    apply in_map_iff in Hlater as (a & <- & Ha). apply in_map_iff.
    exists a. split; [reflexivity|]. eapply sublist_In; [exact Hsub' | exact Ha].
Qed.
